(** * JobGuard: a shallow embedding of the durability pipeline

    The development follows the TypeScript sources of the repository:
    the adaptive scheduler, the circuit breaker, the SQL statements of
    [persistence/queries.ts] read as functions on a table, the repository
    methods that run them through the breaker, the adapter base class with
    its validation and error sanitisation, the three broker adapters, the
    reconciler's constructor and the coordinator facade.

    Conventions.  JavaScript numbers that hold counts and millisecond
    timestamps are integers of [Z]; the scheduler's intervals, which are
    multiplied by 1.5 and 0.8, are rationals of [Q] with the rounded
    multiplication taken as a parameter.  Strings are sequences of code
    units below 256 ([string], or [list ascii] where the text is scanned).
    An [await]ed call is a function from the state before to an outcome
    and the state after; interleavings of concurrent tasks are not
    modelled.  The broker libraries are a record of operations on an
    abstract broker state. *)

From Stdlib Require Import ZArith List String Ascii Bool Lia QArith Qround.
From Stdlib Require Import DecimalString Sorted.
Import ListNotations.

Local Open Scope Z_scope.

(* ================================================================== *)
(** ** Errors and outcomes *)

(** [errors/errors.ts], plus the plain [Error]s of the sources and the
    errors raised by the database server. *)
Inductive JobGuardError : Type :=
| PlainError (message : string)
| UnsupportedQueueError (queueType : string)
| PostgresConnectionError (message : string)
| CircuitBreakerOpenError (circuitName : string)
| ReconciliationError (message : string)
| DatabaseError (sqlstate : string).

(** The result of a call that either returns or throws. *)
Inductive Outcome (A : Type) : Type :=
| Returned (value : A)
| Thrown (error : JobGuardError).
Arguments Returned {A} value.
Arguments Thrown {A} error.

Definition isThrown {A} (o : Outcome A) : bool :=
  match o with Thrown _ => true | Returned _ => false end.

(* ================================================================== *)
(** ** reconciliation/scheduler.ts *)

Module Scheduler.

Local Open Scope Q_scope.

Definition Math_max (a b : Q) : Q := if Qle_bool a b then b else a.
Definition Math_min (a b : Q) : Q := if Qle_bool a b then a else b.

Record SchedulerConfig : Type := {
  cfg_baseIntervalMs : Q;
  cfg_adaptiveScheduling : bool
}.

Record AdaptiveScheduler : Type := {
  baseIntervalMs : Q;
  currentIntervalMs : Q;
  adaptiveScheduling : bool;
  consecutiveEmptyRuns : Z;
  minIntervalMs : Q;
  maxIntervalMs : Q
}.

(** [constructor]: division and multiplication by four are exact. *)
Definition constructor (config : SchedulerConfig) : AdaptiveScheduler :=
  {| baseIntervalMs := cfg_baseIntervalMs config;
     currentIntervalMs := cfg_baseIntervalMs config;
     adaptiveScheduling := cfg_adaptiveScheduling config;
     consecutiveEmptyRuns := 0%Z;
     minIntervalMs := Math_max 5000 (cfg_baseIntervalMs config / 4);
     maxIntervalMs := cfg_baseIntervalMs config * 4 |}.

Definition set_current (s : AdaptiveScheduler) (c : Q) : AdaptiveScheduler :=
  {| baseIntervalMs := baseIntervalMs s;
     currentIntervalMs := c;
     adaptiveScheduling := adaptiveScheduling s;
     consecutiveEmptyRuns := consecutiveEmptyRuns s;
     minIntervalMs := minIntervalMs s;
     maxIntervalMs := maxIntervalMs s |}.

Definition set_empty (s : AdaptiveScheduler) (n : Z) : AdaptiveScheduler :=
  {| baseIntervalMs := baseIntervalMs s;
     currentIntervalMs := currentIntervalMs s;
     adaptiveScheduling := adaptiveScheduling s;
     consecutiveEmptyRuns := n;
     minIntervalMs := minIntervalMs s;
     maxIntervalMs := maxIntervalMs s |}.

Section Rounded.

(** The floating-point product: [fmul x y] is the double nearest to the
    exact product.  Only two facts about it are used, both consequences of
    monotone rounding on representable arguments. *)
Variable fmul : Q -> Q -> Q.

(** [recordResult(foundStuckJobs, successRate)]. *)
Definition recordResult (foundStuckJobs : Z) (successRate : Q)
    (s : AdaptiveScheduler) : AdaptiveScheduler :=
  if negb (adaptiveScheduling s) then s
  else if negb (Qle_bool (8 # 10) successRate) then
    (* successRate < 0.8: back off *)
    set_current s (Math_min (fmul (currentIntervalMs s) (3 # 2)) (maxIntervalMs s))
  else if (foundStuckJobs =? 0)%Z then
    let s1 := set_empty s (consecutiveEmptyRuns s + 1)%Z in
    if (3 <=? consecutiveEmptyRuns s1)%Z then
      set_current s1 (Math_min (fmul (currentIntervalMs s1) (3 # 2)) (maxIntervalMs s1))
    else s1
  else
    let s1 := set_empty s 0%Z in
    set_current s1 (Math_max (fmul (currentIntervalMs s1) (8 # 10)) (minIntervalMs s1)).

(** The scheduler after a sequence of reconciliation cycles. *)
Definition recordResults (inputs : list (Z * Q)) (s : AdaptiveScheduler)
    : AdaptiveScheduler :=
  fold_left (fun acc i => recordResult (fst i) (snd i) acc) inputs s.

End Rounded.

(** [getCurrentInterval]: [Math.round] is the floor of [x + 1/2]. *)
Definition getCurrentInterval (s : AdaptiveScheduler) : Z :=
  Qfloor (currentIntervalMs s + (1 # 2)).

Definition reset (s : AdaptiveScheduler) : AdaptiveScheduler :=
  set_empty (set_current s (baseIntervalMs s)) 0%Z.

(** The current interval lies between the two bounds. *)
Definition within_bounds (s : AdaptiveScheduler) : Prop :=
  minIntervalMs s <= currentIntervalMs s /\ currentIntervalMs s <= maxIntervalMs s.

(** The invariant carried along a run: the lower bound is not negative
    and the current interval lies between the bounds. *)
Definition ordered (s : AdaptiveScheduler) : Prop :=
  0 <= minIntervalMs s /\ within_bounds s.

(** The bounds are those the constructor computed from the base. *)
Definition bounds_of (base : Q) (s : AdaptiveScheduler) : Prop :=
  minIntervalMs s = Math_max 5000 (base / 4) /\ maxIntervalMs s = base * 4.

End Scheduler.

(* ================================================================== *)
(** ** utils/circuit-breaker.ts *)

Module CircuitBreaker.

Inductive CircuitState : Type := CLOSED | OPEN | HALF_OPEN.

Record CallRecord : Type := {
  call_success : bool;
  call_timestamp : Z
}.

Record CircuitBreakerConfig : Type := {
  cfg_threshold : Z;
  cfg_timeout : Z;
  cfg_name : string
}.

Record t : Type := {
  state : CircuitState;
  failureCount : Z;
  successCount : Z;
  lastFailureTime : Z;
  threshold : Z;
  timeout : Z;
  name : string;
  callHistory : list CallRecord
}.

Definition windowMs : Z := 60000.

Definition constructor (config : CircuitBreakerConfig) : t :=
  {| state := CLOSED;
     failureCount := 0;
     successCount := 0;
     lastFailureTime := 0;
     threshold := cfg_threshold config;
     timeout := cfg_timeout config;
     name := cfg_name config;
     callHistory := [] |}.

Definition with_state (cb : t) (st : CircuitState) : t :=
  {| state := st;
     failureCount := failureCount cb;
     successCount := successCount cb;
     lastFailureTime := lastFailureTime cb;
     threshold := threshold cb;
     timeout := timeout cb;
     name := name cb;
     callHistory := callHistory cb |}.

Definition pruneOldCalls (now : Z) (cb : t) : t :=
  let cutoff := now - windowMs in
  {| state := state cb;
     failureCount := failureCount cb;
     successCount := successCount cb;
     lastFailureTime := lastFailureTime cb;
     threshold := threshold cb;
     timeout := timeout cb;
     name := name cb;
     callHistory := filter (fun call => cutoff <? call_timestamp call) (callHistory cb) |}.

Definition onSuccess (now : Z) (cb : t) : t :=
  {| state := match state cb with HALF_OPEN => CLOSED | st => st end;
     failureCount := 0;
     successCount := successCount cb + 1;
     lastFailureTime := lastFailureTime cb;
     threshold := threshold cb;
     timeout := timeout cb;
     name := name cb;
     callHistory := callHistory cb ++ [ {| call_success := true; call_timestamp := now |} ] |}.

Definition onFailure (now : Z) (cb : t) : t :=
  {| state := if threshold cb <=? failureCount cb + 1 then OPEN else state cb;
     failureCount := failureCount cb + 1;
     successCount := successCount cb;
     lastFailureTime := now;
     threshold := threshold cb;
     timeout := timeout cb;
     name := name cb;
     callHistory := callHistory cb ++ [ {| call_success := false; call_timestamp := now |} ] |}.

(** The three readings of [Date.now()] made by one [execute]: in
    [pruneOldCalls], in the test of the open state, and in [onSuccess] or
    [onFailure] once the operation has settled. *)
Record Clock : Type := {
  t_prune : Z;
  t_check : Z;
  t_done : Z
}.

(** [execute(fn)].  The operation [fn] acts on a world [W]; it is not
    applied at all when the breaker rejects the call. *)
Definition execute {W A : Type} (clk : Clock) (fn : W -> W * Outcome A)
    (cb : t) (w : W) : t * W * Outcome A :=
  let cb1 := pruneOldCalls (t_prune clk) cb in
  let proceed (cb2 : t) :=
    match fn w with
    | (w', Returned v) => (onSuccess (t_done clk) cb2, w', Returned v)
    | (w', Thrown e) => (onFailure (t_done clk) cb2, w', Thrown e)
    end in
  match state cb1 with
  | OPEN =>
      if timeout cb1 <? t_check clk - lastFailureTime cb1
      then proceed (with_state cb1 HALF_OPEN)
      else (cb1, w, Thrown (CircuitBreakerOpenError (name cb1)))
  | _ => proceed cb1
  end.

Definition getState (cb : t) : CircuitState := state cb.

(** A run of calls whose operation throws every time it is tried. *)
Definition failing {W : Type} (step : W -> W) (e : JobGuardError)
    : W -> W * Outcome unit :=
  fun w => (step w, Thrown e).

Fixpoint executeAll {W A : Type} (calls : list (Clock * (W -> W * Outcome A)))
    (cb : t) (w : W) : t * W :=
  match calls with
  | [] => (cb, w)
  | (clk, fn) :: rest =>
      let '(cb', w', _) := execute clk fn cb w in
      executeAll rest cb' w'
  end.

(** What [execute] does when the call is let through. *)
Definition entered (clk : Clock) (cb : t) : t :=
  match state cb with
  | OPEN => with_state (pruneOldCalls (t_prune clk) cb) HALF_OPEN
  | _ => pruneOldCalls (t_prune clk) cb
  end.

(** After [n] failing calls: the breaker is open with the threshold
    reached, or it is not open and has counted them all, without reaching
    the threshold if a failure has been counted. *)
Definition tripping (T : Z) (n : nat) (cb : t) : Prop :=
  threshold cb = T
  /\ ((state cb = OPEN /\ T <= failureCount cb)
      \/ (state cb <> OPEN /\ Z.of_nat n <= failureCount cb
          /\ (n = 0%nat \/ failureCount cb < T))).

(** [reset] *)
Definition reset (cb : t) : t :=
  {| state := CLOSED;
     failureCount := 0;
     successCount := 0;
     lastFailureTime := 0;
     threshold := threshold cb;
     timeout := timeout cb;
     name := name cb;
     callHistory := [] |}.

Record CircuitBreakerMetrics : Type := {
  m_state : CircuitState;
  m_failureCount : Z;
  m_successCount : Z;
  m_totalCalls : Z;
  m_failureRate : Q;
  m_lastFailureTime : Z
}.

Section Rounded.

(** The floating-point quotient and product of [getMetrics]. *)
Variables fdiv fmul : Q -> Q -> Q.

(** [getMetrics]: the history is pruned first, as in [execute], and the
    breaker keeps the pruned history. *)
Definition getMetrics (now : Z) (cb : t) : t * CircuitBreakerMetrics :=
  let cb1 := pruneOldCalls now cb in
  let windowFailures :=
    Z.of_nat (List.length (filter (fun call => negb (call_success call)) (callHistory cb1))) in
  let windowTotal := Z.of_nat (List.length (callHistory cb1)) in
  (cb1,
   {| m_state := state cb1;
      m_failureCount := failureCount cb1;
      m_successCount := successCount cb1;
      m_totalCalls := windowTotal;
      m_failureRate :=
        if 0 <? windowTotal
        then fmul (fdiv (inject_Z windowFailures) (inject_Z windowTotal)) (100%Q)
        else 0%Q;
      m_lastFailureTime := lastFailureTime cb1 |}).

End Rounded.

End CircuitBreaker.

(* ================================================================== *)
(** ** types/job.ts and schema/001_initial.sql *)

Module Job.

Inductive JobStatus : Type :=
| PENDING | PROCESSING | COMPLETED | FAILED | STUCK | DEAD.

Inductive QueueType : Type := bull | bullmq | bee.

Definition status_eqb (a b : JobStatus) : bool :=
  match a, b with
  | PENDING, PENDING | PROCESSING, PROCESSING | COMPLETED, COMPLETED
  | FAILED, FAILED | STUCK, STUCK | DEAD, DEAD => true
  | _, _ => false
  end.

Definition queue_type_eqb (a b : QueueType) : bool :=
  match a, b with
  | bull, bull | bullmq, bullmq | bee, bee => true
  | _, _ => false
  end.

(** The predicate [status IN ('completed', 'failed', 'dead')]. *)
Definition isTerminal (s : JobStatus) : bool :=
  match s with
  | COMPLETED | FAILED | DEAD => true
  | PENDING | PROCESSING | STUCK => false
  end.

(** A job payload as [JSON.stringify] sees it: it has a JSON text, or the
    call throws (circular structure, BigInt, a throwing [toJSON]), or it
    yields [undefined] (undefined, a function, a symbol). *)
Inductive JsValue : Type :=
| Serializable (json : string)
| Unserializable (message : string)
| Undefined.

(** A row of [jobguard_jobs]; [mapRowToJobRecord] copies it field by field.
    Timestamps are milliseconds, [None] is SQL NULL; [data] is the JSONB
    document, held as the text the server prints for it. *)
Record JobRecord : Type := {
  id : Z;
  queue_name : string;
  queue_type : QueueType;
  job_id : string;
  job_name : option string;
  data : string;
  status : JobStatus;
  attempts : Z;
  max_attempts : Z;
  error_message : option string;
  created_at : Z;
  updated_at : Z;
  started_at : option Z;
  completed_at : option Z;
  last_heartbeat : option Z
}.

Record JobStats : Type := {
  stats_queueName : string;
  stats_pending : Z;
  stats_processing : Z;
  stats_completed : Z;
  stats_failed : Z;
  stats_stuck : Z;
  stats_dead : Z;
  stats_total : Z
}.

End Job.

(* ================================================================== *)
(** ** persistence/queries.ts: the statements as functions on the table *)

Module Sql.
Import Job.

Definition Table : Type := list JobRecord.

(** What a statement yields: the rows it returns and the table after it,
    or an error of the server, in which case the table is as before. *)
Definition Result : Type := Outcome (list JobRecord * Table).

Definition unique_violation : JobGuardError := DatabaseError "23505".
Definition not_null_violation : JobGuardError := DatabaseError "23502".
Definition string_data_right_truncation : JobGuardError := DatabaseError "22001".
Definition numeric_value_out_of_range : JobGuardError := DatabaseError "22003".
Definition invalid_row_count_in_limit_clause : JobGuardError := DatabaseError "2201W".

Definition same_key (q : string) (t : QueueType) (j : string) (r : JobRecord) : bool :=
  String.eqb (queue_name r) q && queue_type_eqb (queue_type r) t
  && String.eqb (job_id r) j.

Definition active (r : JobRecord) : bool := negb (isTerminal (status r)).

(** [idx_unique_active_job]: no two rows that are not terminal share
    [(queue_name, queue_type, job_id)]. *)
Fixpoint unique_active (tbl : Table) : bool :=
  match tbl with
  | [] => true
  | r :: rest =>
      (negb (active r)
       || negb (existsb (fun r' => active r'
                  && same_key (queue_name r) (queue_type r) (job_id r) r') rest))
      && unique_active rest
  end.

(** SMALLINT columns. *)
Definition smallint_ok (n : Z) : bool := (-32768 <=? n) && (n <=? 32767).

Fixpoint all_spaces (s : string) : bool :=
  match s with
  | EmptyString => true
  | String c s' => Ascii.eqb c " "%char && all_spaces s'
  end.

(** Storing into VARCHAR(n): an over-long value is an error unless the
    excess is spaces, which are cut. *)
Definition varchar (n : nat) (s : string) : option string :=
  if (String.length s <=? n)%nat then Some s
  else if all_spaces (substring n (String.length s - n) s)
       then Some (substring 0 n s) else None.

Definition varchar_opt (n : nat) (s : option string) : option (option string) :=
  match s with
  | None => Some None
  | Some v => match varchar n v with Some v' => Some (Some v') | None => None end
  end.

(** The update of the rows selected by [sel], each rewritten by [f]; the
    trigger [update_jobguard_jobs_updated_at] stamps every updated row.
    The unique index is checked on the outcome. *)
Definition touch (now : Z) (r : JobRecord) : JobRecord :=
  {| id := id r; queue_name := queue_name r; queue_type := queue_type r;
     job_id := job_id r; job_name := job_name r; data := data r;
     status := status r; attempts := attempts r; max_attempts := max_attempts r;
     error_message := error_message r; created_at := created_at r;
     updated_at := now; started_at := started_at r;
     completed_at := completed_at r; last_heartbeat := last_heartbeat r |}.

Definition update_rows (now : Z) (sel : JobRecord -> bool)
    (f : JobRecord -> JobRecord) (tbl : Table) : Table :=
  map (fun r => if sel r then touch now (f r) else r) tbl.

Definition returning (now : Z) (sel : JobRecord -> bool)
    (f : JobRecord -> JobRecord) (tbl : Table) : list JobRecord :=
  map (fun r => touch now (f r)) (filter sel tbl).

Definition UPDATE (now : Z) (sel : JobRecord -> bool)
    (f : JobRecord -> JobRecord) (tbl : Table) : Result :=
  let tbl' := update_rows now sel f tbl in
  if unique_active tbl' then Returned (returning now sel f tbl, tbl')
  else Thrown unique_violation.

Definition set_status_fields (now : Z) (s : JobStatus) (r : JobRecord) : JobRecord :=
  {| id := id r; queue_name := queue_name r; queue_type := queue_type r;
     job_id := job_id r; job_name := job_name r; data := data r;
     status := s; attempts := attempts r; max_attempts := max_attempts r;
     error_message := error_message r; created_at := created_at r;
     updated_at := now;
     started_at := if status_eqb s PROCESSING then Some now else started_at r;
     completed_at := if isTerminal s then Some now else completed_at r;
     last_heartbeat := if status_eqb s PROCESSING then Some now else last_heartbeat r |}.

(** UPDATE_JOB_STATUS *)
Definition UPDATE_JOB_STATUS (now : Z) (s : JobStatus) (q : string)
    (t : QueueType) (j : string) (tbl : Table) : Result :=
  UPDATE now (same_key q t j) (set_status_fields now s) tbl.

Definition set_error_fields (now : Z) (err : string) (r : JobRecord) : JobRecord :=
  let exhausted := max_attempts r <=? attempts r + 1 in
  {| id := id r; queue_name := queue_name r; queue_type := queue_type r;
     job_id := job_id r; job_name := job_name r; data := data r;
     status := if exhausted then DEAD else FAILED;
     attempts := attempts r + 1; max_attempts := max_attempts r;
     error_message := Some err; created_at := created_at r;
     updated_at := now; started_at := started_at r;
     completed_at := if exhausted then Some now else completed_at r;
     last_heartbeat := last_heartbeat r |}.

(** UPDATE_JOB_ERROR: [attempts + 1] must fit the SMALLINT column. *)
Definition UPDATE_JOB_ERROR (now : Z) (err : string) (q : string)
    (t : QueueType) (j : string) (tbl : Table) : Result :=
  if forallb (fun r => smallint_ok (attempts r + 1)) (filter (same_key q t j) tbl)
  then UPDATE now (same_key q t j) (set_error_fields now err) tbl
  else Thrown numeric_value_out_of_range.

(** [COALESCE(last_heartbeat, updated_at)] *)
Definition liveness (r : JobRecord) : Z :=
  match last_heartbeat r with Some h => h | None => updated_at r end.

Fixpoint insert_by_liveness (r : JobRecord) (l : list JobRecord) : list JobRecord :=
  match l with
  | [] => [r]
  | x :: rest =>
      if liveness r <? liveness x then r :: x :: rest
      else x :: insert_by_liveness r rest
  end.

(** ORDER BY liveness ASC; rows of equal liveness keep the table's order. *)
Definition order_by_liveness (l : list JobRecord) : list JobRecord :=
  fold_right insert_by_liveness [] l.

Definition is_stuck (now : Z) (q : string) (thresholdMs : Z) (r : JobRecord) : bool :=
  String.eqb (queue_name r) q && status_eqb (status r) PROCESSING
  && (liveness r <? now - thresholdMs).

(** GET_STUCK_JOBS.  [locked] holds the ids of the rows that other
    transactions have locked: FOR UPDATE SKIP LOCKED passes over them.  A
    negative LIMIT is an error.  The statement changes no row. *)
Definition GET_STUCK_JOBS (now : Z) (locked : list Z) (q : string)
    (thresholdMs : Z) (batchSize : Z) (tbl : Table) : Result :=
  if batchSize <? 0 then Thrown invalid_row_count_in_limit_clause
  else
    let hits := filter (fun r => is_stuck now q thresholdMs r
                          && negb (existsb (Z.eqb (id r)) locked)) tbl in
    Returned (firstn (Z.to_nat batchSize) (order_by_liveness hits), tbl).

Definition id_in (ids : list Z) (r : JobRecord) : bool :=
  existsb (Z.eqb (id r)) ids.

Definition set_status_only (s : JobStatus) (r : JobRecord) : JobRecord :=
  {| id := id r; queue_name := queue_name r; queue_type := queue_type r;
     job_id := job_id r; job_name := job_name r; data := data r;
     status := s; attempts := attempts r; max_attempts := max_attempts r;
     error_message := error_message r; created_at := created_at r;
     updated_at := updated_at r; started_at := started_at r;
     completed_at := completed_at r; last_heartbeat := last_heartbeat r |}.

(** MARK_AS_STUCK *)
Definition MARK_AS_STUCK (now : Z) (ids : list Z) (tbl : Table) : Result :=
  UPDATE now (id_in ids) (set_status_only STUCK) tbl.

(** BULK_UPDATE_STATUS *)
Definition BULK_UPDATE_STATUS (now : Z) (s : JobStatus) (ids : list Z)
    (tbl : Table) : Result :=
  UPDATE now (id_in ids) (set_status_only s) tbl.

Definition set_dead_fields (now : Z) (r : JobRecord) : JobRecord :=
  {| id := id r; queue_name := queue_name r; queue_type := queue_type r;
     job_id := job_id r; job_name := job_name r; data := data r;
     status := DEAD; attempts := attempts r; max_attempts := max_attempts r;
     error_message := error_message r; created_at := created_at r;
     updated_at := now; started_at := started_at r;
     completed_at := Some now; last_heartbeat := last_heartbeat r |}.

(** BULK_MARK_DEAD *)
Definition BULK_MARK_DEAD (now : Z) (ids : list Z) (tbl : Table) : Result :=
  UPDATE now (id_in ids) (set_dead_fields now) tbl.

Definition set_heartbeat (now : Z) (r : JobRecord) : JobRecord :=
  {| id := id r; queue_name := queue_name r; queue_type := queue_type r;
     job_id := job_id r; job_name := job_name r; data := data r;
     status := status r; attempts := attempts r; max_attempts := max_attempts r;
     error_message := error_message r; created_at := created_at r;
     updated_at := updated_at r; started_at := started_at r;
     completed_at := completed_at r; last_heartbeat := Some now |}.

(** UPDATE_HEARTBEAT *)
Definition UPDATE_HEARTBEAT (now : Z) (q : string) (t : QueueType) (j : string)
    (tbl : Table) : Result :=
  UPDATE now (fun r => same_key q t j r && status_eqb (status r) PROCESSING)
         (set_heartbeat now) tbl.

(** GET_JOB *)
Definition GET_JOB (q : string) (t : QueueType) (j : string) (tbl : Table) : Result :=
  Returned (filter (same_key q t j) tbl, tbl).

Definition day_ms : Z := 86400000.

(** The time zone of the session, as far as the arithmetic of intervals
    on TIMESTAMPTZ needs it: the reading of the wall clock at an instant,
    and the instant at which the wall clock shows a reading, both in
    milliseconds. *)
Record TimeZone : Type := {
  local_of : Z -> Z;
  instant_of : Z -> Z
}.

Definition utc : TimeZone :=
  {| local_of := fun t => t; instant_of := fun l => l |}.

(** A zone that never changes its offset. *)
Definition fixed_offset (tz : TimeZone) : Prop :=
  exists off,
    (forall t, local_of tz t = t + off) /\ (forall l, instant_of tz l = l - off).

(** [NOW() - INTERVAL '1 day' * n]: the days of an interval are days of
    the calendar.  They are taken off the reading of the wall clock, which
    is then read back as an instant, so that a day is 23 or 25 hours long
    where the zone changes its offset. *)
Definition days_before (tz : TimeZone) (now n : Z) : Z :=
  instant_of tz (local_of tz now - day_ms * n).

(** DELETE_OLD_JOBS; the count of deleted rows is the length of the list
    returned. *)
Definition DELETE_OLD_JOBS (tz : TimeZone) (now : Z) (retentionDays : Z)
    (tbl : Table) : Result :=
  let old r := isTerminal (status r)
               && match completed_at r with
                  | Some c => c <? days_before tz now retentionDays
                  | None => false
                  end in
  Returned (filter old tbl, filter (fun r => negb (old r)) tbl).

(** The rows that DELETE_OLD_JOBS removes. *)
Definition expired (tz : TimeZone) (now : Z) (retentionDays : Z) (r : JobRecord) : bool :=
  isTerminal (status r)
  && match completed_at r with
     | Some c => c <? days_before tz now retentionDays
     | None => false
     end.

(** GET_STATISTICS: [COUNT( * ) ... GROUP BY status], one count per status
    that occurs. *)
Definition count_status (q : string) (s : JobStatus) (tbl : Table) : Z :=
  Z.of_nat (List.length (filter (fun r => String.eqb (queue_name r) q
                                   && status_eqb (status r) s) tbl)).

(** A parameter of type JSONB: the server reads the text into a document
    when the parameters are bound, or refuses it.  [jsonb_in] is that
    reading; the document is held as the text the server prints for it,
    which differs from the text sent (keys are put in order, duplicate
    keys and insignificant blanks are dropped). *)
Definition jsonb_opt (jsonb_in : string -> Outcome string) (json : option string)
    : Outcome (option string) :=
  match json with
  | None => Returned None
  | Some text =>
      match jsonb_in text with
      | Returned doc => Returned (Some doc)
      | Thrown e => Thrown e
      end
  end.

(** INSERT_JOB.  [newid] is the value [uuid_generate_v4()] produces for
    the row; [json] is the fifth parameter, [None] when it is null, and
    the column [data] receives the document the server reads from it. *)
Definition INSERT_JOB (jsonb_in : string -> Outcome string) (now : Z) (newid : Z)
    (q : string) (t : QueueType)
    (j : string) (jname : option string) (json : option string)
    (s : JobStatus) (att maxAtt : Z) (tbl : Table) : Result :=
  match jsonb_opt jsonb_in json with
  | Thrown e => Thrown e
  | Returned document =>
  match varchar 100 q, varchar 100 j, varchar_opt 100 jname with
  | Some q', Some j', Some jname' =>
      if negb (smallint_ok att && smallint_ok maxAtt) then
        Thrown numeric_value_out_of_range
      else match document with
      | None => Thrown not_null_violation
      | Some text =>
          (* the arbiter is the partial index: only a row that is not
             terminal conflicts, and only with a row that is not terminal *)
          let conflicting r := negb (isTerminal s) && active r && same_key q' t j' r in
          if existsb conflicting tbl then
            (* ON CONFLICT ... DO UPDATE ... WHERE status NOT IN (...) *)
            UPDATE now conflicting
              (fun r =>
                 {| id := id r; queue_name := queue_name r;
                    queue_type := queue_type r; job_id := job_id r;
                    job_name := job_name r; data := text; status := s;
                    attempts := att; max_attempts := max_attempts r;
                    error_message := error_message r;
                    created_at := created_at r; updated_at := now;
                    started_at := started_at r; completed_at := completed_at r;
                    last_heartbeat := last_heartbeat r |}) tbl
          else if existsb (fun r => id r =? newid) tbl then
            Thrown unique_violation
          else
            let row :=
              {| id := newid; queue_name := q'; queue_type := t; job_id := j';
                 job_name := jname'; data := text; status := s;
                 attempts := att; max_attempts := maxAtt;
                 error_message := None; created_at := now; updated_at := now;
                 started_at := None; completed_at := None;
                 last_heartbeat := None |} in
            Returned ([row], tbl ++ [row])
      end
  | _, _, _ => Thrown string_data_right_truncation
  end
  end.

End Sql.

(* ================================================================== *)
(** ** utils/logger.ts, as far as the other components use it *)

Module Logger.

Inductive Level : Type := debug | info | warn | error.

Record Entry : Type := {
  level : Level;
  text : string
}.

Definition t : Type := list Entry.

Definition log (l : Level) (msg : string) (lg : t) : t :=
  lg ++ [ {| level := l; text := msg |} ].

End Logger.

(* ================================================================== *)
(** ** persistence/connection.ts: the pool's health flag *)

Module ConnectionManager.

Record t : Type := {
  consecutiveExhaustionChecks : Z;
  poolExhausted : bool;
  monitoring : bool;
  poolEnded : bool
}.

Definition MAX_EXHAUSTION_CHECKS : Z := 3.

Definition constructor : t :=
  {| consecutiveExhaustionChecks := 0; poolExhausted := false;
     monitoring := true; poolEnded := false |}.

(** One tick of the five-second monitor, given the pool's counters. *)
Definition monitorTick (total idle maxSize : Z) (m : t) : t :=
  if (idle =? 0) && (maxSize <=? total) then
    let n := consecutiveExhaustionChecks m + 1 in
    {| consecutiveExhaustionChecks := n;
       poolExhausted := if MAX_EXHAUSTION_CHECKS <=? n then true else poolExhausted m;
       monitoring := monitoring m; poolEnded := poolEnded m |}
  else if (0 <? consecutiveExhaustionChecks m) || poolExhausted m then
    {| consecutiveExhaustionChecks := 0; poolExhausted := false;
       monitoring := monitoring m; poolEnded := poolEnded m |}
  else m.

Definition checkPoolHealth (m : t) : Outcome unit :=
  if poolExhausted m then
    Thrown (PostgresConnectionError
      "Connection pool is critically exhausted. All connections in use. Please reduce load or increase pool size.")
  else Returned tt.

Definition close (m : t) : t :=
  {| consecutiveExhaustionChecks := consecutiveExhaustionChecks m;
     poolExhausted := poolExhausted m;
     monitoring := false; poolEnded := true |}.

(** The counters of the pool as the monitor reads them: [totalCount],
    [idleCount], [waitingCount] and [options.max], each of which may be
    missing. *)
Record PoolCounters : Type := {
  totalCount : option Z;
  idleCount : option Z;
  waitingCount : option Z;
  options_max : option Z
}.

(** [x || d] on a counter. *)
Definition or_else (x : option Z) (d : Z) : Z :=
  match x with
  | Some n => if n =? 0 then d else n
  | None => d
  end.

Record PoolStats : Type := {
  total : Z;
  idle : Z;
  waiting : Z
}.

Definition getPoolStats (p : PoolCounters) : PoolStats :=
  {| total := or_else (totalCount p) 0;
     idle := or_else (idleCount p) 0;
     waiting := or_else (waitingCount p) 0 |}.

(** [isExhausted] in the monitor: no idle client and the pool at its
    size. *)
Definition isExhausted (p : PoolCounters) : bool :=
  (idle (getPoolStats p) =? 0)
  && (or_else (options_max p) 10 <=? total (getPoolStats p)).

(** The callback of [startPoolMonitoring]. *)
Definition monitor (p : PoolCounters) (m : t) : t :=
  monitorTick (total (getPoolStats p)) (idle (getPoolStats p))
              (or_else (options_max p) 10) m.

(** The manager after the monitor has fired on each reading in turn. *)
Definition monitorAll (readings : list PoolCounters) (m : t) : t :=
  fold_left (fun acc p => monitor p acc) readings m.

(** The number of readings at the end of the list that all show an
    exhausted pool. *)
Definition exhaustedRun (readings : list PoolCounters) : Z :=
  fold_left (fun n p => if isExhausted p then n + 1 else 0) readings 0.

End ConnectionManager.

(* ================================================================== *)
(** ** persistence/repository.ts *)

Module Repository.
Import Job.

(** What the surroundings contribute to one repository call: the readings
    of the clock made by the breaker, the server's [NOW()], the time zone
    of the session, the server's reading of a JSONB parameter, the
    identifier the server generates for an inserted row, the rows locked
    by other transactions, and a failure of the connection, if any.  The
    connection can fail before the server has done what was asked
    ([fault]), or after it, while the answer is on its way
    ([reply_lost]). *)
Record Env : Type := {
  clock : CircuitBreaker.Clock;
  sql_now : Z;
  time_zone : Sql.TimeZone;
  jsonb_in : string -> Outcome string;
  fresh_uuid : Z;
  locked : list Z;
  fault : option JobGuardError;
  reply_lost : option JobGuardError
}.

Record t : Type := {
  table : Sql.Table;
  circuitBreaker : CircuitBreaker.t;
  connectionManager : option ConnectionManager.t;
  logger : Logger.t
}.

(** What the callback given to the breaker acts on. *)
Definition Db : Type := (Sql.Table * Logger.t)%type.

(** [pool.query] or [client.query]: the statement runs unless the
    connection fails first; an error of the server leaves the table as it
    was.  A statement outside a transaction is committed when it has run:
    if the connection fails before the answer has arrived, the call
    throws although the rows are changed. *)
Definition query (env : Env) (stmt : Sql.Table -> Sql.Result) (tbl : Sql.Table)
    : Sql.Table * Outcome (list JobRecord) :=
  match fault env with
  | Some e => (tbl, Thrown e)
  | None =>
      match stmt tbl with
      | Returned (rows, tbl') =>
          match reply_lost env with
          | Some e => (tbl', Thrown e)
          | None => (tbl', Returned rows)
          end
      | Thrown e => (tbl, Thrown e)
      end
  end.

(** [this.circuitBreaker.execute(async () => ...)] *)
Definition guarded {A : Type} (env : Env) (fn : Db -> Db * Outcome A) (r : t)
    : t * Outcome A :=
  match CircuitBreaker.execute (clock env) fn (circuitBreaker r) (table r, logger r) with
  | (cb, (tbl, lg), out) =>
      ({| table := tbl; circuitBreaker := cb;
          connectionManager := connectionManager r; logger := lg |}, out)
  end.

Definition checkHealth (r : t) : Outcome unit :=
  match connectionManager r with
  | Some m => ConnectionManager.checkPoolHealth m
  | None => Returned tt
  end.

(** [withTransaction]: BEGIN, the callback, COMMIT; an error of the
    callback rolls the table back and is thrown again, and so does a
    connection that fails before the COMMIT has run.  If it fails once the
    COMMIT has run, the call throws although the rows are changed. *)
Definition withTransaction {A : Type} (env : Env)
    (callback : Sql.Table -> Sql.Table * Outcome A) (r : t) : t * Outcome A :=
  guarded env (fun db =>
    match fault env with
    | Some e => (db, Thrown e)
    | None =>
        match callback (fst db) with
        | (tbl', Returned v) =>
            match reply_lost env with
            | Some e => ((tbl', snd db), Thrown e)
            | None => ((tbl', snd db), Returned v)
            end
        | (_, Thrown e) => (db, Thrown e)
        end
    end) r.

(** [JSON.stringify(data)] as a statement parameter. *)
Definition stringify (d : JsValue) : Outcome (option string) :=
  match d with
  | Serializable json => Returned (Some json)
  | Unserializable msg => Thrown (PlainError msg)
  | Undefined => Returned None
  end.

Definition missing_row : JobGuardError :=
  PlainError "Cannot read properties of undefined".

Definition createJob (env : Env) (queueName : string) (queueType : QueueType)
    (jobId : string) (jobName : option string) (d : JsValue) (maxAttempts : Z)
    (r : t) : t * Outcome JobRecord :=
  guarded env (fun db =>
    match stringify d with
    | Thrown e => (db, Thrown e)
    | Returned json =>
        match query env (Sql.INSERT_JOB (jsonb_in env) (sql_now env) (fresh_uuid env) queueName
                           queueType jobId jobName json PENDING 0 maxAttempts) (fst db) with
        | (tbl', Returned (row :: _)) =>
            ((tbl', Logger.log Logger.debug ("Created job: " ++ queueName ++ "/" ++ jobId) (snd db)),
             Returned row)
        | (tbl', Returned []) => ((tbl', snd db), Thrown missing_row)
        | (tbl', Thrown e) => ((tbl', snd db), Thrown e)
        end
    end) r.

(** The shape shared by [updateJobStatus], [updateJobError] and
    [updateHeartbeat]: no row is a warning and [null], otherwise the first
    row returned. *)
Definition first_row_or_null (env : Env) (stmt : Sql.Table -> Sql.Result)
    (missing found : string) (r : t) : t * Outcome (option JobRecord) :=
  guarded env (fun db =>
    match query env stmt (fst db) with
    | (tbl', Returned []) =>
        ((tbl', Logger.log Logger.warn missing (snd db)), Returned None)
    | (tbl', Returned (row :: _)) =>
        ((tbl', Logger.log Logger.debug found (snd db)), Returned (Some row))
    | (tbl', Thrown e) => ((tbl', snd db), Thrown e)
    end) r.

Definition updateJobStatus (env : Env) (queueName : string) (queueType : QueueType)
    (jobId : string) (s : JobStatus) (r : t) : t * Outcome (option JobRecord) :=
  first_row_or_null env
    (Sql.UPDATE_JOB_STATUS (sql_now env) s queueName queueType jobId)
    ("Job not found for status update: " ++ queueName ++ "/" ++ jobId)
    ("Updated job status: " ++ queueName ++ "/" ++ jobId) r.

Definition updateJobError (env : Env) (queueName : string) (queueType : QueueType)
    (jobId : string) (err : string) (r : t) : t * Outcome (option JobRecord) :=
  first_row_or_null env
    (Sql.UPDATE_JOB_ERROR (sql_now env) err queueName queueType jobId)
    ("Job not found for error update: " ++ queueName ++ "/" ++ jobId)
    ("Updated job error: " ++ queueName ++ "/" ++ jobId) r.

Definition updateHeartbeat (env : Env) (queueName : string) (queueType : QueueType)
    (jobId : string) (r : t) : t * Outcome (option JobRecord) :=
  first_row_or_null env
    (Sql.UPDATE_HEARTBEAT (sql_now env) queueName queueType jobId)
    ("Job not found or not processing for heartbeat update: " ++ queueName ++ "/" ++ jobId)
    ("Updated heartbeat: " ++ queueName ++ "/" ++ jobId) r.

(** The shape shared by the methods that return every row of the result. *)
Definition all_rows (env : Env) (stmt : Sql.Table -> Sql.Result) (r : t)
    : t * Outcome (list JobRecord) :=
  guarded env (fun db =>
    match query env stmt (fst db) with
    | (tbl', out) => ((tbl', snd db), out)
    end) r.

Definition getStuckJobs (env : Env) (queueName : string) (stuckThresholdMs batchSize : Z)
    (r : t) : t * Outcome (list JobRecord) :=
  all_rows env (Sql.GET_STUCK_JOBS (sql_now env) (locked env) queueName
                  stuckThresholdMs batchSize) r.

Definition markJobsAsStuck (env : Env) (jobIds : list Z) (r : t)
    : t * Outcome (list JobRecord) :=
  all_rows env (Sql.MARK_AS_STUCK (sql_now env) jobIds) r.

Definition deleteOldJobs (env : Env) (retentionDays : Z) (r : t) : t * Outcome Z :=
  match all_rows env (Sql.DELETE_OLD_JOBS (time_zone env) (sql_now env) retentionDays) r with
  | (r', Returned rows) => (r', Returned (Z.of_nat (List.length rows)))
  | (r', Thrown e) => (r', Thrown e)
  end.

Definition getStatistics (env : Env) (queueName : string) (r : t) : t * Outcome JobStats :=
  guarded env (fun db =>
    match fault env, reply_lost env with
    | Some e, _ | None, Some e => (db, Thrown e)
    | None, None =>
        let n s := Sql.count_status queueName s (fst db) in
        (db, Returned
           {| stats_queueName := queueName;
              stats_pending := n PENDING; stats_processing := n PROCESSING;
              stats_completed := n COMPLETED; stats_failed := n FAILED;
              stats_stuck := n STUCK; stats_dead := n DEAD;
              stats_total := n PENDING + n PROCESSING + n COMPLETED
                             + n FAILED + n STUCK + n DEAD |})
    end) r.

Definition getJob (env : Env) (queueName : string) (queueType : QueueType)
    (jobId : string) (r : t) : t * Outcome (option JobRecord) :=
  guarded env (fun db =>
    match query env (Sql.GET_JOB queueName queueType jobId) (fst db) with
    | (tbl', Returned []) => ((tbl', snd db), Returned None)
    | (tbl', Returned (row :: _)) => ((tbl', snd db), Returned (Some row))
    | (tbl', Thrown e) => ((tbl', snd db), Thrown e)
    end) r.

Definition bulkUpdateStatus (env : Env) (jobIds : list Z) (s : JobStatus) (r : t)
    : t * Outcome (list JobRecord) :=
  match jobIds with
  | [] => (r, Returned [])
  | _ => all_rows env (Sql.BULK_UPDATE_STATUS (sql_now env) s jobIds) r
  end.

Definition bulkMarkDead (env : Env) (jobIds : list Z) (r : t)
    : t * Outcome (list JobRecord) :=
  match jobIds with
  | [] => (r, Returned [])
  | _ => all_rows env (Sql.BULK_MARK_DEAD (sql_now env) jobIds) r
  end.

Record StuckJobs : Type := {
  toReEnqueue : list JobRecord;
  deadJobIds : list Z
}.

(** One turn of the loop that splits the harvested rows. *)
Definition partition_step (acc : StuckJobs) (job : JobRecord) : StuckJobs :=
  if attempts job <? max_attempts job
  then {| toReEnqueue := toReEnqueue acc ++ [job]; deadJobIds := deadJobIds acc |}
  else {| toReEnqueue := toReEnqueue acc; deadJobIds := deadJobIds acc ++ [id job] |}.

Definition partition_stuck (stuckJobs : list JobRecord) : StuckJobs :=
  fold_left partition_step stuckJobs {| toReEnqueue := []; deadJobIds := [] |}.

(** The callback of [getAndMarkStuckJobs], inside the transaction. *)
Definition harvest (env : Env) (queueName : string) (stuckThresholdMs batchSize : Z)
    (tbl : Sql.Table) : Sql.Table * Outcome StuckJobs :=
  match Sql.GET_STUCK_JOBS (sql_now env) (locked env) queueName
          stuckThresholdMs batchSize tbl with
  | Thrown e => (tbl, Thrown e)
  | Returned ([], tbl1) => (tbl1, Returned {| toReEnqueue := []; deadJobIds := [] |})
  | Returned (stuckJobs, tbl1) =>
      match Sql.MARK_AS_STUCK (sql_now env) (map id stuckJobs) tbl1 with
      | Thrown e => (tbl1, Thrown e)
      | Returned (_, tbl2) =>
          let parts := partition_stuck stuckJobs in
          match deadJobIds parts with
          | [] => (tbl2, Returned parts)
          | _ =>
              match Sql.BULK_MARK_DEAD (sql_now env) (deadJobIds parts) tbl2 with
              | Thrown e => (tbl2, Thrown e)
              | Returned (_, tbl3) => (tbl3, Returned parts)
              end
          end
      end
  end.

Definition getAndMarkStuckJobs (env : Env) (queueName : string)
    (stuckThresholdMs batchSize : Z) (r : t) : t * Outcome StuckJobs :=
  match checkHealth r with
  | Thrown e => (r, Thrown e)
  | Returned _ => withTransaction env (harvest env queueName stuckThresholdMs batchSize) r
  end.

(** The table the harvest leaves: the selected rows marked stuck, then
    those of the dead set marked dead. *)
Definition harvested (now : Z) (sel : list JobRecord) (tbl : Sql.Table) : Sql.Table :=
  Sql.update_rows now (Sql.id_in (deadJobIds (partition_stuck sel))) (Sql.set_dead_fields now)
    (Sql.update_rows now (Sql.id_in (map id sel)) (Sql.set_status_only STUCK) tbl).

(** What the harvest guarantees about the rows [selected], the pair
    [found] it returns and the table [tbl'] it commits. *)
Definition partitioned (now : Z) (selected : list JobRecord) (found : StuckJobs)
    (tbl tbl' : Sql.Table) : Prop :=
  toReEnqueue found = filter (fun job => attempts job <? max_attempts job) selected
  /\ deadJobIds found
     = map id (filter (fun job => negb (attempts job <? max_attempts job)) selected)
  /\ (forall job, In job (toReEnqueue found) ->
        In job selected /\ attempts job < max_attempts job)
  /\ (forall i, In i (deadJobIds found) <->
        exists job, In job selected /\ id job = i /\ max_attempts job <= attempts job)
  /\ map id tbl' = map id tbl
  /\ (forall row, In row tbl' -> In (id row) (map id (toReEnqueue found)) ->
        status row = STUCK)
  /\ (forall row, In row tbl' -> In (id row) (deadJobIds found) ->
        status row = DEAD /\ completed_at row = Some now).

(** An operation keeps the terminal rows: whatever row of a table with
    distinct identifiers is terminal is found again, at its place and
    with every field as it was. *)
Definition keeps_terminal (op : t -> t) : Prop :=
  forall r i row,
    NoDup (map id (table r)) ->
    nth_error (table r) i = Some row ->
    isTerminal (status row) = true ->
    nth_error (table (op r)) i = Some row.

(** The attempt bound as an invariant of an operation. *)
Definition keeps_attempt_bound (op : t -> t) : Prop :=
  forall r,
    (forall row, In row (table r) -> attempts row <= max_attempts row) ->
    forall row, In row (table (op r)) -> attempts row <= max_attempts row.

(** The two constraints of the schema on the table as a whole: the
    primary key and the partial unique index. *)
Definition well_formed (tbl : Sql.Table) : Prop :=
  NoDup (map id tbl) /\ Sql.unique_active tbl = true.

(** A statement that leaves the constraints in force whenever it
    succeeds. *)
Definition sound (stmt : Sql.Table -> Sql.Result) : Prop :=
  forall tbl rows tbl',
    well_formed tbl -> stmt tbl = Returned (rows, tbl') -> well_formed tbl'.

Definition keeps_well_formed (op : t -> t) : Prop :=
  forall r, well_formed (table r) -> well_formed (table (op r)).

(** A call that throws leaves every row as it was. *)
Definition rolls_back {A : Type} (op : t -> t * Outcome A) : Prop :=
  forall r, isThrown (snd (op r)) = true -> table (fst (op r)) = table r.

End Repository.

(* ================================================================== *)
(** ** The regular expressions of [sanitizeErrorMessage]

    A backtracking matcher for the fragment the five patterns are written
    in: literals, character classes, greedy bounded repetition of a class,
    concatenation and alternation, with the [i] flag as a parameter. *)

Module Regex.

Local Open Scope list_scope.

Definition JsString : Type := list ascii.

Definition str (s : string) : JsString := list_ascii_of_string s.

Definition code (c : ascii) : N := N_of_ascii c.

Definition between (lo hi : N) (c : ascii) : bool :=
  (lo <=? code c)%N && (code c <=? hi)%N.

(** Canonicalisation under the [i] flag.  None of the characters the
    patterns name is the image of a character outside ASCII. *)
Definition upper (c : ascii) : ascii :=
  if between 97 122 c then ascii_of_N (code c - 32) else c.

Definition lower (c : ascii) : ascii :=
  if between 65 90 c then ascii_of_N (code c + 32) else c.

Inductive ClassItem : Type :=
| Single (c : ascii)
| Range (lo hi : ascii)
| Space.

(** [\s] on Latin-1 code units. *)
Definition is_space (c : ascii) : bool :=
  between 9 13 c || (code c =? 32)%N || (code c =? 160)%N.

Definition item_ok (i : bool) (it : ClassItem) (c : ascii) : bool :=
  match it with
  | Single x => if i then Ascii.eqb (upper c) (upper x) else Ascii.eqb c x
  | Range lo hi =>
      between (code lo) (code hi) c
      || (i && (between (code lo) (code hi) (upper c)
                || between (code lo) (code hi) (lower c)))
  | Space => is_space c
  end.

Inductive Atom : Type :=
| Lit (c : ascii)
| Class (items : list ClassItem)
| NegClass (items : list ClassItem).

Definition atom_ok (i : bool) (a : Atom) (c : ascii) : bool :=
  match a with
  | Lit x => if i then Ascii.eqb (upper c) (upper x) else Ascii.eqb c x
  | Class items => existsb (fun it => item_ok i it c) items
  | NegClass items => negb (existsb (fun it => item_ok i it c) items)
  end.

Inductive t : Type :=
| Eps
| One (a : Atom)
| Rep (a : Atom) (min : nat) (max : option nat)
| Cat (r1 r2 : t)
| Alt (r1 r2 : t).

(** Greedy repetition of a one-character test: take one more character
    first, and give it back if the rest of the pattern then fails. *)
Fixpoint rep (ok : ascii -> bool) (min : nat) (max : option nat) (s : JsString)
    (k : JsString -> option JsString) {struct s} : option JsString :=
  let stop := match min with O => k s | S _ => None end in
  match max with
  | Some O => stop
  | _ =>
      match s with
      | c :: s' =>
          if ok c then
            match rep ok (Nat.pred min) (option_map Nat.pred max) s' k with
            | Some rest => Some rest
            | None => stop
            end
          else stop
      | [] => stop
      end
  end.

(** [run i r s k]: match [r] at the head of [s], then [k] on what is left;
    the result is what is left after the whole match. *)
Fixpoint run (i : bool) (r : t) (s : JsString) (k : JsString -> option JsString)
    : option JsString :=
  match r with
  | Eps => k s
  | One a =>
      match s with
      | c :: s' => if atom_ok i a c then k s' else None
      | [] => None
      end
  | Rep a mn mx => rep (atom_ok i a) mn mx s k
  | Cat r1 r2 => run i r1 s (fun s' => run i r2 s' k)
  | Alt r1 r2 =>
      match run i r1 s k with
      | Some rest => Some rest
      | None => run i r2 s k
      end
  end.

(** The length of the match of [r] at the head of [s], if there is one. *)
Definition exec (i : bool) (r : t) (s : JsString) : option nat :=
  match run i r s (fun rest => Some rest) with
  | Some rest => Some (List.length s - List.length rest)%nat
  | None => None
  end.

(** [s.replace(/r/g, repl)] for a replacement without [$]: scan from the
    left, replace each match and resume after it; [skip] counts the
    characters of the current match still to be passed over. *)
Fixpoint replace_from (i : bool) (r : t) (repl : JsString) (skip : nat)
    (s : JsString) : JsString :=
  match s with
  | [] =>
      match skip, exec i r [] with
      | O, Some _ => repl
      | _, _ => []
      end
  | c :: s' =>
      match skip with
      | S n => replace_from i r repl n s'
      | O =>
          match exec i r s with
          | Some (S n) => repl ++ replace_from i r repl n s'
          | Some O => repl ++ c :: replace_from i r repl O s'
          | None => c :: replace_from i r repl O s'
          end
      end
  end.

Definition replace (i : bool) (r : t) (repl : JsString) (s : JsString) : JsString :=
  replace_from i r repl O s.

(** Does [r] match somewhere in [s]? *)
Fixpoint test (i : bool) (r : t) (s : JsString) : bool :=
  match exec i r s with
  | Some _ => true
  | None => match s with [] => false | _ :: s' => test i r s' end
  end.

(** A literal word. *)
Fixpoint word (w : JsString) : t :=
  match w with
  | [] => Eps
  | [c] => One (Lit c)
  | c :: w' => Cat (One (Lit c)) (word w')
  end.

Definition star (a : Atom) : t := Rep a 0 None.
Definition plus (a : Atom) : t := Rep a 1 None.
Definition opt (a : Atom) : t := Rep a 0 (Some 1%nat).
Definition atLeast (n : nat) (a : Atom) : t := Rep a n None.
Definition exactly (n : nat) (a : Atom) : t := Rep a n (Some n).

Fixpoint seq (rs : list t) : t :=
  match rs with
  | [] => Eps
  | [r] => r
  | r :: rs' => Cat r (seq rs')
  end.

(** The length of the longest prefix whose characters pass [ok]. *)
Fixpoint span (ok : ascii -> bool) (s : JsString) : nat :=
  match s with
  | c :: s' => if ok c then S (span ok s') else O
  | [] => O
  end.

(** The pattern matches at the head of [s]. *)
Definition hit (i : bool) (r : t) (s : JsString) : bool :=
  match exec i r s with Some _ => true | None => false end.

(** A pattern whose matches at the head are told by [hitQ] matches nowhere
    in [s]. *)
Definition clean (hitQ : JsString -> bool) (s : JsString) : Prop :=
  forall n, hitQ (skipn n s) = false.

End Regex.

(* ================================================================== *)
(** ** adapters/base.adapter.ts: [sanitizeErrorMessage] *)

Module Sanitizer.
Import Regex.

Local Open Scope list_scope.

Definition quote : ascii := ascii_of_N 39.
Definition dquote : ascii := ascii_of_N 34.

Definition MAX_ERROR_LENGTH : nat := Z.to_nat 5000.

(** The classes [\s], [=:], single-or-double quote and [a-zA-Z0-9_-]. *)
Definition spaces : Atom := Class [Space].
Definition separator : Atom := Class [Single "="%char; Single ":"%char].
Definition quotes : Atom := Class [Single quote; Single dquote].
Definition token_char : Atom :=
  Class [Range "a"%char "z"%char; Range "A"%char "Z"%char;
         Range "0"%char "9"%char; Single "_"%char; Single "-"%char].

(** [/postgresql:\/\/[^:]+:[^@]+@[^\s]+/gi] *)
Definition postgres_url : Regex.t :=
  seq [ word (str "postgresql://");
        plus (NegClass [Single ":"%char]);
        One (Lit ":"%char);
        plus (NegClass [Single "@"%char]);
        One (Lit "@"%char);
        plus (NegClass [Space]) ].

(** [/(?:password|passwd|pwd)[\s]*[=:][\s]*Q?([^Q\s]+)Q?/gi], where [Q]
    stands for the class of the two quote characters. *)
Definition password_field : Regex.t :=
  seq [ Alt (word (str "password")) (Alt (word (str "passwd")) (word (str "pwd")));
        star spaces; One separator; star spaces; opt quotes;
        plus (NegClass [Single quote; Single dquote; Space]);
        opt quotes ].

(** [/(?:api[_-]?key|token|bearer)[\s]*[=:][\s]*Q?([a-zA-Z0-9_-]{20,})Q?/gi] *)
Definition api_key : Regex.t :=
  seq [ Alt (seq [ word (str "api");
                   opt (Class [Single "_"%char; Single "-"%char]);
                   word (str "key") ])
            (Alt (word (str "token")) (word (str "bearer")));
        star spaces; One separator; star spaces; opt quotes;
        atLeast 20 token_char;
        opt quotes ].

(** [/AKIA[0-9A-Z]{16}/g] *)
Definition aws_key : Regex.t :=
  seq [ word (str "AKIA");
        exactly 16 (Class [Range "0"%char "9"%char; Range "A"%char "Z"%char]) ].

(** [/eyJ[a-zA-Z0-9_-]{10,}\.[a-zA-Z0-9_-]{10,}/g] *)
Definition jwt : Regex.t :=
  seq [ word (str "eyJ");
        atLeast 10 token_char;
        One (Lit "."%char);
        atLeast 10 token_char ].

Definition redact_postgres_url (s : JsString) : JsString :=
  replace true postgres_url (str "postgresql://***:***@***") s.
Definition redact_password (s : JsString) : JsString :=
  replace true password_field (str "password=***") s.
Definition redact_api_key (s : JsString) : JsString :=
  replace true api_key (str "api_key=***") s.
Definition redact_aws_key (s : JsString) : JsString :=
  replace false aws_key (str "AKIA***") s.
Definition redact_jwt (s : JsString) : JsString :=
  replace false jwt (str "jwt.***") s.

(** The five replacements, in the order of the source. *)
Definition redact (s : JsString) : JsString :=
  redact_jwt (redact_aws_key (redact_api_key (redact_password (redact_postgres_url s)))).

Definition truncate (s : JsString) : JsString :=
  if (MAX_ERROR_LENGTH <? List.length s)%nat
  then firstn MAX_ERROR_LENGTH s ++ str "... (truncated)"
  else s.

Definition sanitizeErrorMessage (message : JsString) : JsString :=
  match message with
  | [] => str "Unknown error"
  | _ => truncate (redact message)
  end.

(** Closed forms of the last two patterns, for the proofs: [aws_at] and
    [jwt_at] are shown there to be what the matcher computes for
    [aws_key] and [jwt] at the head of a string. *)

(** [[0-9A-Z]] *)
Definition upper_or_digit (c : ascii) : bool :=
  atom_ok false (Class [Range "0"%char "9"%char; Range "A"%char "Z"%char]) c.

(** The pattern [/AKIA[0-9A-Z]{16}/] matches at the head of [s]. *)
Definition aws_at (s : JsString) : bool :=
  match s with
  | a :: b :: c :: d :: t =>
      Ascii.eqb a "A" && Ascii.eqb b "K" && Ascii.eqb c "I" && Ascii.eqb d "A"
      && (forallb upper_or_digit (firstn 16 t) && (16 <=? List.length t)%nat)
  | _ => false
  end.

(** [[a-zA-Z0-9_-]] *)
Definition tok (c : ascii) : bool := atom_ok false token_char c.

Definition dot : ascii := "."%char.

(** The pattern [/eyJ[a-zA-Z0-9_-]{10,}\.[a-zA-Z0-9_-]{10,}/] matches at
    the head of [s]. *)
Definition jwt_at (s : JsString) : bool :=
  match s with
  | a :: b :: c :: t =>
      Ascii.eqb a "e" && Ascii.eqb b "y" && Ascii.eqb c "J"
      && ((10 <=? span tok t)%nat
          && match skipn (span tok t) t with
             | d :: u => Ascii.eqb d dot && (10 <=? span tok u)%nat
             | [] => false
             end)
  | _ => false
  end.

(** What is left after the match, when there is one. *)
Definition jwt_rest (s : JsString) : JsString :=
  match s with
  | _ :: _ :: _ :: t =>
      match skipn (span tok t) t with
      | _ :: u => skipn (span tok u) u
      | [] => []
      end
  | _ => []
  end.

(** The head of a match: [eyJ], the first run and the dot. *)
Definition jwt_head (r1 : JsString) : JsString :=
  "e"%char :: "y"%char :: "J"%char :: r1 ++ [dot].

End Sanitizer.

(* ================================================================== *)
(** ** The broker, as the adapters consume it

    Bull, BullMQ, Bee-Queue and their Redis store are external: the
    adapters are written against the calls they make on the queue object,
    whatever those do. *)

Module Broker.
Import Job.

Record AddOpts : Type := {
  opt_jobId : option string;
  opt_attempts : option Z
}.

(** The two call shapes of Bull's [add]: the first argument is the name
    when it is a string, the payload otherwise. *)
Inductive AddArgs : Type :=
| Named (name : string) (payload : JsValue) (opts : option AddOpts)
| Unnamed (payload : JsValue) (opts : option AddOpts).

(** A job object of the broker; [job.id] is already a string here
    ([getJobIdAsString]). *)
Record BrokerJob : Type := {
  bj_id : string
}.

Record Api (B : Type) : Type := {
  (** the queue's own [add], bound to the queue *)
  add : AddArgs -> B -> B * Outcome BrokerJob;
  (** [client.eval(script, 1, jobKey, queueName, jobId)] *)
  eval : string -> string -> string -> B -> B * Outcome Z;
  (** [queue.getJob(jobId)], [job.getState()], [job.remove()] *)
  getJob : string -> B -> B * Outcome (option BrokerJob);
  getState : BrokerJob -> B -> B * Outcome string;
  remove : BrokerJob -> B -> B * Outcome unit;
  (** Bee-Queue: the queue's own [createJob] and the job's own [save],
      which yields the job with the identifier it was stored under *)
  createJob : JsValue -> B -> B * BrokerJob;
  save : BrokerJob -> B -> B * Outcome BrokerJob
}.
Arguments add {B}.
Arguments eval {B}.
Arguments getJob {B}.
Arguments getState {B}.
Arguments remove {B}.
Arguments createJob {B}.
Arguments save {B}.

End Broker.

(* ================================================================== *)
(** ** adapters/base.adapter.ts and the three adapters *)

Module Adapter.
Import Job Broker.

Local Open Scope string_scope.

Definition MAX_DATA_SIZE : Z := 1048576.
Definition MAX_NAME_LENGTH : nat := 255.

(** [Buffer.byteLength(s, 'utf8')] for code units below 256. *)
Fixpoint byteLength (s : string) : Z :=
  match s with
  | EmptyString => 0
  | String c s' => (if (N_of_ascii c <? 128)%N then 1 else 2) + byteLength s'
  end.

(** [hay.includes(needle)] *)
Fixpoint includes (needle hay : string) : bool :=
  String.prefix needle hay
  || match hay with
     | EmptyString => false
     | String _ hay' => includes needle hay'
     end.

Definition dquote_string : string := String (ascii_of_N 34) EmptyString.

(** The message of the TypeError that [Buffer.byteLength(undefined)]
    throws. *)
Definition byteLength_of_undefined : string :=
  "The " ++ dquote_string ++ "string" ++ dquote_string
  ++ " argument must be of type string or an instance of Buffer or ArrayBuffer. Received undefined".

(** [validateJobData(jobName, data)] *)
Definition validateJobData (jobName : option string) (d : JsValue) : Outcome unit :=
  let too_long :=
    match jobName with
    | Some n => negb (String.eqb n "") && (MAX_NAME_LENGTH <? String.length n)%nat
    | None => false
    end in
  if too_long then Thrown (PlainError "Job name exceeds 255 characters")
  else
    let unserializable (msg : string) : Outcome unit :=
      if includes "exceeds" msg then Thrown (PlainError msg)
      else Thrown (PlainError ("Job data cannot be serialized to JSON: " ++ msg)) in
    match d with
    | Serializable dataStr =>
        if (MAX_DATA_SIZE <? byteLength dataStr)%Z
        then Thrown (PlainError
               ("Job data exceeds 1048576 bytes (1MB limit). Actual size: "
                ++ NilZero.string_of_int (Z.to_int (byteLength dataStr)) ++ " bytes"))
        else Returned tt
    | Unserializable msg => unserializable msg
    | Undefined => unserializable byteLength_of_undefined
    end.

(** A submission that must not be persisted: the name is longer than 255
    characters, or the payload serialises to more than 1 MiB, or it does
    not serialise. *)
Definition invalid (jobName : option string) (d : JsValue) : Prop :=
  (exists n, jobName = Some n /\ (255 < String.length n)%nat)
  \/ (exists json, d = Serializable json /\ 1048576 < byteLength json)
  \/ (exists msg, d = Unserializable msg)
  \/ d = Undefined.

Definition args_name (args : AddArgs) : option string :=
  match args with Named n _ _ => Some n | Unnamed _ _ => None end.

Definition args_payload (args : AddArgs) : JsValue :=
  match args with Named _ d _ => d | Unnamed d _ => d end.

(** The adapter object: which queue it serves, whether it still holds the
    queue's own submit method, whether the queue's submit is the wrapped
    one, whether the listeners are attached, and [isDisposed]. *)
Record t : Type := {
  queueName : string;
  queueType : QueueType;
  originalAdd : bool;
  wrapped : bool;
  listening : bool;
  isDisposed : bool
}.

Definition constructor (name : string) (ty : QueueType) : t :=
  {| queueName := name; queueType := ty; originalAdd := false;
     wrapped := false; listening := false; isDisposed := false |}.

Section WithBroker.

Variable B : Type.
Variable api : Api B.

(** The two stores an adapter acts on. *)
Record World : Type := {
  repository : Repository.t;
  broker : B
}.

Definition log (l : Logger.Level) (msg : string) (w : World) : World :=
  {| repository :=
       {| Repository.table := Repository.table (repository w);
          Repository.circuitBreaker := Repository.circuitBreaker (repository w);
          Repository.connectionManager := Repository.connectionManager (repository w);
          Repository.logger := Logger.log l msg (Repository.logger (repository w)) |};
     broker := broker w |}.

Definition with_repository (w : World) (r : Repository.t) : World :=
  {| repository := r; broker := broker w |}.

Definition with_broker (w : World) (b : B) : World :=
  {| repository := repository w; broker := b |}.

(** [initialize]: wrap the submit method, attach the listeners.  Bee's
    [wrapAddMethod] keeps the original in a local, not in [originalAdd]. *)
Definition initialize (a : t) (w : World) : t * World :=
  ({| queueName := queueName a; queueType := queueType a;
      originalAdd := match queueType a with bee => originalAdd a | _ => true end;
      wrapped := true; listening := true; isDisposed := isDisposed a |},
   log Logger.info ("Initializing adapter for queue: " ++ queueName a) w).

(** [dispose]: remove the listeners, then [BaseAdapter.dispose], which
    gives the queue's [add] back when [originalAdd] is set. *)
Definition dispose (a : t) (w : World) : t * World :=
  let a1 := {| queueName := queueName a; queueType := queueType a;
               originalAdd := originalAdd a; wrapped := wrapped a;
               listening := false; isDisposed := isDisposed a |} in
  if isDisposed a1 then (a1, w)
  else
    ({| queueName := queueName a1; queueType := queueType a1;
        originalAdd := originalAdd a1;
        wrapped := if originalAdd a1 then false else wrapped a1;
        listening := false; isDisposed := true |},
     log Logger.info ("Disposing adapter for queue: " ++ queueName a) w).

(** [updateHeartbeat(jobId)]: an error of the repository is logged and
    swallowed. *)
Definition updateHeartbeat (env : Repository.Env) (a : t) (jobId : string)
    (w : World) : World :=
  match Repository.updateHeartbeat env (queueName a) (queueType a) jobId (repository w) with
  | (r, Returned _) => with_repository w r
  | (r, Thrown _) =>
      log Logger.error ("Failed to update heartbeat for job " ++ jobId) (with_repository w r)
  end.

(** [maxAttempts || 3] *)
Definition attempts_or_default (maxAttempts : option Z) : Z :=
  match maxAttempts with
  | Some n => if (n =? 0)%Z then 3 else n
  | None => 3
  end.

(** [handleJobCreated]: validate, then persist; whatever is thrown inside
    is logged and not thrown again. *)
Definition handleJobCreated (env : Repository.Env) (a : t) (jobId : string)
    (jobName : option string) (d : JsValue) (maxAttempts : option Z)
    (w : World) : World :=
  match validateJobData jobName d with
  | Thrown _ => log Logger.error ("Failed to persist job " ++ jobId) w
  | Returned _ =>
      match Repository.createJob env (queueName a) (queueType a) jobId jobName d
              (attempts_or_default maxAttempts) (repository w) with
      | (r, Returned _) => with_repository w r
      | (r, Thrown _) =>
          log Logger.error ("Failed to persist job " ++ jobId) (with_repository w r)
      end
  end.

Definition handleJobStarted (env : Repository.Env) (a : t) (jobId : string)
    (w : World) : World :=
  match Repository.updateJobStatus env (queueName a) (queueType a) jobId PROCESSING
          (repository w) with
  | (r, Returned _) => with_repository w r
  | (r, Thrown _) =>
      log Logger.error ("Failed to update job status " ++ jobId) (with_repository w r)
  end.

Definition handleJobCompleted (env : Repository.Env) (a : t) (jobId : string)
    (w : World) : World :=
  match Repository.updateJobStatus env (queueName a) (queueType a) jobId COMPLETED
          (repository w) with
  | (r, Returned _) => with_repository w r
  | (r, Thrown _) =>
      log Logger.error ("Failed to mark job completed " ++ jobId) (with_repository w r)
  end.

Definition handleJobFailed (env : Repository.Env) (a : t) (jobId : string)
    (message : string) (w : World) : World :=
  let sanitizedMessage :=
    string_of_list_ascii (Sanitizer.sanitizeErrorMessage (list_ascii_of_string message)) in
  match Repository.updateJobError env (queueName a) (queueType a) jobId sanitizedMessage
          (repository w) with
  | (r, Returned _) => with_repository w r
  | (r, Thrown _) =>
      log Logger.error ("Failed to mark job failed " ++ jobId) (with_repository w r)
  end.

Definition original_add_missing : JobGuardError :=
  PlainError "Original add method not found".

Definition opts_attempts (o : option AddOpts) : option Z :=
  match o with Some o' => opt_attempts o' | None => None end.

(** The function [BullAdapter.wrapAddMethod] installs as [queue.add]. *)
Definition bull_add (env : Repository.Env) (a : t) (args : AddArgs) (w : World)
    : World * Outcome BrokerJob :=
  let '(jobName, jobData, jobOpts) :=
    match args with
    | Named name d o => (Some name, d, o)
    | Unnamed d o => (None, d, o)
    end in
  if negb (originalAdd a) then (w, Thrown original_add_missing)
  else
    match add api args (broker w) with
    | (b, Thrown e) => (with_broker w b, Thrown e)
    | (b, Returned job) =>
        (handleJobCreated env a (bj_id job) jobName jobData (opts_attempts jobOpts)
           (with_broker w b),
         Returned job)
    end.

(** The function [BullMQAdapter.wrapAddMethod] installs as [queue.add]. *)
Definition bullmq_add (env : Repository.Env) (a : t) (name : string) (d : JsValue)
    (opts : option AddOpts) (w : World) : World * Outcome BrokerJob :=
  if negb (originalAdd a) then (w, Thrown original_add_missing)
  else
    match add api (Named name d opts) (broker w) with
    | (b, Thrown e) => (with_broker w b, Thrown e)
    | (b, Returned job) =>
        (handleJobCreated env a (bj_id job) (Some name) d (opts_attempts opts)
           (with_broker w b),
         Returned job)
    end.

(** The [save] that [BeeAdapter.wrapAddMethod] installs on the job that
    the wrapped [createJob] returns. *)
Definition bee_save (env : Repository.Env) (a : t) (job : BrokerJob) (d : JsValue)
    (w : World) : World * Outcome BrokerJob :=
  match save api job (broker w) with
  | (b, Thrown e) => (with_broker w b, Thrown e)
  | (b, Returned saved) =>
      (handleJobCreated env a (bj_id saved) None d None (with_broker w b), Returned saved)
  end.

(** [atomicRemoveJob]: the script, and when the script cannot be run the
    non-atomic fallback; it never throws. *)
Definition atomicRemoveJob (a : t) (jobId : string) (w : World) : World * bool :=
  let jobKey := "bull:" ++ queueName a ++ ":" ++ jobId in
  match eval api jobKey (queueName a) jobId (broker w) with
  | (b, Returned result) => (with_broker w b, (result =? 1)%Z)
  | (b, Thrown _) =>
      let w1 := log Logger.warn ("Lua script failed for job " ++ jobId
                                 ++ ", falling back to non-atomic:") (with_broker w b) in
      match getJob api jobId (broker w1) with
      | (b1, Returned (Some job)) =>
          match getState api job b1 with
          | (b2, Returned st) =>
              if negb (String.eqb st "completed") && negb (String.eqb st "failed") then
                match remove api job b2 with
                | (b3, Returned _) => (with_broker w1 b3, true)
                | (b3, Thrown _) => (with_broker w1 b3, false)
                end
              else (with_broker w1 b2, false)
          | (b2, Thrown _) => (with_broker w1 b2, false)
          end
      | (b1, _) => (with_broker w1 b1, false)
      end
  end.

Definition truthy (s : option string) : option string :=
  match s with
  | Some n => if String.eqb n "" then None else Some n
  | None => None
  end.

Definition skip_message (jobId : string) : string :=
  "Job " ++ jobId ++ " status changed, skipping re-enqueue".

(** The [catch] around the body of [reEnqueueJob]: log, throw again. *)
Definition rethrow (jobId : string) (res : World * Outcome unit) : World * Outcome unit :=
  match res with
  | (w, Thrown e) => (log Logger.error ("Failed to re-enqueue job " ++ jobId) w, Thrown e)
  | ok => ok
  end.

(** [reEnqueueJob] of the Bull and BullMQ adapters; they differ in the
    call of the queue's own [add]. *)
Definition reEnqueue_with_id (resubmit : JobRecord -> AddArgs)
    (env1 env2 : Repository.Env) (a : t) (jobRecord : JobRecord) (w : World)
    : World * Outcome unit :=
  let jobId := job_id jobRecord in
  let w0 := log Logger.info ("Re-enqueueing stuck job: " ++ jobId) w in
  rethrow jobId
    match Repository.getJob env1 (queueName a) (queueType a) jobId (repository w0) with
    | (r, Thrown e) => (with_repository w0 r, Thrown e)
    | (r, Returned currentJob) =>
        let w1 := with_repository w0 r in
        let proceed :=
          match currentJob with
          | Some cur => status_eqb (status cur) STUCK
          | None => false
          end in
        if negb proceed then (log Logger.info (skip_message jobId) w1, Returned tt)
        else
          match atomicRemoveJob a jobId w1 with
          | (w2, false) =>
              (log Logger.info ("Job " ++ jobId
                 ++ " already processed or doesn't exist, skipping re-enqueue") w2,
               Returned tt)
          | (w2, true) =>
              if negb (originalAdd a) then (w2, Thrown original_add_missing)
              else
                match add api (resubmit jobRecord) (broker w2) with
                | (b, Thrown e) => (with_broker w2 b, Thrown e)
                | (b, Returned _) =>
                    let w3 := with_broker w2 b in
                    match Repository.updateJobStatus env2 (queueName a) (queueType a)
                            jobId PENDING (repository w3) with
                    | (r', Thrown e) => (with_repository w3 r', Thrown e)
                    | (r', Returned _) =>
                        (log Logger.info ("Successfully re-enqueued job: " ++ jobId)
                           (with_repository w3 r'),
                         Returned tt)
                    end
                end
          end
    end.

Definition resubmit_opts (jobRecord : JobRecord) : option AddOpts :=
  Some {| opt_jobId := Some (job_id jobRecord);
          opt_attempts := Some (attempts jobRecord + 1) |}.

Definition bull_resubmit (jobRecord : JobRecord) : AddArgs :=
  match truthy (job_name jobRecord) with
  | Some name => Named name (Serializable (data jobRecord)) (resubmit_opts jobRecord)
  | None => Unnamed (Serializable (data jobRecord)) (resubmit_opts jobRecord)
  end.

Definition bullmq_resubmit (jobRecord : JobRecord) : AddArgs :=
  match truthy (job_name jobRecord) with
  | Some name => Named name (Serializable (data jobRecord)) (resubmit_opts jobRecord)
  | None => Named "default" (Serializable (data jobRecord)) (resubmit_opts jobRecord)
  end.

Definition bull_reEnqueueJob := reEnqueue_with_id bull_resubmit.
Definition bullmq_reEnqueueJob := reEnqueue_with_id bullmq_resubmit.

(** [BeeAdapter.reEnqueueJob]: a new job is created through the queue's
    [createJob], which is the wrapped one once [wrapAddMethod] has run, and
    the old record is marked failed.  [env2] serves the insertion made by
    the wrapped [save], [env3] the final update. *)
Definition bee_reEnqueueJob (env1 env2 env3 : Repository.Env) (a : t)
    (jobRecord : JobRecord) (w : World) : World * Outcome unit :=
  let jobId := job_id jobRecord in
  let w0 := log Logger.info ("Re-enqueueing stuck job: " ++ jobId) w in
  rethrow jobId
    match Repository.getJob env1 (queueName a) (queueType a) jobId (repository w0) with
    | (r, Thrown e) => (with_repository w0 r, Thrown e)
    | (r, Returned currentJob) =>
        let w1 := with_repository w0 r in
        let proceed :=
          match currentJob with
          | Some cur => status_eqb (status cur) STUCK
          | None => false
          end in
        if negb proceed then (log Logger.info (skip_message jobId) w1, Returned tt)
        else
          let '(b, job) := createJob api (Serializable (data jobRecord)) (broker w1) in
          let w2 := with_broker w1 b in
          let saved :=
            if wrapped a then bee_save env2 a job (Serializable (data jobRecord)) w2
            else match save api job (broker w2) with
                 | (b', out) => (with_broker w2 b', out)
                 end in
          match saved with
          | (w3, Thrown e) => (w3, Thrown e)
          | (w3, Returned _) =>
              match Repository.updateJobStatus env3 (queueName a) (queueType a)
                      jobId FAILED (repository w3) with
              | (r', Thrown e) => (with_repository w3 r', Thrown e)
              | (r', Returned _) =>
                  (log Logger.info ("Successfully re-enqueued job: " ++ jobId)
                     (with_repository w3 r'),
                   Returned tt)
              end
          end
    end.

(** [reEnqueueJob], by adapter variant. *)
Definition reEnqueueJob (env1 env2 env3 : Repository.Env) (a : t)
    (jobRecord : JobRecord) (w : World) : World * Outcome unit :=
  match queueType a with
  | bull => bull_reEnqueueJob env1 env3 a jobRecord w
  | bullmq => bullmq_reEnqueueJob env1 env3 a jobRecord w
  | bee => bee_reEnqueueJob env1 env2 env3 a jobRecord w
  end.

End WithBroker.

Arguments repository {B}.
Arguments broker {B}.

End Adapter.

(* ================================================================== *)
(** ** reconciliation/reconciler.ts *)

Module Reconciler.
Import Job.

Local Open Scope string_scope.

(** [ReconciliationConfig]: every key is optional. *)
Record ReconciliationConfig : Type := {
  enabled : option bool;
  intervalMs : option Q;
  stuckThresholdMs : option Z;
  batchSize : option Z;
  adaptiveScheduling : option bool;
  rateLimitPerSecond : option Z;
  useHeartbeat : option bool
}.

(** [Required<ReconciliationConfig>] *)
Record Config : Type := {
  c_enabled : bool;
  c_intervalMs : Q;
  c_stuckThresholdMs : Z;
  c_batchSize : Z;
  c_adaptiveScheduling : bool;
  c_rateLimitPerSecond : Z;
  c_useHeartbeat : bool
}.

(** [x || d] on an optional number: absent and zero both give [d]. *)
Definition or_default (x : option Z) (d : Z) : Z :=
  match x with
  | Some n => if (n =? 0)%Z then d else n
  | None => d
  end.

Definition or_defaultQ (x : option Q) (d : Q) : Q :=
  match x with
  | Some q => if Qeq_bool q 0 then d else q
  | None => d
  end.

(** [x !== false] *)
Definition not_false (x : option bool) : bool :=
  match x with
  | Some false => false
  | _ => true
  end.

Definition MIN_STUCK_THRESHOLD : Z := 60000.
Definition MAX_CONSECUTIVE_FAILURES : Z := 3.

Record t : Type := {
  config : Config;
  scheduler : Scheduler.AdaptiveScheduler;
  intervalHandle : option Z;
  isRunning : bool;
  isStopped : bool;
  consecutiveFailures : Z
}.

Definition constructor (cfg : ReconciliationConfig) : Outcome t :=
  let stuckThresholdMs := or_default (stuckThresholdMs cfg) 300000 in
  if (stuckThresholdMs <? MIN_STUCK_THRESHOLD)%Z then
    Thrown (ReconciliationError
      "stuckThresholdMs must be at least 60000ms (60 seconds). This prevents marking healthy jobs as stuck.")
  else
    let c := {| c_enabled := not_false (enabled cfg);
                c_intervalMs := or_defaultQ (intervalMs cfg) 30000;
                c_stuckThresholdMs := stuckThresholdMs;
                c_batchSize := or_default (batchSize cfg) 100;
                c_adaptiveScheduling := not_false (adaptiveScheduling cfg);
                c_rateLimitPerSecond := or_default (rateLimitPerSecond cfg) 20;
                c_useHeartbeat := not_false (useHeartbeat cfg) |} in
    Returned
      {| config := c;
         scheduler := Scheduler.constructor
                        {| Scheduler.cfg_baseIntervalMs := c_intervalMs c;
                           Scheduler.cfg_adaptiveScheduling := c_adaptiveScheduling c |};
         intervalHandle := None;
         isRunning := false;
         isStopped := false;
         consecutiveFailures := 0 |}.

Definition update (rc : t) (sch : Scheduler.AdaptiveScheduler) (h : option Z)
    (running stopped : bool) (failures : Z) : t :=
  {| config := config rc; scheduler := sch; intervalHandle := h;
     isRunning := running; isStopped := stopped; consecutiveFailures := failures |}.

(** [scheduleNext]: the handle holds the delay of the pending timer. *)
Definition scheduleNext (rc : t) : t :=
  if isStopped rc then rc
  else update rc (scheduler rc) (Some (Scheduler.getCurrentInterval (scheduler rc)))
         (isRunning rc) (isStopped rc) (consecutiveFailures rc).

Definition stop (rc : t) : t :=
  update rc (scheduler rc) None (isRunning rc) true (consecutiveFailures rc).

(** The threshold in effect: [config.stuckThresholdMs || 300000]. *)
Definition effective_threshold (cfg : ReconciliationConfig) : Z :=
  or_default (stuckThresholdMs cfg) 300000.

Section WithBroker.

Variable B : Type.
Variable api : Broker.Api B.
Variable fmul : Q -> Q -> Q.

Definition start (rc : t) (w : Adapter.World B) : t * Adapter.World B :=
  if negb (c_enabled (config rc)) then
    (rc, Adapter.log B Logger.info "Reconciliation is disabled" w)
  else match intervalHandle rc with
  | Some _ => (rc, Adapter.log B Logger.warn "Reconciliation is already running" w)
  | None =>
      (scheduleNext (update rc (scheduler rc) (intervalHandle rc) (isRunning rc) false
                       (consecutiveFailures rc)),
       Adapter.log B Logger.info "Starting reconciliation" w)
  end.

(** The loop over the records to re-enqueue; each turn has its own
    surroundings for the repository calls it makes.  The pause between two
    turns changes no state. *)
Fixpoint reEnqueueAll (envs : list (Repository.Env * Repository.Env * Repository.Env))
    (a : Adapter.t) (jobs : list JobRecord) (w : Adapter.World B)
    (reEnqueuedCount failedCount : Z) : Adapter.World B * Z * Z :=
  match jobs with
  | [] => (w, reEnqueuedCount, failedCount)
  | job :: rest =>
      let '(e1, e2, e3) :=
        match envs with
        | e :: _ => e
        | [] => (* no surroundings supplied: the connection is gone *)
            let e := {| Repository.clock := {| CircuitBreaker.t_prune := 0;
                                               CircuitBreaker.t_check := 0;
                                               CircuitBreaker.t_done := 0 |};
                        Repository.sql_now := 0; Repository.time_zone := Sql.utc;
                        Repository.jsonb_in := fun text => Returned text;
                        Repository.fresh_uuid := 0; Repository.locked := [];
                        Repository.fault := Some (PostgresConnectionError "no connection");
                        Repository.reply_lost := None |}
            in (e, e, e)
        end in
      match Adapter.reEnqueueJob B api e1 e2 e3 a job w with
      | (w', Returned _) =>
          reEnqueueAll (tl envs) a rest w' (reEnqueuedCount + 1) failedCount
      | (w', Thrown _) =>
          reEnqueueAll (tl envs) a rest
            (Adapter.log B Logger.error ("Failed to re-enqueue job " ++ job_id job) w')
            reEnqueuedCount (failedCount + 1)
      end
  end.

(** [run]: one reconciliation cycle. *)
Definition run (env : Repository.Env)
    (envs : list (Repository.Env * Repository.Env * Repository.Env))
    (a : Adapter.t) (rc : t) (w : Adapter.World B)
    : t * Adapter.World B * Outcome unit :=
  if isRunning rc || isStopped rc then (rc, w, Returned tt)
  else if (MAX_CONSECUTIVE_FAILURES <=? consecutiveFailures rc)%Z then
    (scheduleNext rc,
     Adapter.log B Logger.error "Reconciliation paused after 3 consecutive failures." w,
     Returned tt)
  else
    match Repository.getAndMarkStuckJobs env (Adapter.queueName a)
            (c_stuckThresholdMs (config rc)) (c_batchSize (config rc))
            (Adapter.repository w) with
    | (r, Thrown _) =>
        let failures := (consecutiveFailures rc + 1)%Z in
        (scheduleNext (update rc (scheduler rc) (intervalHandle rc) false (isStopped rc)
                         failures),
         Adapter.log B Logger.error "Reconciliation run failed"
           (Adapter.with_repository B w r),
         Thrown (ReconciliationError "Failed to complete reconciliation"))
    | (r, Returned found) =>
        let w1 := Adapter.with_repository B w r in
        let jobsToReEnqueue := Repository.toReEnqueue found in
        let totalStuckJobs :=
          Z.of_nat (List.length jobsToReEnqueue
                    + List.length (Repository.deadJobIds found)) in
        let '(w2, sch) :=
          if (0 <? totalStuckJobs)%Z then
            let '(w', reEnqueuedCount, _) :=
              reEnqueueAll envs a jobsToReEnqueue
                (Adapter.log B Logger.info "Found stuck jobs" w1) 0 0 in
            let successRate :=
              match jobsToReEnqueue with
              | [] => 1%Q
              | _ => (inject_Z reEnqueuedCount
                      / inject_Z (Z.of_nat (List.length jobsToReEnqueue)))%Q
              end in
            (Adapter.log B Logger.info "Reconciliation completed" w',
             Scheduler.recordResult fmul totalStuckJobs successRate (scheduler rc))
          else (w1, Scheduler.recordResult fmul 0 1%Q (scheduler rc)) in
        (scheduleNext (update rc sch (intervalHandle rc) false (isStopped rc) 0),
         w2, Returned tt)
    end.

Definition forceRun (env : Repository.Env)
    (envs : list (Repository.Env * Repository.Env * Repository.Env))
    (a : Adapter.t) (rc : t) (w : Adapter.World B)
    : t * Adapter.World B * Outcome unit :=
  run env envs a
      (update rc (scheduler rc) (intervalHandle rc) (isRunning rc) (isStopped rc) 0)
      (Adapter.log B Logger.info "Forcing immediate reconciliation run" w).

(** A sequence of firings of the timer, each with the surroundings of
    its repository calls. *)
Fixpoint runAll
    (cycles : list (Repository.Env
                    * list (Repository.Env * Repository.Env * Repository.Env)))
    (a : Adapter.t) (rc : t) (w : Adapter.World B) : t * Adapter.World B :=
  match cycles with
  | [] => (rc, w)
  | (env, envs) :: rest =>
      let '(rc', w', _) := run env envs a rc w in
      runAll rest a rc' w'
  end.

End WithBroker.

End Reconciler.

(* ================================================================== *)
(** ** types/queue-types.ts, adapters/detector.ts and jobguard.ts *)

Module JobGuard.
Import Job.

Local Open Scope string_scope.

(** The queue object as the type guards see it: which properties it has. *)
Record Queue : Type := {
  has_add : bool;
  has_process : bool;
  has_name : bool;
  has_on : bool;
  has_createJob : bool;
  name : string;
  redis_db : option string
}.

Definition isBullQueue (q : Queue) : bool :=
  has_add q && has_process q && has_name q && negb (has_createJob q).

Definition isBullMQQueue (q : Queue) : bool :=
  has_add q && has_on q && negb (has_process q) && negb (has_createJob q).

Definition isBeeQueue (q : Queue) : bool := has_createJob q.

Definition detectQueueType (q : Queue) : option QueueType :=
  if isBullMQQueue q then Some bullmq
  else if isBullQueue q then Some bull
  else if isBeeQueue q then Some bee
  else None.

(** The adapters' [queueName] getters; Bee falls back when the queue has
    no name. *)
Definition adapterQueueName (ty : QueueType) (q : Queue) : string :=
  match ty with
  | bee =>
      if String.eqb (name q) "" then
        "bee-queue-" ++ match Adapter.truthy (redis_db q) with
                        | Some db => db
                        | None => "default"
                        end
      else name q
  | _ => name q
  end.

Definition createAdapter (q : Queue) : Outcome Adapter.t :=
  match detectQueueType q with
  | Some ty => Returned (Adapter.constructor (adapterQueueName ty q) ty)
  | None => Thrown (UnsupportedQueueError "unknown")
  end.

Record PersistenceConfig : Type := {
  retentionDays : option Z;
  cleanupEnabled : option bool;
  cleanupIntervalMs : option Z
}.

Record JobGuardConfig : Type := {
  postgres : bool;
  reconciliation : option Reconciler.ReconciliationConfig;
  persistence : option PersistenceConfig
}.

Record t : Type := {
  config : JobGuardConfig;
  adapter : Adapter.t;
  reconciler : option Reconciler.t;
  (** the handle of the cleanup timer: its period and the retention it
      was set up with; [cleanupRunning] falls when it is cleared *)
  cleanupInterval : option (Z * Z);
  cleanupRunning : bool;
  initialized : bool;
  cleanupFailures : Z;
  initializationPromise : option (Outcome unit)
}.

Definition MAX_CONSECUTIVE_FAILURES : Z := 3.

Definition not_initialized : JobGuardError := PlainError "JobGuard is not initialized".

Definition empty_reconciliation : Reconciler.ReconciliationConfig :=
  {| Reconciler.enabled := None; Reconciler.intervalMs := None;
     Reconciler.stuckThresholdMs := None; Reconciler.batchSize := None;
     Reconciler.adaptiveScheduling := None; Reconciler.rateLimitPerSecond := None;
     Reconciler.useHeartbeat := None |}.

Section WithBroker.

Variable B : Type.
Variable api : Broker.Api B.
Variable fmul : Q -> Q -> Q.

Definition World : Type := Adapter.World B.

(** The private constructor.  [tbl] is the content of [jobguard_jobs] the
    pool is connected to and [b] the broker behind the queue object. *)
Definition constructor (queue : option Queue) (cfg : JobGuardConfig)
    (tbl : Sql.Table) (b : B) : Outcome (t * World) :=
  match queue with
  | None => Thrown (PlainError "Queue instance is required")
  | Some q =>
      if negb (postgres cfg) then Thrown (PlainError "PostgreSQL configuration is required")
      else
        match createAdapter q with
        | Thrown e => Thrown e
        | Returned a =>
            Returned
              ({| config := cfg; adapter := a; reconciler := None;
                  cleanupInterval := None; cleanupRunning := false;
                  initialized := false; cleanupFailures := 0;
                  initializationPromise := None |},
               {| Adapter.repository :=
                    {| Repository.table := tbl;
                       Repository.circuitBreaker :=
                         CircuitBreaker.constructor
                           {| CircuitBreaker.cfg_threshold := 5;
                              CircuitBreaker.cfg_timeout := 60000;
                              CircuitBreaker.cfg_name := "jobguard-postgres" |};
                       Repository.connectionManager := Some ConnectionManager.constructor;
                       Repository.logger := [] |};
                  Adapter.broker := b |})
        end
  end.

Definition set (jg : t) (a : Adapter.t) (rc : option Reconciler.t)
    (ci : option (Z * Z)) (running init : bool) (failures : Z)
    (promise : option (Outcome unit)) : t :=
  {| config := config jg; adapter := a; reconciler := rc; cleanupInterval := ci;
     cleanupRunning := running; initialized := init; cleanupFailures := failures;
     initializationPromise := promise |}.

(** [setupCleanup] *)
Definition setupCleanup (p : option PersistenceConfig) (jg : t) : t :=
  let intervalMs :=
    Reconciler.or_default (match p with Some c => cleanupIntervalMs c | None => None end)
      3600000 in
  let days :=
    Reconciler.or_default (match p with Some c => retentionDays c | None => None end) 7 in
  set jg (adapter jg) (reconciler jg) (Some (intervalMs, days)) true (initialized jg)
      (cleanupFailures jg) (initializationPromise jg).

(** [initialize]; [connected] tells whether [testConnection] succeeds. *)
Definition initialize (connected : bool) (jg : t) (w : World) : t * World * Outcome unit :=
  match initializationPromise jg with
  | Some settled => (jg, w, settled)
  | None =>
      let failed (jg' : t) (w' : World) (e : JobGuardError) :=
        (set jg' (adapter jg') (reconciler jg') (cleanupInterval jg') (cleanupRunning jg')
             (initialized jg') (cleanupFailures jg') (Some (Thrown e)),
         Adapter.log B Logger.error "JobGuard initialization failed:" w',
         Thrown e) in
      if negb connected then
        failed jg (Adapter.log B Logger.error "PostgreSQL connection test failed:" w)
               (PostgresConnectionError "Failed to connect to PostgreSQL")
      else
        let w0 := Adapter.log B Logger.info "PostgreSQL connection test successful" w in
        let '(a, w1) := Adapter.initialize B (adapter jg) w0 in
        let jg1 := set jg a (reconciler jg) (cleanupInterval jg) (cleanupRunning jg)
                       (initialized jg) (cleanupFailures jg) None in
        let reconciliationEnabled :=
          Reconciler.not_false
            (match reconciliation (config jg) with
             | Some rcfg => Reconciler.enabled rcfg
             | None => None
             end) in
        let started :=
          if reconciliationEnabled then
            match Reconciler.constructor
                    (match reconciliation (config jg) with
                     | Some rcfg => rcfg
                     | None => empty_reconciliation
                     end) with
            | Thrown e => Thrown e
            | Returned rc =>
                let '(rc', w2) := Reconciler.start B rc w1 in
                Returned (Some rc', w2)
            end
          else Returned (None, w1) in
        match started with
        | Thrown e => failed jg1 w1 e
        | Returned (rc, w2) =>
            let jg2 := set jg1 a rc (cleanupInterval jg1) (cleanupRunning jg1)
                           (initialized jg1) (cleanupFailures jg1) None in
            let cleanup :=
              Reconciler.not_false
                (match persistence (config jg) with
                 | Some p => cleanupEnabled p
                 | None => None
                 end) in
            let jg3 := if cleanup then setupCleanup (persistence (config jg)) jg2 else jg2 in
            (set jg3 (adapter jg3) (reconciler jg3) (cleanupInterval jg3)
                 (cleanupRunning jg3) true (cleanupFailures jg3) (Some (Returned tt)),
             Adapter.log B Logger.info "JobGuard initialized successfully" w2,
             Returned tt)
        end
  end.

(** [JobGuard.create] *)
Definition create (queue : option Queue) (cfg : JobGuardConfig) (tbl : Sql.Table)
    (b : B) (connected : bool) : Outcome (t * World) :=
  match constructor queue cfg tbl b with
  | Thrown e => Thrown e
  | Returned (jg, w) =>
      match initialize connected jg w with
      | (jg', w', Returned _) => Returned (jg', w')
      | (_, _, Thrown e) => Thrown e
      end
  end.

(** One firing of the cleanup timer. *)
Definition cleanupTick (env : Repository.Env) (jg : t) (w : World) : t * World :=
  if negb (cleanupRunning jg) then (jg, w)
  else if (MAX_CONSECUTIVE_FAILURES <=? cleanupFailures jg)%Z then
    (jg, Adapter.log B Logger.error "Cleanup disabled after 3 consecutive failures." w)
  else
    let days := match cleanupInterval jg with Some (_, d) => d | None => 7%Z end in
    match Repository.deleteOldJobs env days (Adapter.repository w) with
    | (r, Returned deleted) =>
        let w1 := Adapter.with_repository B w r in
        (set jg (adapter jg) (reconciler jg) (cleanupInterval jg) (cleanupRunning jg)
             (initialized jg) 0 (initializationPromise jg),
         if (0 <? deleted)%Z then Adapter.log B Logger.info "Cleaned up old jobs" w1 else w1)
    | (r, Thrown _) =>
        (set jg (adapter jg) (reconciler jg) (cleanupInterval jg) (cleanupRunning jg)
             (initialized jg) (cleanupFailures jg + 1) (initializationPromise jg),
         Adapter.log B Logger.error "Cleanup failed" (Adapter.with_repository B w r))
    end.

Definition closePool (w : World) : World :=
  let w0 := Adapter.log B Logger.info "Closing PostgreSQL connection pool" w in
  let r := Adapter.repository w0 in
  Adapter.with_repository B w0
    {| Repository.table := Repository.table r;
       Repository.circuitBreaker := Repository.circuitBreaker r;
       Repository.connectionManager :=
         option_map ConnectionManager.close (Repository.connectionManager r);
       Repository.logger := Repository.logger r |}.

Definition shutdown (jg : t) (w : World) : t * World * Outcome unit :=
  if negb (initialized jg) then
    (jg, Adapter.log B Logger.warn "JobGuard is not initialized, nothing to shutdown" w,
     Returned tt)
  else
    let w0 := Adapter.log B Logger.info "Shutting down JobGuard" w in
    let rc := option_map Reconciler.stop (reconciler jg) in
    let w1 := match reconciler jg with
              | Some _ => Adapter.log B Logger.info "Stopped reconciliation" w0
              | None => w0
              end in
    let '(a, w2) := Adapter.dispose B (adapter jg) w1 in
    let w3 := closePool w2 in
    (set jg a rc (cleanupInterval jg) false false (cleanupFailures jg)
         (initializationPromise jg),
     Adapter.log B Logger.info "JobGuard shutdown complete" w3,
     Returned tt).

Definition getStats (env : Repository.Env) (jg : t) (w : World)
    : t * World * Outcome JobStats :=
  if negb (initialized jg) then (jg, w, Thrown not_initialized)
  else
    match Repository.getStatistics env (Adapter.queueName (adapter jg))
            (Adapter.repository w) with
    | (r, out) => (jg, Adapter.with_repository B w r, out)
    end.

Definition forceReconciliation (env : Repository.Env)
    (envs : list (Repository.Env * Repository.Env * Repository.Env))
    (jg : t) (w : World) : t * World * Outcome unit :=
  if negb (initialized jg) then (jg, w, Thrown not_initialized)
  else
    match reconciler jg with
    | None => (jg, w, Thrown (PlainError "Reconciliation is not enabled"))
    | Some rc =>
        match Reconciler.forceRun B api fmul env envs (adapter jg) rc w with
        | (rc', w', out) =>
            (set jg (adapter jg) (Some rc') (cleanupInterval jg) (cleanupRunning jg)
                 (initialized jg) (cleanupFailures jg) (initializationPromise jg),
             w', out)
        end
    end.

Definition updateHeartbeat (env : Repository.Env) (jobId : string) (jg : t) (w : World)
    : t * World * Outcome unit :=
  if negb (initialized jg) then (jg, w, Thrown not_initialized)
  else (jg, Adapter.updateHeartbeat B env (adapter jg) jobId w, Returned tt).

Definition isInitialized (jg : t) : bool := initialized jg.

(** [waitReady] *)
Definition waitReady (jg : t) : Outcome unit :=
  match initializationPromise jg with
  | Some settled => settled
  | None =>
      Thrown (PlainError
        "JobGuard not initializing - use JobGuard.create() or call initialize")
  end.

Definition getQueueName (jg : t) : string := Adapter.queueName (adapter jg).

Definition getQueueType (jg : t) : QueueType := Adapter.queueType (adapter jg).

(** A sequence of firings of the cleanup timer. *)
Definition cleanupTicks (envs : list Repository.Env) (jg : t) (w : World) : t * World :=
  fold_left (fun acc env => cleanupTick env (fst acc) (snd acc)) envs (jg, w).

End WithBroker.

End JobGuard.

(* ================================================================== *)
(** ** A broker held in memory

    The simplest broker the adapters can be run against: a list of jobs,
    identifiers taken from the options or counted, a removal script that
    always runs. *)

Module MemoryBroker.
Import Job Broker.

Local Open Scope string_scope.

Record Entry : Type := {
  e_id : string;
  e_name : option string;
  e_payload : JsValue;
  e_finished : bool
}.

Definition B : Type := list Entry.

Definition next_id (b : B) : string :=
  NilZero.string_of_int (Z.to_int (Z.of_nat (List.length b) + 1)).

Definition mem_add (args : AddArgs) (b : B) : B * Outcome BrokerJob :=
  let '(n, d, o) :=
    match args with
    | Named n d o => (Some n, d, o)
    | Unnamed d o => (None, d, o)
    end in
  let jid :=
    match o with
    | Some {| opt_jobId := Some j |} => j
    | _ => next_id b
    end in
  ((b ++ [ {| e_id := jid; e_name := n; e_payload := d; e_finished := false |} ])%list,
   Returned {| bj_id := jid |}).

Definition pending_with (jid : string) (e : Entry) : bool :=
  String.eqb (e_id e) jid && negb (e_finished e).

Definition mem_eval (jobKey queueName jid : string) (b : B) : B * Outcome Z :=
  if existsb (pending_with jid) b
  then (filter (fun e => negb (pending_with jid e)) b, Returned 1%Z)
  else (b, Returned 0%Z).

Definition mem_getJob (jid : string) (b : B) : B * Outcome (option BrokerJob) :=
  (b, Returned (if existsb (fun e => String.eqb (e_id e) jid) b
                then Some {| bj_id := jid |} else None)).

Definition mem_getState (job : BrokerJob) (b : B) : B * Outcome string :=
  (b, Returned (if existsb (pending_with (bj_id job)) b then "waiting" else "completed")).

Definition mem_remove (job : BrokerJob) (b : B) : B * Outcome unit :=
  (filter (fun e => negb (String.eqb (e_id e) (bj_id job))) b, Returned tt).

Definition mem_createJob (d : JsValue) (b : B) : B * BrokerJob :=
  (b, {| bj_id := "" |}).

Definition mem_save (job : BrokerJob) (b : B) : B * Outcome BrokerJob :=
  ((b ++ [ {| e_id := next_id b; e_name := None; e_payload := Undefined;
              e_finished := false |} ])%list,
   Returned {| bj_id := next_id b |}).

Definition api : Api B :=
  {| add := mem_add; eval := mem_eval; getJob := mem_getJob;
     getState := mem_getState; remove := mem_remove;
     createJob := mem_createJob; save := mem_save |}.

End MemoryBroker.

(* ================================================================== *)
(** ** Sample data: a queue with five jobs and an attached Bull adapter *)

Module Sample.
Import Job.

Local Open Scope string_scope.

Definition now : Z := 1700000000000.

Definition clock : CircuitBreaker.Clock :=
  {| CircuitBreaker.t_prune := now; CircuitBreaker.t_check := now;
     CircuitBreaker.t_done := now + 5 |}.

(** The sample documents are in the form in which the server prints
    them, so that it stores them as they are sent. *)
Definition jsonb (text : string) : Outcome string := Returned text.

Definition env : Repository.Env :=
  {| Repository.clock := clock; Repository.sql_now := now;
     Repository.time_zone := Sql.utc; Repository.jsonb_in := jsonb;
     Repository.fresh_uuid := 100; Repository.locked := [];
     Repository.fault := None; Repository.reply_lost := None |}.

Definition row (i : Z) (jid : string) (st : JobStatus) (att maxAtt : Z)
    (updated : Z) (heartbeat completed : option Z) : JobRecord :=
  {| id := i; queue_name := "mail"; queue_type := bull; job_id := jid;
     job_name := Some "send"; data := "{}"; status := st; attempts := att;
     max_attempts := maxAtt; error_message := None;
     created_at := now - 900000; updated_at := updated;
     started_at := Some (now - 800000); completed_at := completed;
     last_heartbeat := heartbeat |}.

Definition stale : JobRecord := row 1 "j1" PROCESSING 1 3 (now - 400000) None None.
Definition exhausted : JobRecord :=
  row 2 "j2" PROCESSING 3 3 (now - 100) (Some (now - 500000)) None.
Definition live : JobRecord := row 3 "j3" PROCESSING 0 3 (now - 100) (Some (now - 1000)) None.
Definition done : JobRecord :=
  row 4 "j4" COMPLETED 0 3 (now - 700000) None (Some (now - 700000)).
Definition buried : JobRecord := row 5 "j5" DEAD 3 3 (now - 600000) None (Some (now - 600000)).

(** Two stale rows in process, one of them out of attempts; a live row in
    process; a completed row and a dead one. *)
Definition table : Sql.Table := [stale; exhausted; live; done; buried].

Definition repository : Repository.t :=
  {| Repository.table := table;
     Repository.circuitBreaker :=
       CircuitBreaker.constructor
         {| CircuitBreaker.cfg_threshold := 5; CircuitBreaker.cfg_timeout := 60000;
            CircuitBreaker.cfg_name := "jobguard-postgres" |};
     Repository.connectionManager := Some ConnectionManager.constructor;
     Repository.logger := [] |}.

Definition bullAdapter : Adapter.t :=
  {| Adapter.queueName := "mail"; Adapter.queueType := bull;
     Adapter.originalAdd := true; Adapter.wrapped := true;
     Adapter.listening := true; Adapter.isDisposed := false |}.

Definition world : Adapter.World MemoryBroker.B :=
  {| Adapter.repository := repository; Adapter.broker := [] |}.

(** A job name of 256 characters. *)
Definition longName : string := string_of_list_ascii (repeat "a"%char 256).

Definition tick (t : Z) : CircuitBreaker.Clock :=
  {| CircuitBreaker.t_prune := t; CircuitBreaker.t_check := t;
     CircuitBreaker.t_done := t |}.

(** A Bull queue as the detector sees it, and the smallest configuration. *)
Definition bullQueue : JobGuard.Queue :=
  {| JobGuard.has_add := true; JobGuard.has_process := true; JobGuard.has_name := true; JobGuard.has_on := true;
     JobGuard.has_createJob := false; JobGuard.name := "mail"; JobGuard.redis_db := None |}.

Definition plainConfig : JobGuard.JobGuardConfig :=
  {| JobGuard.postgres := true; JobGuard.reconciliation := None; JobGuard.persistence := None |}.

(** A reading of a pool of ten clients, all of them in use. *)
Definition reading : ConnectionManager.PoolCounters :=
  {| ConnectionManager.totalCount := Some 10; ConnectionManager.idleCount := None;
     ConnectionManager.waitingCount := Some 4; ConnectionManager.options_max := None |}.

(** The sample repository after three such readings. *)
Definition crowded : Repository.t :=
  {| Repository.table := table;
     Repository.circuitBreaker := Repository.circuitBreaker repository;
     Repository.connectionManager :=
       Some (ConnectionManager.monitorAll (([] ++ [reading; reading; reading])%list)
               ConnectionManager.constructor);
     Repository.logger := [] |}.

(** Surroundings in which the connection fails before the statement
    runs, surroundings in which it fails once the statement has run, and
    surroundings in which another transaction holds the first row locked. *)
Definition offline : Repository.Env :=
  {| Repository.clock := clock; Repository.sql_now := now;
     Repository.time_zone := Sql.utc; Repository.jsonb_in := jsonb;
     Repository.fresh_uuid := 100; Repository.locked := [];
     Repository.fault :=
       Some (PostgresConnectionError "Connection terminated unexpectedly");
     Repository.reply_lost := None |}.

Definition cut : Repository.Env :=
  {| Repository.clock := clock; Repository.sql_now := now;
     Repository.time_zone := Sql.utc; Repository.jsonb_in := jsonb;
     Repository.fresh_uuid := 100; Repository.locked := [];
     Repository.fault := None;
     Repository.reply_lost :=
       Some (PostgresConnectionError "Connection terminated unexpectedly") |}.

Definition busy : Repository.Env :=
  {| Repository.clock := clock; Repository.sql_now := now;
     Repository.time_zone := Sql.utc; Repository.jsonb_in := jsonb;
     Repository.fresh_uuid := 100; Repository.locked := [1];
     Repository.fault := None; Repository.reply_lost := None |}.

(** The row a first submission of job [j9] creates, and the first row
    as a second submission of job [j1] rewrites it. *)
Definition created : JobRecord :=
  {| id := 100; queue_name := "mail"; queue_type := bull; job_id := "j9";
     job_name := Some "send"; data := "{}"; status := PENDING; attempts := 0;
     max_attempts := 3; error_message := None; created_at := now;
     updated_at := now; started_at := None; completed_at := None;
     last_heartbeat := None |}.

Definition resubmitted : JobRecord :=
  {| id := 1; queue_name := "mail"; queue_type := bull; job_id := "j1";
     job_name := Some "send"; data := "[1]"; status := PENDING; attempts := 0;
     max_attempts := 3; error_message := None; created_at := now - 900000;
     updated_at := now; started_at := Some (now - 800000);
     completed_at := None; last_heartbeat := None |}.

(** The job id of the completed row, submitted again. *)
Definition again : JobRecord := row 6 "j4" PENDING 0 3 (now - 50) None None.

Definition reused : Repository.t :=
  {| Repository.table := (table ++ [again])%list;
     Repository.circuitBreaker := Repository.circuitBreaker repository;
     Repository.connectionManager := None;
     Repository.logger := [] |}.

(** A job name of 120 characters. *)
Definition mediumName : string := string_of_list_ascii (repeat "a"%char 120).

(** The sample after a harvest: the first row is stuck, the second dead. *)
Definition harvestedWorld : Adapter.World MemoryBroker.B :=
  {| Adapter.repository :=
       fst (Repository.getAndMarkStuckJobs env "mail" 300000 100 repository);
     Adapter.broker := [] |}.

Definition stuckRow : JobRecord := row 1 "j1" STUCK 1 3 now None None.

(** A queue whose only job in process has used up its attempts. *)
Definition spentWorld : Adapter.World MemoryBroker.B :=
  {| Adapter.repository :=
       {| Repository.table := [exhausted; done];
          Repository.circuitBreaker := Repository.circuitBreaker repository;
          Repository.connectionManager := None;
          Repository.logger := [] |};
     Adapter.broker := [] |}.

(** A started reconciler with the default configuration and a given
    count of consecutive failures. *)
Definition reconcilerWith (failures : Z) : Reconciler.t :=
  {| Reconciler.config :=
       {| Reconciler.c_enabled := true; Reconciler.c_intervalMs := 30000%Q;
          Reconciler.c_stuckThresholdMs := 300000; Reconciler.c_batchSize := 100;
          Reconciler.c_adaptiveScheduling := true; Reconciler.c_rateLimitPerSecond := 20;
          Reconciler.c_useHeartbeat := true |};
     Reconciler.scheduler :=
       Scheduler.constructor {| Scheduler.cfg_baseIntervalMs := 30000%Q;
                                Scheduler.cfg_adaptiveScheduling := true |};
     Reconciler.intervalHandle := Some 30000;
     Reconciler.isRunning := false;
     Reconciler.isStopped := false;
     Reconciler.consecutiveFailures := failures |}.

(** A configuration whose stuck threshold is one second. *)
Definition hastyConfig : JobGuard.JobGuardConfig :=
  {| JobGuard.postgres := true;
     JobGuard.reconciliation :=
       Some {| Reconciler.enabled := None; Reconciler.intervalMs := None;
               Reconciler.stuckThresholdMs := Some 1000; Reconciler.batchSize := None;
               Reconciler.adaptiveScheduling := None; Reconciler.rateLimitPerSecond := None;
               Reconciler.useHeartbeat := None |};
     JobGuard.persistence := None |}.

(** A coordinator as its constructor leaves it, with a cleanup timer and
    a given count of failed cleanups. *)
Definition guardWith (cfg : JobGuard.JobGuardConfig) (failures : Z) : JobGuard.t :=
  {| JobGuard.config := cfg;
     JobGuard.adapter := Adapter.constructor "mail" bull;
     JobGuard.reconciler := None;
     JobGuard.cleanupInterval := Some (3600000, 7);
     JobGuard.cleanupRunning := true;
     JobGuard.initialized := false;
     JobGuard.cleanupFailures := failures;
     JobGuard.initializationPromise := None |}.

End Sample.

(* ================================================================== *)
(** * Properties *)

(* ================================================================== *)
(** ** The adaptive scheduler stays within its bounds *)

Module SchedulerFacts.
Import Scheduler.

Local Open Scope Q_scope.

Lemma Math_max_l a b : a <= Math_max a b.
Proof.
  unfold Math_max. destruct (Qle_bool a b) eqn:E.
  - now apply Qle_bool_iff.
  - apply Qle_refl.
Qed.

Lemma Math_max_r a b : b <= Math_max a b.
Proof.
  unfold Math_max. destruct (Qle_bool a b) eqn:E.
  - apply Qle_refl.
  - apply Qlt_le_weak, Qnot_le_lt. intro H. apply Qle_bool_iff in H. congruence.
Qed.

Lemma Math_max_lub a b c : a <= c -> b <= c -> Math_max a b <= c.
Proof. unfold Math_max. now destruct (Qle_bool a b). Qed.

Lemma Math_min_r a b : Math_min a b <= b.
Proof.
  unfold Math_min. destruct (Qle_bool a b) eqn:E.
  - now apply Qle_bool_iff.
  - apply Qle_refl.
Qed.

Lemma Math_min_glb a b c : c <= a -> c <= b -> c <= Math_min a b.
Proof. unfold Math_min. now destruct (Qle_bool a b). Qed.

Section Rounded.

Variable fmul : Q -> Q -> Q.
Hypothesis fmul_grows : forall c, 0 <= c -> c <= fmul c (3 # 2).
Hypothesis fmul_shrinks : forall c, 0 <= c -> fmul c (8 # 10) <= c.

Lemma back_off_ordered s :
  ordered s ->
  ordered (set_current s (Math_min (fmul (currentIntervalMs s) (3 # 2)) (maxIntervalMs s))).
Proof.
  intros (Hmin & Hlo & Hhi). repeat split; cbn.
  - exact Hmin.
  - apply Math_min_glb.
    + eapply Qle_trans; [exact Hlo|]. apply fmul_grows. eapply Qle_trans; eauto.
    + eapply Qle_trans; eauto.
  - apply Math_min_r.
Qed.

Lemma speed_up_ordered s :
  ordered s ->
  ordered (set_current s (Math_max (fmul (currentIntervalMs s) (8 # 10)) (minIntervalMs s))).
Proof.
  intros (Hmin & Hlo & Hhi). repeat split; cbn.
  - exact Hmin.
  - apply Math_max_r.
  - apply Math_max_lub.
    + eapply Qle_trans; [|exact Hhi]. apply fmul_shrinks. eapply Qle_trans; eauto.
    + eapply Qle_trans; eauto.
Qed.

Lemma set_empty_ordered s n : ordered s -> ordered (set_empty s n).
Proof. now intros (Hmin & Hlo & Hhi). Qed.

Lemma recordResult_ordered found rate s :
  ordered s -> ordered (recordResult fmul found rate s).
Proof.
  intro H. unfold recordResult.
  destruct (negb (adaptiveScheduling s)); [exact H|].
  destruct (negb (Qle_bool (8 # 10) rate)); [now apply back_off_ordered|].
  destruct (found =? 0)%Z.
  - destruct (3 <=? _)%Z.
    + apply (back_off_ordered (set_empty s _)). now apply set_empty_ordered.
    + now apply set_empty_ordered.
  - apply (speed_up_ordered (set_empty s _)). now apply set_empty_ordered.
Qed.

Lemma recordResult_bounds base found rate s :
  bounds_of base s -> bounds_of base (recordResult fmul found rate s).
Proof.
  intro H. unfold recordResult.
  destruct (negb (adaptiveScheduling s)); [exact H|].
  destruct (negb (Qle_bool (8 # 10) rate)); [exact H|].
  destruct (found =? 0)%Z; [destruct (3 <=? _)%Z|]; exact H.
Qed.

Lemma recordResults_ordered base inputs s :
  ordered s /\ bounds_of base s ->
  ordered (recordResults fmul inputs s) /\ bounds_of base (recordResults fmul inputs s).
Proof.
  unfold recordResults. revert s.
  induction inputs as [|i inputs IH]; intros s [H Hb]; cbn; [now split|].
  apply IH. split; [now apply recordResult_ordered|now apply recordResult_bounds].
Qed.

End Rounded.

Lemma quarter_le b : 0 <= b -> b / 4 <= b.
Proof.
  destruct b as [n d]. unfold Qle, Qdiv, Qmult, Qinv; cbn. intro H. nia.
Qed.

Lemma le_fourfold b : 0 <= b -> b <= b * 4.
Proof.
  destruct b as [n d]. unfold Qle, Qmult; cbn. intro H. nia.
Qed.

Lemma constructor_ordered config :
  5000 <= cfg_baseIntervalMs config -> ordered (constructor config).
Proof.
  intro H. unfold ordered, within_bounds; cbn. repeat split.
  - eapply Qle_trans; [|apply Math_max_l]. discriminate.
  - apply Math_max_lub; [exact H|]. apply quarter_le.
    eapply Qle_trans; [|exact H]. discriminate.
  - apply le_fourfold. eapply Qle_trans; [|exact H]. discriminate.
Qed.

(** The exact product has the two properties asked of the rounded one. *)
Lemma Qmult_grows c : 0 <= c -> c <= c * (3 # 2).
Proof. destruct c as [n d]. unfold Qle, Qmult; cbn. intro H. nia. Qed.

Lemma Qmult_shrinks c : 0 <= c -> c * (8 # 10) <= c.
Proof. destruct c as [n d]. unfold Qle, Qmult; cbn. intro H. nia. Qed.

(** C6, as stated, fails: with a base interval of one second the lower
    bound is [max(5000, 250) = 5000] and the upper bound 4000, while the
    interval the constructor starts from is the base itself, 1000 ms. *)
Lemma initial_interval_below_minimum :
  ~ within_bounds
      (recordResults Qmult []
         (constructor {| cfg_baseIntervalMs := 1000; cfg_adaptiveScheduling := true |})).
Proof. intros [H _]. vm_compute in H. now apply H. Qed.

(** C6 (amended).  For every base interval of at least 5000 ms, whatever
    the rounding of the two products, and every sequence of
    [recordResult(foundStuckJobs, successRate)] inputs (the empty sequence
    gives the initial interval), the current interval lies within
    [[min, max]], where [min = max(5000, base/4)] and [max = base * 4]. *)
Theorem scheduler_bounds (fmul : Q -> Q -> Q) config inputs :
  (forall c, 0 <= c -> c <= fmul c (3 # 2)) ->
  (forall c, 0 <= c -> fmul c (8 # 10) <= c) ->
  5000 <= cfg_baseIntervalMs config ->
  let s := recordResults fmul inputs (constructor config) in
  minIntervalMs s = Math_max 5000 (cfg_baseIntervalMs config / 4)
  /\ maxIntervalMs s = cfg_baseIntervalMs config * 4
  /\ minIntervalMs s <= currentIntervalMs s
  /\ currentIntervalMs s <= maxIntervalMs s.
Proof.
  intros Hg Hs Hbase s.
  destruct (recordResults_ordered fmul Hg Hs (cfg_baseIntervalMs config) inputs
              (constructor config)) as ((_ & Hlo & Hhi) & Hmin & Hmax).
  - split; [now apply constructor_ordered|]. now split.
  - now repeat split.
Qed.

Lemma scheduler_bounds_witness :
  let s := recordResults Qmult [(0%Z, 1); (0%Z, 1); (0%Z, 1); (7%Z, 1 # 2); (2%Z, 1)]
             (constructor {| cfg_baseIntervalMs := 30000; cfg_adaptiveScheduling := true |}) in
  minIntervalMs s = Math_max 5000 (30000 / 4)
  /\ maxIntervalMs s = 30000 * 4
  /\ minIntervalMs s <= currentIntervalMs s
  /\ currentIntervalMs s <= maxIntervalMs s.
Proof.
  apply (scheduler_bounds Qmult
           {| cfg_baseIntervalMs := 30000; cfg_adaptiveScheduling := true |}).
  - exact Qmult_grows.
  - exact Qmult_shrinks.
  - vm_compute. discriminate.
Defined.

End SchedulerFacts.

(* ================================================================== *)
(** ** The circuit breaker opens, rejects and closes again *)

Module CircuitBreakerFacts.
Import CircuitBreaker.

Lemma pruneOldCalls_state now cb : state (pruneOldCalls now cb) = state cb.
Proof. reflexivity. Qed.

(** What [execute] does when the breaker is open and the recovery time
    has not passed. *)
Lemma execute_rejects {W A} clk (fn : W -> W * Outcome A) cb w :
  state cb = OPEN ->
  t_check clk - lastFailureTime cb <= timeout cb ->
  execute clk fn cb w
  = (pruneOldCalls (t_prune clk) cb, w, Thrown (CircuitBreakerOpenError (name cb))).
Proof.
  intros Hst Hw. unfold execute. cbn. rewrite Hst.
  destruct (Z.ltb_spec (timeout cb) (t_check clk - lastFailureTime cb)); [lia|reflexivity].
Qed.

Lemma execute_runs {W A} clk (fn : W -> W * Outcome A) cb w :
  (state cb = OPEN -> timeout cb < t_check clk - lastFailureTime cb) ->
  execute clk fn cb w
  = match fn w with
    | (w', Returned v) => (onSuccess (t_done clk) (entered clk cb), w', Returned v)
    | (w', Thrown e) => (onFailure (t_done clk) (entered clk cb), w', Thrown e)
    end.
Proof.
  intros Hw. unfold execute, entered. cbn.
  destruct (state cb) eqn:Hst; try reflexivity.
  specialize (Hw eq_refl).
  destruct (Z.ltb_spec (timeout cb) (t_check clk - lastFailureTime cb)); [reflexivity|lia].
Qed.

Lemma execute_cases {W A} clk (fn : W -> W * Outcome A) cb w :
  (state cb = OPEN /\ t_check clk - lastFailureTime cb <= timeout cb
   /\ execute clk fn cb w
      = (pruneOldCalls (t_prune clk) cb, w, Thrown (CircuitBreakerOpenError (name cb))))
  \/ execute clk fn cb w
     = match fn w with
       | (w', Returned v) => (onSuccess (t_done clk) (entered clk cb), w', Returned v)
       | (w', Thrown e) => (onFailure (t_done clk) (entered clk cb), w', Thrown e)
       end.
Proof.
  destruct (state cb) eqn:Hst.
  - right. apply execute_runs. congruence.
  - destruct (Z.ltb_spec (timeout cb) (t_check clk - lastFailureTime cb)).
    + right. now apply execute_runs.
    + left. repeat split; trivial. now apply execute_rejects.
  - right. apply execute_runs. congruence.
Qed.

(** A result can only come from the operation itself. *)
Lemma execute_returned {W A} clk (fn : W -> W * Outcome A) cb w cb' w' v :
  execute clk fn cb w = (cb', w', Returned v) -> fn w = (w', Returned v).
Proof.
  destruct (execute_cases clk fn cb w) as [(_ & _ & E)|E]; rewrite E.
  - discriminate.
  - destruct (fn w) as [w1 [v1|e1]]; congruence.
Qed.

(** The state of the world after [execute] is the one before, or the one
    the operation leaves. *)
Lemma execute_world {W A} clk (fn : W -> W * Outcome A) cb w :
  snd (fst (execute clk fn cb w)) = w \/ snd (fst (execute clk fn cb w)) = fst (fn w).
Proof.
  destruct (execute_cases clk fn cb w) as [(_ & _ & E)|E]; rewrite E.
  - now left.
  - right. now destruct (fn w) as [w1 [v1|e1]].
Qed.

Lemma threshold_entered clk cb : threshold (entered clk cb) = threshold cb.
Proof. unfold entered. now destruct (state cb). Qed.

Lemma failureCount_entered clk cb : failureCount (entered clk cb) = failureCount cb.
Proof. unfold entered. now destruct (state cb). Qed.

Lemma tripping_step {W A} T n clk (fn : W -> W * Outcome A) cb w :
  tripping T n cb ->
  isThrown (snd (fn w)) = true ->
  tripping T (S n) (fst (fst (execute clk fn cb w))).
Proof.
  intros (HT & Hcb) Hfail.
  destruct (execute_cases clk fn cb w) as [(Hst & _ & E)|E]; rewrite E.
  - cbn. split; [exact HT|]. left. destruct Hcb as [[_ Hc]|[Hne _]]; [|congruence].
    now split.
  - destruct (fn w) as [w' [v|e]]; [discriminate|]. cbn [fst].
    unfold tripping, onFailure; cbn [threshold state failureCount].
    rewrite threshold_entered, failureCount_entered, HT. split; [reflexivity|].
    destruct (Z.leb_spec T (failureCount cb + 1)).
    + left. now split.
    + right. destruct Hcb as [[Hst Hc]|(Hne & Hc & _)]; [lia|].
      repeat split; try lia.
      unfold entered. destruct (state cb) eqn:Hst; cbn; rewrite ?Hst; congruence.
Qed.

Lemma tripping_run {W A} T (calls : list (Clock * (W -> W * Outcome A))) :
  forall n cb w,
  tripping T n cb ->
  (forall clk fn, In (clk, fn) calls -> forall w', isThrown (snd (fn w')) = true) ->
  tripping T (n + List.length calls) (fst (executeAll calls cb w)).
Proof.
  induction calls as [|[clk fn] calls IH]; intros n cb w H Hall; cbn [executeAll List.length].
  - now rewrite Nat.add_0_r.
  - pose proof (tripping_step T n clk fn cb w H (Hall clk fn (or_introl eq_refl) w)) as Hs.
    destruct (execute clk fn cb w) as [[cb' w'] out]. cbn [fst] in Hs.
    replace (n + S (List.length calls))%nat with (S n + List.length calls)%nat by lia.
    apply IH; [exact Hs|]. intros clk' fn' Hin. apply (Hall clk' fn'). now right.
Qed.


(** A run of calls can be split at any point. *)
Lemma executeAll_app {W A} (calls1 calls2 : list (Clock * (W -> W * Outcome A))) cb w :
  executeAll (calls1 ++ calls2) cb w
  = executeAll calls2 (fst (executeAll calls1 cb w)) (snd (executeAll calls1 cb w)).
Proof.
  revert cb w. induction calls1 as [|[clk fn] calls1 IH]; intros cb w; cbn.
  - reflexivity.
  - destruct (execute clk fn cb w) as [[cb' w'] out]. apply IH.
Qed.

(** Fewer failures than the threshold, counted from zero, leave the
    breaker closed. *)
Lemma closed_run {W A} (calls : list (Clock * (W -> W * Outcome A))) :
  forall cb w,
  state cb = CLOSED ->
  0 <= failureCount cb ->
  failureCount cb + Z.of_nat (List.length calls) < threshold cb ->
  (forall clk fn, In (clk, fn) calls -> forall w', isThrown (snd (fn w')) = true) ->
  state (fst (executeAll calls cb w)) = CLOSED.
Proof.
  induction calls as [|[clk fn] calls IH]; intros cb w Hst Hc Hlt Hall;
    cbn [executeAll List.length] in *; [exact Hst|].
  pose proof (Hall clk fn (or_introl eq_refl) w) as Hfail.
  rewrite execute_runs by congruence.
  destruct (fn w) as [w' [v|e]]; [discriminate|].
  apply IH.
  - unfold onFailure; cbn [state threshold failureCount].
    rewrite threshold_entered, failureCount_entered.
    destruct (Z.leb_spec (threshold cb) (failureCount cb + 1)); [lia|].
    unfold entered. now rewrite Hst.
  - cbn. rewrite failureCount_entered. lia.
  - cbn [onFailure threshold failureCount]. rewrite threshold_entered, failureCount_entered.
    lia.
  - intros clk' fn' Hin. apply (Hall clk' fn'). now right.
Qed.

(** A run of failing calls that stays below the threshold is counted
    call by call, each call being run. *)
Lemma counted_run {W A} (calls : list (Clock * (W -> W * Outcome A))) :
  forall cb w,
  state cb = CLOSED ->
  failureCount cb + Z.of_nat (List.length calls) < threshold cb ->
  (forall clk fn, In (clk, fn) calls -> forall w', isThrown (snd (fn w')) = true) ->
  state (fst (executeAll calls cb w)) = CLOSED
  /\ failureCount (fst (executeAll calls cb w))
     = failureCount cb + Z.of_nat (List.length calls)
  /\ threshold (fst (executeAll calls cb w)) = threshold cb
  /\ timeout (fst (executeAll calls cb w)) = timeout cb
  /\ name (fst (executeAll calls cb w)) = name cb.
Proof.
  induction calls as [|[clk fn] calls IH]; intros cb w Hst Hlt Hall;
    cbn [executeAll List.length fst snd] in *.
  - repeat split; trivial. lia.
  - pose proof (Hall clk fn (or_introl eq_refl) w) as Hfail.
    rewrite execute_runs by congruence.
    destruct (fn w) as [w' [v|e]]; [discriminate|].
    assert (Hen : entered clk cb = pruneOldCalls (t_prune clk) cb).
    { unfold entered. now rewrite Hst. }
    destruct (IH (onFailure (t_done clk) (entered clk cb)) w') as (H1 & H2 & H3 & H4 & H5).
    + rewrite Hen. unfold onFailure; cbn [state threshold failureCount pruneOldCalls].
      destruct (Z.leb_spec (threshold cb) (failureCount cb + 1)); [lia|exact Hst].
    + rewrite Hen. cbn [onFailure threshold failureCount pruneOldCalls]. lia.
    + intros clk' fn' Hin. apply (Hall clk' fn'). now right.
    + rewrite Hen in *. cbn [onFailure threshold failureCount timeout name pruneOldCalls] in *.
      repeat split; trivial. lia.
Qed.

(** The failure that reaches the threshold opens the breaker and records
    its time. *)
Lemma opening_failure {W A} clk (fn : W -> W * Outcome A) cb w :
  state cb = CLOSED ->
  threshold cb <= failureCount cb + 1 ->
  isThrown (snd (fn w)) = true ->
  state (fst (fst (execute clk fn cb w))) = OPEN
  /\ lastFailureTime (fst (fst (execute clk fn cb w))) = t_done clk
  /\ timeout (fst (fst (execute clk fn cb w))) = timeout cb
  /\ name (fst (fst (execute clk fn cb w))) = name cb
  /\ snd (fst (execute clk fn cb w)) = fst (fn w).
Proof.
  intros Hst Hle Hfail. rewrite execute_runs by congruence.
  destruct (fn w) as [w' [v|e]]; [discriminate|].
  unfold entered. rewrite Hst.
  cbn [fst snd onFailure state lastFailureTime timeout name threshold failureCount pruneOldCalls].
  destruct (Z.leb_spec (threshold cb) (failureCount cb + 1)); [|lia]. now repeat split.
Qed.

(** Calls made within the recovery time of an open breaker are all
    rejected: none runs its operation, and the breaker stays as it is but
    for its pruned history. *)
Lemma rejected_run {W A} (calls : list (Clock * (W -> W * Outcome A))) :
  forall cb w,
  state cb = OPEN ->
  (forall clk fn, In (clk, fn) calls -> t_check clk - lastFailureTime cb <= timeout cb) ->
  state (fst (executeAll calls cb w)) = OPEN
  /\ lastFailureTime (fst (executeAll calls cb w)) = lastFailureTime cb
  /\ timeout (fst (executeAll calls cb w)) = timeout cb
  /\ name (fst (executeAll calls cb w)) = name cb
  /\ snd (executeAll calls cb w) = w.
Proof.
  induction calls as [|[clk fn] calls IH]; intros cb w Hst Hall; cbn [executeAll].
  - now repeat split.
  - rewrite execute_rejects; [|exact Hst|apply (Hall clk fn); now left].
    destruct (IH (pruneOldCalls (t_prune clk) cb) w) as (H1 & H2 & H3 & H4 & H5).
    + exact Hst.
    + intros clk' fn' Hin. cbn [pruneOldCalls lastFailureTime timeout].
      apply (Hall clk' fn'). now right.
    + now repeat split.
Qed.

(** C7.  Starting from CLOSED, [T] consecutive failing calls of [execute]
    leave the breaker OPEN (and fewer than [T], counted from zero, leave
    it CLOSED); an OPEN breaker whose last failure is no more than [W]
    old rejects every call with [CircuitBreakerOpenError] and does not
    run the operation, the world being as before; and once more than [W]
    has passed, one probe that is let through and succeeds leaves the breaker
    CLOSED with the count of consecutive failures at zero.  [T] is the
    threshold, at least one, and [W] the timeout.

    The last part puts these together for one breaker: the [T] failures,
    counted from zero, open it and record the time at which the last of
    them settled; whatever calls are then made no later than [W] after
    that time are rejected without their operation being run, and leave
    it OPEN with that time still recorded; after them a call within [W]
    of that time is rejected in the same way, and a probe later than that
    which succeeds closes the breaker with the count at zero. *)
Theorem breaker_closure :
  (forall (W A : Type) (calls : list (Clock * (W -> W * Outcome A))) cb w,
     state cb = CLOSED ->
     0 <= failureCount cb ->
     1 <= threshold cb ->
     Z.of_nat (List.length calls) = threshold cb ->
     (forall clk fn, In (clk, fn) calls -> forall w', isThrown (snd (fn w')) = true) ->
     state (fst (executeAll calls cb w)) = OPEN)
  /\ (forall (W A : Type) (calls : list (Clock * (W -> W * Outcome A))) cb w,
        state cb = CLOSED ->
        failureCount cb = 0 ->
        Z.of_nat (List.length calls) < threshold cb ->
        (forall clk fn, In (clk, fn) calls -> forall w', isThrown (snd (fn w')) = true) ->
        state (fst (executeAll calls cb w)) = CLOSED)
  /\ (forall (W A : Type) clk (fn : W -> W * Outcome A) cb w,
        state cb = OPEN ->
        t_check clk - lastFailureTime cb <= timeout cb ->
        execute clk fn cb w
        = (pruneOldCalls (t_prune clk) cb, w, Thrown (CircuitBreakerOpenError (name cb)))
        /\ state (pruneOldCalls (t_prune clk) cb) = OPEN)
  /\ (forall (W A : Type) clk (fn : W -> W * Outcome A) cb w w' v,
        state cb = OPEN ->
        timeout cb < t_check clk - lastFailureTime cb ->
        fn w = (w', Returned v) ->
        exists cb',
          execute clk fn cb w = (cb', w', Returned v)
          /\ state cb' = CLOSED /\ failureCount cb' = 0)
  /\ (forall (W A : Type) (calls : list (Clock * (W -> W * Outcome A))) clkT fnT
             (rejected : list (Clock * (W -> W * Outcome A))) cb w,
        state cb = CLOSED ->
        failureCount cb = 0 ->
        Z.of_nat (List.length calls) + 1 = threshold cb ->
        (forall clk fn, In (clk, fn) (calls ++ [(clkT, fnT)]) ->
           forall w', isThrown (snd (fn w')) = true) ->
        (forall clk fn, In (clk, fn) rejected -> t_check clk - t_done clkT <= timeout cb) ->
        let opened := executeAll (calls ++ [(clkT, fnT)]) cb w in
        let later := executeAll rejected (fst opened) (snd opened) in
        state (fst opened) = OPEN
        /\ lastFailureTime (fst opened) = t_done clkT
        /\ state (fst later) = OPEN
        /\ lastFailureTime (fst later) = t_done clkT
        /\ snd later = snd opened
        /\ (forall clk (fn : W -> W * Outcome A),
              t_check clk - t_done clkT <= timeout cb ->
              execute clk fn (fst later) (snd later)
              = (pruneOldCalls (t_prune clk) (fst later), snd later,
                 Thrown (CircuitBreakerOpenError (name cb))))
        /\ (forall clk (fn : W -> W * Outcome A) w' v,
              timeout cb < t_check clk - t_done clkT ->
              fn (snd later) = (w', Returned v) ->
              exists cb',
                execute clk fn (fst later) (snd later) = (cb', w', Returned v)
                /\ state cb' = CLOSED /\ failureCount cb' = 0)).
Proof.
  split; [|split; [|split; [|split]]].
  - intros W A calls cb w Hst Hc HT Hlen Hall.
    pose proof (tripping_run (threshold cb) calls 0 cb w) as H.
    destruct H as (_ & [[H _]|(_ & H & [H'|H'])]); trivial.
    + split; [reflexivity|]. right. repeat split; try congruence; auto.
    + cbn in H'. destruct calls; [cbn in Hlen; lia|discriminate].
    + cbn [Nat.add] in H. lia.
  - intros W A calls cb w Hst Hc Hlen Hall. apply closed_run; trivial; lia.
  - intros W A clk fn cb w Hst Hw. split; [now apply execute_rejects|exact Hst].
  - intros W A clk fn cb w w' v Hst Hw Hfn.
    rewrite execute_runs by (intros _; exact Hw). rewrite Hfn.
    eexists. split; [reflexivity|]. unfold onSuccess, entered. rewrite Hst. now cbn.
  - intros W A calls clkT fnT rejected cb w Hst Hc Hlen Hall Hrej. cbv zeta.
    rewrite executeAll_app.
    destruct (counted_run calls cb w) as (C1 & C2 & C3 & C4 & C5); [exact Hst|lia| |].
    { intros clk fn Hin. apply (Hall clk fn). apply in_or_app. now left. }
    destruct (executeAll calls cb w) as [cb1 w1]. cbn [fst snd] in *.
    cbn [executeAll].
    destruct (opening_failure clkT fnT cb1 w1) as (O1 & O2 & O3 & O4 & O5);
      [exact C1|lia| |].
    { apply (Hall clkT fnT). apply in_or_app. right. now left. }
    destruct (execute clkT fnT cb1 w1) as [[cb2 w2] out]. cbn [fst snd] in *.
    destruct (rejected_run rejected cb2 w2) as (R1 & R2 & R3 & R4 & R5); [exact O1| |].
    { intros clk fn Hin. rewrite O2, O3, C4. now apply (Hrej clk fn). }
    destruct (executeAll rejected cb2 w2) as [cb3 w3]. cbn [fst snd] in *.
    repeat split; try congruence.
    + intros clk fn Hw. rewrite execute_rejects; [congruence|exact R1|].
      rewrite R2, R3, O2, O3, C4. exact Hw.
    + intros clk fn w' v Hw Hfn.
      rewrite execute_runs by (intros _; rewrite R2, R3, O2, O3, C4; exact Hw).
      rewrite Hfn. eexists. split; [reflexivity|].
      unfold onSuccess, entered. rewrite R1. now cbn.
Qed.

Lemma breaker_closure_witness :
  let cb0 := constructor {| cfg_threshold := 3; cfg_timeout := 1000; cfg_name := "db" |} in
  let boom := failing (fun n : nat => S n) (PlainError "failure") in
  let cb3 := fst (executeAll [(Sample.tick 10, boom); (Sample.tick 20, boom);
                              (Sample.tick 30, boom)] cb0 O) in
  let cb5 := fst (executeAll [(Sample.tick 500, boom); (Sample.tick 900, boom)] cb3 3%nat) in
  state cb3 = OPEN
  /\ state (fst (executeAll [(Sample.tick 10, boom); (Sample.tick 20, boom)] cb0 O)) = CLOSED
  /\ execute (Sample.tick 500) boom cb3 3%nat
     = (pruneOldCalls 500 cb3, 3%nat, Thrown (CircuitBreakerOpenError "db"))
  /\ (exists cb',
        execute (Sample.tick 2000) (fun n : nat => (S n, Returned tt)) cb3 3%nat
        = (cb', 4%nat, Returned tt)
        /\ state cb' = CLOSED /\ failureCount cb' = 0)
  /\ lastFailureTime cb3 = 30
  /\ lastFailureTime cb5 = 30
  /\ execute (Sample.tick 1030) boom cb5 3%nat
     = (pruneOldCalls 1030 cb5, 3%nat, Thrown (CircuitBreakerOpenError "db"))
  /\ exists cb',
       execute (Sample.tick 1031) (fun n : nat => (S n, Returned tt)) cb5 3%nat
       = (cb', 4%nat, Returned tt)
       /\ state cb' = CLOSED /\ failureCount cb' = 0.
Proof.
  cbv zeta.
  destruct breaker_closure as (Hopen & Hclosed & Hreject & Hprobe & Hcompose).
  assert (Hall : forall l : list (Clock * (nat -> nat * Outcome unit)),
             (forall c, In c l -> snd c = failing (fun n : nat => S n) (PlainError "failure")) ->
             forall clk fn, In (clk, fn) l -> forall w', isThrown (snd (fn w')) = true).
  { intros l Hl clk fn Hin w'. specialize (Hl _ Hin). cbn in Hl. now subst fn. }
  split; [|split; [|split; [|split]]].
  - apply Hopen; try reflexivity; try (cbn; lia).
    apply Hall. intros c [<-|[<-|[<-|[]]]]; reflexivity.
  - apply Hclosed; try reflexivity; try (cbn; lia).
    apply Hall. intros c [<-|[<-|[]]]; reflexivity.
  - apply Hreject; [reflexivity|cbn; lia].
  - apply Hprobe; [reflexivity|cbn; lia|reflexivity].
  - destruct (Hcompose nat unit
                [(Sample.tick 10, failing (fun n : nat => S n) (PlainError "failure"));
                 (Sample.tick 20, failing (fun n : nat => S n) (PlainError "failure"))]
                (Sample.tick 30) (failing (fun n : nat => S n) (PlainError "failure"))
                [(Sample.tick 500, failing (fun n : nat => S n) (PlainError "failure"));
                 (Sample.tick 900, failing (fun n : nat => S n) (PlainError "failure"))]
                (constructor {| cfg_threshold := 3; cfg_timeout := 1000; cfg_name := "db" |})
                O)
      as (_ & T1 & _ & T2 & _ & Trej & Tprobe).
    + reflexivity.
    + reflexivity.
    + reflexivity.
    + apply Hall. intros c [<-|[<-|[<-|[]]]]; reflexivity.
    + intros clk fn [E|[E|[]]]; inversion E; subst; cbn; lia.
    + split; [exact T1|]. split; [exact T2|]. split.
      * exact (Trej (Sample.tick 1030)
                 (failing (fun n : nat => S n) (PlainError "failure")) ltac:(cbn; lia)).
      * exact (Tprobe (Sample.tick 1031) (fun n : nat => (S n, Returned tt)) 4%nat tt
                 ltac:(cbn; lia) eq_refl).
Defined.

End CircuitBreakerFacts.

(* ================================================================== *)
(** ** The floor of the stuck threshold *)

Module ReconcilerFacts.
Import Reconciler.

Lemma constructor_cases cfg :
  (effective_threshold cfg < MIN_STUCK_THRESHOLD
   /\ exists msg, constructor cfg = Thrown (ReconciliationError msg))
  \/ (MIN_STUCK_THRESHOLD <= effective_threshold cfg
      /\ exists rc, constructor cfg = Returned rc
                    /\ c_stuckThresholdMs (config rc) = effective_threshold cfg).
Proof.
  unfold constructor, effective_threshold.
  destruct (Z.ltb_spec (or_default (stuckThresholdMs cfg) 300000) MIN_STUCK_THRESHOLD).
  - left. split; [assumption|]. eexists. reflexivity.
  - right. split; [assumption|]. eexists. split; reflexivity.
Qed.

(** C5, as stated, fails: a configured threshold of zero is below the
    floor, yet construction succeeds, because [config.stuckThresholdMs ||
    300000] takes zero for an absent value. *)
Lemma zero_threshold_is_accepted :
  0 < 60000
  /\ exists rc,
       constructor {| enabled := None; intervalMs := None; stuckThresholdMs := Some 0;
                      batchSize := None; adaptiveScheduling := None;
                      rateLimitPerSecond := None; useHeartbeat := None |}
       = Returned rc
       /\ c_stuckThresholdMs (config rc) = 300000.
Proof. split; [lia|]. eexists. split; reflexivity. Qed.

(** C5 (amended).  For every reconciliation configuration whose
    [stuckThresholdMs] is set, is not zero and is below 60000, constructing
    the reconciler fails with a Reconciliation error; for every
    configuration with [stuckThresholdMs >= 60000] construction succeeds
    with that threshold in effect; and when the key is absent or zero
    construction succeeds with the default of 300000 in effect. *)
Theorem threshold_floor cfg :
  (forall n, stuckThresholdMs cfg = Some n -> n <> 0 -> n < 60000 ->
     exists msg, constructor cfg = Thrown (ReconciliationError msg))
  /\ (forall n, stuckThresholdMs cfg = Some n -> 60000 <= n ->
        exists rc, constructor cfg = Returned rc /\ c_stuckThresholdMs (config rc) = n)
  /\ (stuckThresholdMs cfg = None \/ stuckThresholdMs cfg = Some 0 ->
        exists rc, constructor cfg = Returned rc
                   /\ c_stuckThresholdMs (config rc) = 300000).
Proof.
  pose proof (constructor_cases cfg) as H. unfold effective_threshold, MIN_STUCK_THRESHOLD in H.
  repeat split.
  - intros n E Hn Hlt. rewrite E in H. cbn in H.
    destruct (Z.eqb_spec n 0); [contradiction|].
    destruct H as [[_ H]|[H _]]; [exact H|lia].
  - intros n E Hge. rewrite E in H. cbn in H.
    destruct (Z.eqb_spec n 0); [lia|].
    destruct H as [[H _]|[_ H]]; [lia|exact H].
  - intros [E|E]; rewrite E in H; cbn in H; destruct H as [[H _]|[_ H]]; try lia; exact H.
Qed.


Lemma threshold_floor_witness :
  (exists msg,
     constructor {| enabled := None; intervalMs := None; stuckThresholdMs := Some 59999;
                    batchSize := None; adaptiveScheduling := None;
                    rateLimitPerSecond := None; useHeartbeat := None |}
     = Thrown (ReconciliationError msg))
  /\ (exists rc,
        constructor {| enabled := None; intervalMs := None; stuckThresholdMs := Some 60000;
                       batchSize := None; adaptiveScheduling := None;
                       rateLimitPerSecond := None; useHeartbeat := None |}
        = Returned rc
        /\ c_stuckThresholdMs (config rc) = 60000)
  /\ (exists rc,
        constructor JobGuard.empty_reconciliation = Returned rc
        /\ c_stuckThresholdMs (config rc) = 300000).
Proof.
  split; [|split].
  - apply (threshold_floor _) with (n := 59999); [reflexivity|lia|lia].
  - apply (threshold_floor _) with (n := 60000); [reflexivity|lia].
  - apply (threshold_floor JobGuard.empty_reconciliation). left. reflexivity.
Defined.

End ReconcilerFacts.

(* ================================================================== *)
(** ** The statements and the repository methods *)

Module SqlFacts.
Import Job Sql.

Lemma id_touch now r : id (touch now r) = id r.
Proof. reflexivity. Qed.

Lemma id_in_spec ids r : id_in ids r = true <-> In (id r) ids.
Proof.
  unfold id_in. rewrite existsb_exists. split.
  - intros (x & Hin & E). apply Z.eqb_eq in E. now subst.
  - intro H. exists (id r). split; [exact H|apply Z.eqb_refl].
Qed.

Lemma id_in_nil r : id_in [] r = false.
Proof. reflexivity. Qed.

Lemma update_rows_none now sel f tbl :
  (forall r, In r tbl -> sel r = false) -> update_rows now sel f tbl = tbl.
Proof.
  intro H. unfold update_rows. rewrite <- (map_id tbl) at 2.
  apply map_ext_in. intros r Hin. now rewrite (H r Hin).
Qed.

Lemma nth_update_rows now sel f tbl i :
  nth_error (update_rows now sel f tbl) i
  = option_map (fun r => if sel r then touch now (f r) else r) (nth_error tbl i).
Proof. unfold update_rows. apply nth_error_map. Qed.

Lemma ids_update_rows now sel f tbl :
  (forall r, id (f r) = id r) ->
  map id (update_rows now sel f tbl) = map id tbl.
Proof.
  intro H. unfold update_rows. rewrite map_map. apply map_ext.
  intro r. destruct (sel r); [|reflexivity]. now rewrite id_touch, H.
Qed.

Lemma In_update_rows now sel f tbl r' :
  In r' (update_rows now sel f tbl) ->
  exists r, In r tbl /\ r' = (if sel r then touch now (f r) else r).
Proof.
  unfold update_rows. intro H. apply in_map_iff in H as (r & E & Hin). now exists r.
Qed.

Lemma UPDATE_returned now sel f tbl rows tbl' :
  UPDATE now sel f tbl = Returned (rows, tbl') -> tbl' = update_rows now sel f tbl.
Proof.
  unfold UPDATE. destruct (unique_active _); [|discriminate]. intro E. now inversion E.
Qed.

Lemma UPDATE_table now sel f tbl rows tbl' :
  UPDATE now sel f tbl = Returned (rows, tbl') ->
  forall i row, nth_error tbl i = Some row -> sel row = false ->
  nth_error tbl' i = Some row.
Proof.
  intros E i row Hi Hsel. apply UPDATE_returned in E. subst tbl'.
  now rewrite nth_update_rows, Hi; cbn; rewrite Hsel.
Qed.

Lemma In_insert_by_liveness x r l :
  In x (insert_by_liveness r l) <-> x = r \/ In x l.
Proof.
  induction l as [|y l IH]; cbn.
  - intuition.
  - destruct (liveness r <? liveness y); cbn; rewrite ?IH; intuition.
Qed.

Lemma In_order_by_liveness x l : In x (order_by_liveness l) <-> In x l.
Proof.
  unfold order_by_liveness. induction l as [|y l IH]; cbn; [tauto|].
  rewrite In_insert_by_liveness, IH. intuition.
Qed.

Lemma firstn_In {A} (x : A) n l : In x (firstn n l) -> In x l.
Proof.
  revert l. induction n as [|n IH]; intros [|y l]; cbn; try tauto.
  intros [E|H]; [now left|right; now apply IH].
Qed.

Lemma GET_STUCK_JOBS_spec now locked q thr batch tbl sel tbl' :
  GET_STUCK_JOBS now locked q thr batch tbl = Returned (sel, tbl') ->
  tbl' = tbl /\ 0 <= batch /\ Z.of_nat (List.length sel) <= batch
  /\ forall x, In x sel ->
       In x tbl /\ queue_name x = q /\ status x = PROCESSING
       /\ liveness x < now - thr /\ ~ In (id x) locked.
Proof.
  unfold GET_STUCK_JOBS. destruct (Z.ltb_spec batch 0); [discriminate|].
  intro E. inversion E; subst; clear E. repeat split; trivial.
  - rewrite length_firstn. lia.
  - apply firstn_In, In_order_by_liveness, filter_In in H0. tauto.
  - apply firstn_In, In_order_by_liveness, filter_In in H0 as (_ & Hs).
    unfold is_stuck in Hs. apply andb_prop in Hs as (Hs & _).
    apply andb_prop in Hs as (Hs & _). apply andb_prop in Hs as (Hs & _).
    now apply String.eqb_eq.
  - apply firstn_In, In_order_by_liveness, filter_In in H0 as (_ & Hs).
    unfold is_stuck in Hs. apply andb_prop in Hs as (Hs & _).
    apply andb_prop in Hs as (Hs & _). apply andb_prop in Hs as (_ & Hs).
    now destruct (status x).
  - apply firstn_In, In_order_by_liveness, filter_In in H0 as (_ & Hs).
    unfold is_stuck in Hs. apply andb_prop in Hs as (Hs & _).
    apply andb_prop in Hs as (_ & Hs). now apply Z.ltb_lt.
  - apply firstn_In, In_order_by_liveness, filter_In in H0 as (_ & Hs).
    apply andb_prop in Hs as (_ & Hs). intro Hin.
    apply negb_true_iff in Hs. apply not_true_iff_false in Hs. apply Hs.
    apply existsb_exists. exists (id x). split; [exact Hin|apply Z.eqb_refl].
Qed.

Lemma NoDup_map_eq {A C} (f : A -> C) (l : list A) a b :
  NoDup (map f l) -> In a l -> In b l -> f a = f b -> a = b.
Proof.
  induction l as [|x l IH]; cbn; [tauto|].
  intros Hnd [Ea|Ha] [Eb|Hb] E; inversion Hnd; subst.
  - reflexivity.
  - exfalso. apply H1. rewrite E. now apply in_map.
  - exfalso. apply H1. rewrite <- E. now apply in_map.
  - now apply IH.
Qed.

End SqlFacts.

Module RepositoryFacts.
Import Job Sql Repository SqlFacts.

Lemma guarded_returned {A} env (fn : Db -> Db * Outcome A) r r' v :
  guarded env fn r = (r', Returned v) ->
  fn (table r, logger r) = ((table r', logger r'), Returned v).
Proof.
  unfold guarded.
  destruct (CircuitBreaker.execute _ fn _ _) as [[cb [tbl lg]] out] eqn:E.
  intro H. inversion H; subst; clear H. cbn.
  now apply CircuitBreakerFacts.execute_returned in E.
Qed.

(** After a guarded call the table is the one before, or the one the
    callback leaves. *)
Lemma guarded_table {A} env (fn : Db -> Db * Outcome A) r :
  table (fst (guarded env fn r)) = table r
  \/ table (fst (guarded env fn r)) = fst (fst (fn (table r, logger r))).
Proof.
  unfold guarded.
  pose proof (CircuitBreakerFacts.execute_world (clock env) fn (circuitBreaker r)
                (table r, logger r)) as H.
  destruct (CircuitBreaker.execute _ fn _ _) as [[cb [tbl lg]] out]. cbn in *.
  destruct H as [H|H]; [left; now inversion H|right; now rewrite <- H].
Qed.

Lemma query_returned env stmt tbl tbl' rows :
  query env stmt tbl = (tbl', Returned rows) -> stmt tbl = Returned (rows, tbl').
Proof.
  unfold query. destruct (fault env); [discriminate|].
  destruct (stmt tbl) as [[rows0 tbl0]|e]; [|discriminate].
  destruct (reply_lost env); intro E; now inversion E.
Qed.

Lemma query_table env stmt tbl :
  fst (query env stmt tbl) = tbl
  \/ exists rows, stmt tbl = Returned (rows, fst (query env stmt tbl)).
Proof.
  unfold query. destruct (fault env); [now left|].
  destruct (stmt tbl) as [[rows0 tbl0]|e]; [right|now left].
  exists rows0. now destruct (reply_lost env).
Qed.

Lemma first_row_or_null_returned env stmt missing found r r' out :
  first_row_or_null env stmt missing found r = (r', Returned out) ->
  exists rows, stmt (table r) = Returned (rows, table r').
Proof.
  unfold first_row_or_null. intro H. apply guarded_returned in H. cbn [fst snd] in H.
  destruct (query env stmt (table r)) as [tbl' [rows|e]] eqn:Q.
  - apply query_returned in Q. exists rows.
    destruct rows; inversion H; subst; exact Q.
  - discriminate.
Qed.

Lemma first_row_or_null_table env stmt missing found r :
  table (fst (first_row_or_null env stmt missing found r)) = table r
  \/ exists rows,
       stmt (table r)
       = Returned (rows, table (fst (first_row_or_null env stmt missing found r))).
Proof.
  unfold first_row_or_null.
  match goal with |- context [guarded env ?fn r] =>
    destruct (guarded_table env fn r) as [H|H] end; [now left|].
  rewrite H. cbn [fst snd].
  destruct (query_table env stmt (table r)) as [Q|Q].
  - left. destruct (query env stmt (table r)) as [tbl' [[|row rows]|e]]; exact Q.
  - right. destruct Q as (rows & Q). exists rows.
    destruct (query env stmt (table r)) as [tbl' [[|row rows']|e]]; exact Q.
Qed.

Lemma partition_fold l acc :
  fold_left partition_step l acc
  = {| toReEnqueue := toReEnqueue acc
                      ++ filter (fun job => attempts job <? max_attempts job) l;
       deadJobIds := deadJobIds acc
                     ++ map id (filter (fun job => negb (attempts job <? max_attempts job)) l) |}.
Proof.
  revert acc. induction l as [|job l IH]; intro acc; cbn.
  - rewrite !app_nil_r. now destruct acc.
  - rewrite IH. unfold partition_step.
    destruct (attempts job <? max_attempts job); cbn; now rewrite <- app_assoc.
Qed.

(** The loop computes the two filters. *)
Lemma partition_stuck_spec l :
  partition_stuck l
  = {| toReEnqueue := filter (fun job => attempts job <? max_attempts job) l;
       deadJobIds := map id (filter (fun job => negb (attempts job <? max_attempts job)) l) |}.
Proof. unfold partition_stuck. now rewrite partition_fold. Qed.

Lemma harvest_returned env q thr batch tbl tbl' found :
  harvest env q thr batch tbl = (tbl', Returned found) ->
  exists sel,
    GET_STUCK_JOBS (sql_now env) (locked env) q thr batch tbl = Returned (sel, tbl)
    /\ found = partition_stuck sel
    /\ tbl' = harvested (sql_now env) sel tbl.
Proof.
  unfold harvest.
  destruct (GET_STUCK_JOBS _ _ q thr batch tbl) as [[sel tbl1]|e] eqn:G; [|discriminate].
  pose proof (GET_STUCK_JOBS_spec _ _ _ _ _ _ _ _ G) as (-> & _).
  destruct sel as [|s sel].
  - intro E. inversion E; subst. exists []. repeat split.
    unfold harvested. cbn. now rewrite !update_rows_none.
  - destruct (MARK_AS_STUCK _ _ tbl) as [[rows2 tbl2]|e] eqn:M; [|discriminate].
    apply UPDATE_returned in M.
    destruct (deadJobIds (partition_stuck (s :: sel))) as [|d ds] eqn:D.
    + intro E. inversion E; subst. exists (s :: sel). repeat split.
      unfold harvested. rewrite D. now rewrite (update_rows_none _ (id_in [])).
    + destruct (BULK_MARK_DEAD _ _ tbl2) as [[rows3 tbl3]|e] eqn:K; [|discriminate].
      apply UPDATE_returned in K.
      intro E. inversion E; subst. exists (s :: sel). repeat split.
      unfold harvested. now rewrite D.
Qed.

Lemma withTransaction_returned {A} env (callback : Table -> Table * Outcome A) r r' v :
  withTransaction env callback r = (r', Returned v) ->
  callback (table r) = (table r', Returned v).
Proof.
  unfold withTransaction. intro H. apply guarded_returned in H. cbn [fst snd] in H.
  destruct (fault env); [discriminate|].
  destruct (callback (table r)) as [tbl' [v'|e]]; [|discriminate].
  destruct (reply_lost env); inversion H; now subst.
Qed.

Lemma getAndMarkStuckJobs_returned env q thr batch r r' found :
  getAndMarkStuckJobs env q thr batch r = (r', Returned found) ->
  exists sel,
    GET_STUCK_JOBS (sql_now env) (locked env) q thr batch (table r)
    = Returned (sel, table r)
    /\ found = partition_stuck sel
    /\ table r' = harvested (sql_now env) sel (table r).
Proof.
  unfold getAndMarkStuckJobs. destruct (checkHealth r); [|discriminate].
  intro H. apply withTransaction_returned in H. now apply harvest_returned in H.
Qed.

End RepositoryFacts.

(* ================================================================== *)
(** ** The stuck-job harvest partitions by attempts *)

Module HarvestFacts.
Import Job Sql Repository SqlFacts RepositoryFacts.

Lemma harvested_ids now sel tbl : map id (harvested now sel tbl) = map id tbl.
Proof. unfold harvested. now rewrite !ids_update_rows. Qed.

Lemma harvested_partitioned now sel tbl :
  NoDup (map id tbl) ->
  (forall job, In job sel -> In job tbl) ->
  partitioned now sel (partition_stuck sel) tbl (harvested now sel tbl).
Proof.
  intros Hnd Hsub. unfold partitioned. rewrite partition_stuck_spec. cbn [toReEnqueue deadJobIds].
  split; [reflexivity|]. split; [reflexivity|]. split; [|split; [|split; [|split]]].
  - intros job H. apply filter_In in H as (H & Hlt). split; [exact H|]. now apply Z.ltb_lt.
  - intro i. rewrite in_map_iff. split.
    + intros (job & E & H). apply filter_In in H as (H & Hge). exists job.
      repeat split; trivial. apply negb_true_iff, Z.ltb_ge in Hge. exact Hge.
    + intros (job & H & E & Hge). exists job. split; [exact E|].
      apply filter_In. split; [exact H|]. now apply negb_true_iff, Z.ltb_ge.
  - apply harvested_ids.
  - intros row Hrow Hid. unfold harvested in Hrow. rewrite partition_stuck_spec in Hrow.
    cbn [deadJobIds] in Hrow.
    apply In_update_rows in Hrow as (r2 & Hr2 & ->).
    apply In_update_rows in Hr2 as (r0 & Hr0 & ->).
    apply in_map_iff in Hid as (job & Eid & Hjob).
    apply filter_In in Hjob as (Hjob & Hlt).
    assert (Eid0 : id job = id r0).
    { rewrite Eid. destruct (id_in _ (if id_in _ r0 then _ else _)); cbn;
        destruct (id_in (map id sel) r0); reflexivity. }
    assert (job = r0) as <-.
    { apply (NoDup_map_eq id tbl); auto. }
    assert (Hsel : id_in (map id sel) job = true).
    { apply id_in_spec. now apply in_map. }
    rewrite Hsel.
    destruct (id_in _ (touch now (set_status_only STUCK job))) eqn:Hdead; [|reflexivity].
    exfalso. apply id_in_spec in Hdead. cbn [touch id] in Hdead.
    apply in_map_iff in Hdead as (d & Ed & Hd). apply filter_In in Hd as (Hd & Hge).
    assert (d = job) as ->.
    { apply (NoDup_map_eq id tbl); auto. }
    rewrite Hlt in Hge. discriminate.
  - intros row Hrow Hid. unfold harvested in Hrow. rewrite partition_stuck_spec in Hrow.
    cbn [deadJobIds] in Hrow.
    apply In_update_rows in Hrow as (r2 & Hr2 & ->).
    destruct (id_in _ r2) eqn:Hdead; [now split|].
    exfalso. apply not_true_iff_false in Hdead. apply Hdead. now apply id_in_spec.
Qed.


(** C1.  For every call of [getAndMarkStuckJobs(queue, thresholdMs,
    batchSize)] that returns, on a table whose identifiers are distinct:
    the rows selected are rows of the queue in status 'processing' whose
    liveness signal is older than the threshold, at most [batchSize] of
    them; the records to re-enqueue are the selected rows with [attempts <
    max_attempts] and the dead identifiers are exactly those of the
    selected rows with [attempts >= max_attempts]; and in the committed
    table every row to re-enqueue has status 'stuck' and every row of the
    dead set has status 'dead' with [completed_at] set. *)
Theorem harvest_partition env q thr batch r r' found :
  NoDup (map id (table r)) ->
  getAndMarkStuckJobs env q thr batch r = (r', Returned found) ->
  exists selected,
    GET_STUCK_JOBS (sql_now env) (locked env) q thr batch (table r)
    = Returned (selected, table r)
    /\ Z.of_nat (List.length selected) <= batch
    /\ (forall job, In job selected ->
          In job (table r) /\ queue_name job = q /\ status job = PROCESSING
          /\ liveness job < sql_now env - thr)
    /\ partitioned (sql_now env) selected found (table r) (table r').
Proof.
  intros Hnd H. apply getAndMarkStuckJobs_returned in H as (sel & G & -> & ->).
  exists sel. pose proof (GET_STUCK_JOBS_spec _ _ _ _ _ _ _ _ G) as (_ & _ & Hlen & Hsel).
  split; [exact G|]. split; [exact Hlen|]. split.
  - intros job Hj. specialize (Hsel job Hj). tauto.
  - apply harvested_partitioned; [exact Hnd|]. intros job Hj. now apply Hsel.
Qed.

Lemma harvest_partition_witness :
  exists selected,
    GET_STUCK_JOBS Sample.now [] "mail" 300000 100 Sample.table
    = Returned (selected, Sample.table)
    /\ Z.of_nat (List.length selected) <= 100
    /\ (forall job, In job selected ->
          In job Sample.table /\ queue_name job = "mail"%string
          /\ status job = PROCESSING /\ liveness job < Sample.now - 300000)
    /\ partitioned Sample.now selected
         {| toReEnqueue := [Sample.stale]; deadJobIds := [2] |}
         Sample.table
         (table (fst (getAndMarkStuckJobs Sample.env "mail" 300000 100 Sample.repository))).
Proof.
  apply (harvest_partition Sample.env "mail" 300000 100 Sample.repository).
  - cbn. repeat constructor; cbn; intuition discriminate.
  - vm_compute. reflexivity.
Defined.

End HarvestFacts.

(* ================================================================== *)
(** ** Terminal rows and the attempt bound *)

Module TerminalFacts.
Import Job Sql Repository SqlFacts RepositoryFacts HarvestFacts.

Lemma INSERT_JOB_keeps jin now newid q t j jname json s att maxAtt tbl rows tbl' i row :
  INSERT_JOB jin now newid q t j jname json s att maxAtt tbl = Returned (rows, tbl') ->
  nth_error tbl i = Some row ->
  isTerminal (status row) = true ->
  nth_error tbl' i = Some row.
Proof.
  unfold INSERT_JOB. intros H Hi Hterm.
  destruct (jsonb_opt jin json) as [document|e]; [|discriminate].
  destruct (varchar 100 q) as [q'|]; [|discriminate].
  destruct (varchar 100 j) as [j'|]; [|discriminate].
  destruct (varchar_opt 100 jname) as [jname'|]; [|discriminate].
  destruct (negb _); [discriminate|].
  destruct document as [text|]; [|discriminate].
  destruct (existsb _ tbl).
  - eapply UPDATE_table; [exact H|exact Hi|].
    unfold active. rewrite Hterm. cbn. now rewrite andb_false_r.
  - destruct (existsb _ tbl); [discriminate|].
    inversion H; subst. rewrite nth_error_app1; [exact Hi|].
    apply nth_error_Some. congruence.
Qed.

Lemma createJob_keeps env q t j jname d maxAtt :
  keeps_terminal (fun r => fst (createJob env q t j jname d maxAtt r)).
Proof.
  intros r i row _ Hi Hterm. unfold createJob.
  match goal with |- context [guarded env ?fn r] =>
    destruct (guarded_table env fn r) as [H|H] end; rewrite H; [exact Hi|].
  cbn [fst snd]. destruct (stringify d) as [json|e]; [|exact Hi].
  match goal with |- context [query env ?stmt (table r)] =>
    destruct (query_table env stmt (table r)) as [Q|(rows & Q)];
    destruct (query env stmt (table r)) as [tbl' [[|row0 rows0]|e]] end;
    cbn [fst] in *; subst; try exact Hi;
    eapply INSERT_JOB_keeps; eauto.
Qed.

Lemma updateHeartbeat_keeps env q t j :
  keeps_terminal (fun r => fst (updateHeartbeat env q t j r)).
Proof.
  intros r i row _ Hi Hterm. unfold updateHeartbeat.
  match goal with |- context [first_row_or_null env ?stmt ?m ?f r] =>
    destruct (first_row_or_null_table env stmt m f r) as [H|(rows & H)] end.
  - now rewrite H.
  - eapply UPDATE_table; [exact H|exact Hi|].
    cbn beta. destruct (status row); try discriminate; apply andb_false_r.
Qed.

Lemma harvested_keeps now locked q thr batch tbl sel i row :
  GET_STUCK_JOBS now locked q thr batch tbl = Returned (sel, tbl) ->
  NoDup (map id tbl) ->
  nth_error tbl i = Some row ->
  isTerminal (status row) = true ->
  nth_error (harvested now sel tbl) i = Some row.
Proof.
  intros G Hnd Hi Hterm.
  pose proof (GET_STUCK_JOBS_spec _ _ _ _ _ _ _ _ G) as (_ & _ & _ & Hsel).
  assert (Hout : id_in (map id sel) row = false).
  { apply not_true_iff_false. intro H. apply id_in_spec, in_map_iff in H as (s & E & Hs).
    destruct (Hsel s Hs) as (Hin & _ & Hst & _).
    assert (s = row) as ->.
    { apply (NoDup_map_eq id tbl); auto. eapply nth_error_In; eauto. }
    rewrite Hst in Hterm. discriminate. }
  assert (Hout' : id_in (deadJobIds (partition_stuck sel)) row = false).
  { apply not_true_iff_false. intro H. apply not_true_iff_false in Hout. apply Hout.
    apply id_in_spec. apply id_in_spec in H. rewrite partition_stuck_spec in H.
    cbn [deadJobIds] in H. apply in_map_iff in H as (s & E & Hs).
    apply filter_In in Hs as (Hs & _). rewrite <- E. now apply in_map. }
  unfold harvested. rewrite !nth_update_rows, Hi. cbn [option_map].
  now rewrite Hout, Hout'.
Qed.

Lemma getAndMarkStuckJobs_keeps env q thr batch :
  keeps_terminal (fun r => fst (getAndMarkStuckJobs env q thr batch r)).
Proof.
  intros r i row Hnd Hi Hterm. unfold getAndMarkStuckJobs.
  destruct (checkHealth r); [|exact Hi]. unfold withTransaction.
  match goal with |- context [guarded env ?fn r] =>
    destruct (guarded_table env fn r) as [H|H] end; rewrite H; [exact Hi|].
  cbn [fst snd]. destruct (fault env); [exact Hi|].
  destruct (harvest env q thr batch (table r)) as [tbl' [found|e]] eqn:Hh; [|exact Hi].
  apply harvest_returned in Hh as (sel & G & _ & ->).
  destruct (reply_lost env); cbn [fst]; eapply harvested_keeps; eauto.
Qed.


(** C3, as stated, fails: [updateJobStatus] and [updateJobError] carry no
    guard on the status.  The completed row of the sample is set back to
    'processing' by the one and turned into a failed row with one more
    attempt by the other. *)
Lemma terminal_row_is_rewritten :
  ~ keeps_terminal
      (fun r => fst (updateJobStatus Sample.env "mail" bull "j4" PROCESSING r))
  /\ ~ keeps_terminal
        (fun r => fst (updateJobError Sample.env "mail" bull "j4" "boom" r)).
Proof.
  assert (Hnd : NoDup (map id (table Sample.repository))).
  { cbn. repeat constructor; cbn; intuition discriminate. }
  split; intro H;
    specialize (H Sample.repository 3%nat Sample.done Hnd eq_refl eq_refl);
    vm_compute in H; discriminate.
Qed.

(** C3 (amended).  For every job row whose status is 'completed',
    'failed' or 'dead', [updateHeartbeat], [createJob] (the UPSERT, which
    inserts a new row beside a terminal one) and [getAndMarkStuckJobs]
    leave the row at its place with its status and fields unchanged,
    whatever their arguments and whether they return or throw;
    [updateJobStatus] and [updateJobError] are not guarded and are not
    covered. *)
Theorem terminal_rows_kept :
  (forall env q t j, keeps_terminal (fun r => fst (updateHeartbeat env q t j r)))
  /\ (forall env q t j jname d maxAtt,
        keeps_terminal (fun r => fst (createJob env q t j jname d maxAtt r)))
  /\ (forall env q thr batch,
        keeps_terminal (fun r => fst (getAndMarkStuckJobs env q thr batch r))).
Proof.
  split; [|split].
  - exact updateHeartbeat_keeps.
  - exact createJob_keeps.
  - exact getAndMarkStuckJobs_keeps.
Qed.

Lemma terminal_rows_kept_witness :
  nth_error (table (fst (updateHeartbeat Sample.env "mail" bull "j4" Sample.repository))) 3
  = Some Sample.done
  /\ nth_error (table (fst (createJob Sample.env "mail" bull "j4" (Some "send"%string)
                             (Serializable "{}") 3 Sample.repository))) 3
     = Some Sample.done
  /\ nth_error (table (fst (getAndMarkStuckJobs Sample.env "mail" 300000 100
                             Sample.repository))) 3
     = Some Sample.done.
Proof.
  assert (Hnd : NoDup (map id (table Sample.repository))).
  { cbn. repeat constructor; cbn; intuition discriminate. }
  destruct terminal_rows_kept as (Hh & Hc & Hg).
  split; [|split].
  - exact (Hh Sample.env "mail"%string bull "j4"%string Sample.repository 3%nat
             Sample.done Hnd eq_refl eq_refl).
  - exact (Hc Sample.env "mail"%string bull "j4"%string (Some "send"%string)
             (Serializable "{}") 3 Sample.repository 3%nat Sample.done Hnd eq_refl eq_refl).
  - exact (Hg Sample.env "mail"%string 300000 100 Sample.repository 3%nat
             Sample.done Hnd eq_refl eq_refl).
Defined.

(** C4, as stated, fails: nothing caps [attempts].  The sample's row in
    process with 3 attempts out of 3 satisfies the bound; one more
    reported failure takes it to 4 out of 3. *)
Lemma attempts_pass_the_maximum :
  ~ keeps_attempt_bound
      (fun r => fst (updateJobError Sample.env "mail" bull "j2" "boom" r)).
Proof.
  intro H.
  assert (Hall : forall row, In row (table Sample.repository) ->
                             attempts row <= max_attempts row).
  { intros row [<-|[<-|[<-|[<-|[<-|[]]]]]]; cbn; lia. }
  specialize (H Sample.repository Hall).
  destruct (nth_error (table (fst (updateJobError Sample.env "mail" bull "j2" "boom"
                                     Sample.repository))) 1) as [row|] eqn:E;
    [|vm_compute in E; discriminate].
  specialize (H row (nth_error_In _ _ E)).
  vm_compute in E. inversion E; subst. cbn in H. lia.
Qed.

(** C4 (amended).  Whenever [updateJobError] returns, every row with the
    key has its attempts incremented by exactly one and its status set to
    'dead' when [attempts + 1 >= max_attempts] and to 'failed' otherwise;
    a row that was below its maximum stays within it, and a row that
    reaches or passes its maximum is dead.  Nothing bounds the attempts of
    a row that is already at its maximum. *)
Theorem failure_counts_one_attempt env q t j err r r' out i row :
  updateJobError env q t j err r = (r', Returned out) ->
  nth_error (table r) i = Some row ->
  same_key q t j row = true ->
  exists row',
    nth_error (table r') i = Some row'
    /\ attempts row' = attempts row + 1
    /\ max_attempts row' = max_attempts row
    /\ status row' = (if max_attempts row <=? attempts row + 1 then DEAD else FAILED)
    /\ (attempts row < max_attempts row -> attempts row' <= max_attempts row')
    /\ (max_attempts row' <= attempts row' -> status row' = DEAD).
Proof.
  intros H Hi Hkey. unfold updateJobError in H.
  apply first_row_or_null_returned in H as (rows & H).
  unfold UPDATE_JOB_ERROR in H. destruct (forallb _ _); [|discriminate].
  apply UPDATE_returned in H. rewrite H, nth_update_rows, Hi. cbn [option_map].
  rewrite Hkey. eexists. split; [reflexivity|]. cbn.
  repeat split; try lia.
  intro Hge. destruct (Z.leb_spec (max_attempts row) (attempts row + 1)); [reflexivity|lia].
Qed.

Lemma failure_counts_one_attempt_witness :
  exists row',
    nth_error (table (fst (updateJobError Sample.env "mail" bull "j1" "boom"
                             Sample.repository))) 0
    = Some row'
    /\ attempts row' = 1 + 1
    /\ max_attempts row' = 3
    /\ status row' = FAILED
    /\ (1 < 3 -> attempts row' <= max_attempts row')
    /\ (max_attempts row' <= attempts row' -> status row' = DEAD).
Proof.
  apply (failure_counts_one_attempt Sample.env "mail" bull "j1" "boom" Sample.repository
           _ (Some (set_error_fields Sample.now "boom" Sample.stale)) 0 Sample.stale).
  - vm_compute. reflexivity.
  - reflexivity.
  - reflexivity.
Defined.

End TerminalFacts.

(* ================================================================== *)
(** ** Submission and re-enqueue *)

Module AdapterFacts.
Import Job Broker Adapter.

Lemma validateJobData_invalid jobName d :
  invalid jobName d -> exists e, validateJobData jobName d = Thrown e.
Proof.
  unfold validateJobData. intros [ [n [-> Hn] ] | H ].
  - destruct n as [|c n]; [cbn in Hn; lia|]. cbn [String.eqb negb andb].
    destruct (Nat.ltb_spec MAX_NAME_LENGTH (String.length (String c n)));
      [|unfold MAX_NAME_LENGTH in *; lia].
    eexists; reflexivity.
  - match goal with |- context [if ?b then _ else _] => destruct b end;
      [eexists; reflexivity|].
    destruct H as [ [json [-> Hj] ] | [ [msg ->] | -> ] ].
    + destruct (Z.ltb_spec MAX_DATA_SIZE (byteLength json));
        [|unfold MAX_DATA_SIZE in *; lia].
      eexists; reflexivity.
    + destruct (includes "exceeds" msg); eexists; reflexivity.
    + destruct (includes "exceeds" byteLength_of_undefined); eexists; reflexivity.
Qed.

Section WithBroker.
Variable B : Type.
Variable api : Api B.

Lemma handleJobCreated_invalid env a jobId jobName d maxAttempts (w : World B) :
  invalid jobName d ->
  handleJobCreated B env a jobId jobName d maxAttempts w
  = log B Logger.error ("Failed to persist job " ++ jobId) w.
Proof.
  intro H. apply validateJobData_invalid in H as (e & H).
  unfold handleJobCreated. now rewrite H.
Qed.

(** The logger of a repository does not bear on what [getJob] returns,
    and [getJob] leaves the table alone. *)
Lemma getJob_logger env q t j r lg :
  let r' := {| Repository.table := Repository.table r;
               Repository.circuitBreaker := Repository.circuitBreaker r;
               Repository.connectionManager := Repository.connectionManager r;
               Repository.logger := lg |} in
  snd (Repository.getJob env q t j r') = snd (Repository.getJob env q t j r)
  /\ Repository.table (fst (Repository.getJob env q t j r')) = Repository.table r.
Proof.
  unfold Repository.getJob, Repository.guarded, CircuitBreaker.execute,
    Repository.query, Sql.GET_JOB. cbn.
  destruct (CircuitBreaker.state (Repository.circuitBreaker r));
    try destruct (_ <? _); destruct (Repository.fault env);
    destruct (Repository.reply_lost env);
    try destruct (filter _ _); cbn; auto.
Qed.


(** C9.  For every adapter variant (the adapter's [queueType] is Bull,
    BullMQ or Bee) and every record passed to [reEnqueueJob]: if the
    re-read through [repository.getJob] returns no record, or a record
    whose status is not 'stuck', the call returns without a removal on the
    broker, without a re-submission and without a status update: the
    broker and the table are as before. *)
Theorem reEnqueue_skips_unless_stuck env1 env2 env3 a jobRecord (w : World B) cur :
  snd (Repository.getJob env1 (queueName a) (queueType a) (job_id jobRecord)
         (repository w)) = Returned cur ->
  (forall c, cur = Some c -> status c <> STUCK) ->
  snd (reEnqueueJob B api env1 env2 env3 a jobRecord w) = Returned tt
  /\ broker (fst (reEnqueueJob B api env1 env2 env3 a jobRecord w)) = broker w
  /\ Repository.table (repository (fst (reEnqueueJob B api env1 env2 env3 a jobRecord w)))
     = Repository.table (repository w).
Proof.
  intros Hget Hcur.
  assert (Hskip : match cur with
                  | Some c => status_eqb (status c) STUCK
                  | None => false
                  end = false).
  { destruct cur as [c|]; [|reflexivity]. specialize (Hcur c eq_refl).
    destruct (status c); try reflexivity. congruence. }
  pose proof (getJob_logger env1 (queueName a) (queueType a) (job_id jobRecord)
                (repository w)
                (Logger.log Logger.info ("Re-enqueueing stuck job: " ++ job_id jobRecord)
                   (Repository.logger (repository w)))) as (Hout & Htbl).
  cbv zeta in Hout, Htbl. rewrite Hget in Hout.
  unfold reEnqueueJob, bull_reEnqueueJob, bullmq_reEnqueueJob, reEnqueue_with_id,
    bee_reEnqueueJob.
  destruct (queueType a) eqn:Hty; cbn [Adapter.log repository broker] in *;
    match goal with |- context [Repository.getJob ?e ?q ?t ?j ?r] =>
      destruct (Repository.getJob e q t j r) as [r1 out] eqn:G end;
    cbn [fst snd] in *; subst out; rewrite Hskip; cbn; auto.
Qed.

End WithBroker.



Lemma reEnqueue_skips_unless_stuck_witness :
  let res := reEnqueueJob MemoryBroker.B MemoryBroker.api Sample.env Sample.env Sample.env
               Sample.bullAdapter Sample.done Sample.world in
  snd res = Returned tt
  /\ broker (fst res) = broker Sample.world
  /\ Repository.table (repository (fst res)) = Repository.table (repository Sample.world).
Proof.
  cbv zeta.
  apply (reEnqueue_skips_unless_stuck MemoryBroker.B MemoryBroker.api Sample.env Sample.env
           Sample.env Sample.bullAdapter Sample.done Sample.world (Some Sample.done)).
  - vm_compute. reflexivity.
  - intros c E. inversion E. discriminate.
Defined.

End AdapterFacts.

(* ================================================================== *)
(** ** The coordinator before initialisation and after shutdown *)

Module JobGuardFacts.
Import JobGuard.

Section WithBroker.
Variable B : Type.
Variable api : Broker.Api B.
Variable fmul : Q -> Q -> Q.

Lemma constructor_uninitialized queue cfg tbl (b : B) jg w :
  constructor B queue cfg tbl b = Returned (jg, w) -> initialized jg = false.
Proof.
  unfold constructor. destruct queue as [q|]; [|discriminate].
  destruct (negb (postgres cfg)); [discriminate|].
  destruct (createAdapter q); [|discriminate].
  intro E. now inversion E.
Qed.

Lemma shutdown_uninitializes jg (w : World B) :
  initialized (fst (fst (shutdown B jg w))) = false.
Proof.
  unfold shutdown. destruct (initialized jg) eqn:E; cbn [negb].
  - destruct (Adapter.dispose B (adapter jg) _) as [a w2]. reflexivity.
  - exact E.
Qed.

Lemma initialize_failed connected jg (w : World B) jg' w' e :
  initialize B connected jg w = (jg', w', Thrown e) -> initialized jg' = initialized jg.
Proof.
  unfold initialize. destruct (initializationPromise jg) as [settled|].
  - intro E. now inversion E.
  - destruct connected; cbn [negb].
    + destruct (Adapter.initialize B (adapter jg) _) as [a w1].
      destruct (Reconciler.not_false _).
      * destruct (Reconciler.constructor _) as [rc|e'].
        -- destruct (Reconciler.start B rc w1) as [rc' w2]. discriminate.
        -- intro E. now inversion E.
      * discriminate.
    + intro E. now inversion E.
Qed.


(** C10.  The coordinator is not initialised when its constructor returns,
    an initialisation that fails leaves it so, and [shutdown] leaves it
    so.  While it is not initialised, [getStats], [forceReconciliation]
    and [updateHeartbeat] throw the 'not initialized' error and touch
    neither the repository nor the adapter (coordinator and world are
    returned as they were), and [shutdown] returns having only logged a
    warning: no timer is stopped, the adapter is not disposed and the pool
    is not closed. *)
Theorem uninitialized_guard :
  (forall queue cfg tbl (b : B) jg w,
     constructor B queue cfg tbl b = Returned (jg, w) -> initialized jg = false)
  /\ (forall connected jg (w : World B) jg' w' e,
        initialize B connected jg w = (jg', w', Thrown e) ->
        initialized jg' = initialized jg)
  /\ (forall jg (w : World B), initialized (fst (fst (shutdown B jg w))) = false)
  /\ (forall jg (w : World B),
        initialized jg = false ->
        (forall env, getStats B env jg w = (jg, w, Thrown not_initialized))
        /\ (forall env envs,
              forceReconciliation B api fmul env envs jg w = (jg, w, Thrown not_initialized))
        /\ (forall env jobId,
              updateHeartbeat B env jobId jg w = (jg, w, Thrown not_initialized))
        /\ shutdown B jg w
           = (jg,
              Adapter.log B Logger.warn "JobGuard is not initialized, nothing to shutdown" w,
              Returned tt)).
Proof.
  split; [|split; [|split]].
  - exact constructor_uninitialized.
  - exact initialize_failed.
  - exact shutdown_uninitializes.
  - intros jg w H. unfold getStats, forceReconciliation, updateHeartbeat, shutdown.
    rewrite H. cbn [negb]. repeat split; reflexivity.
Qed.

End WithBroker.

Lemma uninitialized_guard_witness :
  exists jg w,
    constructor MemoryBroker.B (Some Sample.bullQueue) Sample.plainConfig Sample.table [] = Returned (jg, w)
    /\ initialized jg = false
    /\ getStats MemoryBroker.B Sample.env jg w = (jg, w, Thrown not_initialized)
    /\ forceReconciliation MemoryBroker.B MemoryBroker.api Qmult Sample.env [] jg w
       = (jg, w, Thrown not_initialized)
    /\ updateHeartbeat MemoryBroker.B Sample.env "j1" jg w = (jg, w, Thrown not_initialized)
    /\ shutdown MemoryBroker.B jg w
       = (jg,
          Adapter.log MemoryBroker.B Logger.warn
            "JobGuard is not initialized, nothing to shutdown" w,
          Returned tt).
Proof.
  destruct (uninitialized_guard MemoryBroker.B MemoryBroker.api Qmult)
    as (Hnew & _ & _ & Hguard).
  destruct (constructor MemoryBroker.B (Some Sample.bullQueue) Sample.plainConfig Sample.table [])
    as [[jg w]|e] eqn:E; [|vm_compute in E; discriminate].
  exists jg, w. pose proof (Hnew _ _ _ _ _ _ E) as Hinit.
  destruct (Hguard jg w Hinit) as (Hs & Hf & Hu & Hd).
  split; [reflexivity|]. split; [exact Hinit|].
  split; [apply Hs|]. split; [apply Hf|]. split; [apply Hu|exact Hd].
Defined.

End JobGuardFacts.

(* ================================================================== *)
(** ** The matcher: repetition, scanning and replacement *)

Module RegexFacts.
Import Regex.
Local Open Scope list_scope.

Lemma span_le ok s : (span ok s <= List.length s)%nat.
Proof. induction s as [|c s IH]; cbn; [lia|]. destruct (ok c); cbn; lia. Qed.

Lemma span_app ok a b :
  forallb ok a = true -> span ok (a ++ b) = (List.length a + span ok b)%nat.
Proof.
  induction a as [|c a IH]; cbn; [reflexivity|].
  intro H. apply andb_prop in H as (Hc & Ha). now rewrite Hc, IH.
Qed.

Lemma span_firstn ok s : forallb ok (firstn (span ok s) s) = true.
Proof.
  induction s as [|c s IH]; cbn; [reflexivity|].
  destruct (ok c) eqn:E; cbn; [now rewrite E|reflexivity].
Qed.

Lemma span_stop ok s c t : skipn (span ok s) s = c :: t -> ok c = false.
Proof.
  induction s as [|x s IH]; cbn; [discriminate|].
  destruct (ok x) eqn:E; cbn.
  - exact IH.
  - intro H. inversion H. now subst.
Qed.

(** Exactly [n] repetitions. *)
Lemma rep_exact ok n : forall s k,
  rep ok n (Some n) s k
  = if forallb ok (firstn n s) && (n <=? List.length s)%nat then k (skipn n s) else None.
Proof.
  induction n as [|n IH]; intros s k.
  - destruct s; reflexivity.
  - destruct s as [|c s]; [reflexivity|].
    cbn [rep Nat.pred option_map firstn forallb skipn List.length].
    destruct (ok c); cbn [andb]; [|reflexivity].
    rewrite IH. change (S n <=? S (List.length s))%nat with (n <=? List.length s)%nat.
    now destruct (forallb ok (firstn n s) && (n <=? List.length s)%nat), (k (skipn n s)).
Qed.

(** At least [min] repetitions, when what follows cannot start with a
    character of the class: only the longest run is tried with success. *)
Lemma rep_unbounded ok k :
  (forall c s', ok c = true -> k (c :: s') = None) ->
  forall s min,
  rep ok min None s k
  = if (min <=? span ok s)%nat then k (skipn (span ok s) s) else None.
Proof.
  intros Hk. induction s as [|c s IH]; intro min.
  - destruct min; reflexivity.
  - cbn [rep option_map span]. destruct (ok c) eqn:E.
    + rewrite IH. cbn [skipn].
      destruct min as [|min]; cbn [Nat.pred Nat.leb].
      * now destruct (k (skipn (span ok s) s)); [|rewrite Hk].
      * now destruct (min <=? span ok s)%nat, (k (skipn (span ok s) s)).
    + destruct min; reflexivity.
Qed.

(** At least [min] repetitions at the end of the pattern: the longest run
    is taken. *)
Lemma rep_unbounded_last ok : forall s min,
  rep ok min None s (fun rest => Some rest)
  = if (min <=? span ok s)%nat then Some (skipn (span ok s) s) else None.
Proof.
  induction s as [|c s IH]; intro min.
  - destruct min; reflexivity.
  - cbn [rep option_map span]. destruct (ok c) eqn:E.
    + rewrite IH. cbn [skipn].
      destruct min as [|min]; cbn [Nat.pred Nat.leb]; [reflexivity|].
      now destruct (min <=? span ok s)%nat.
    + destruct min; reflexivity.
Qed.

Lemma replace_from_skip i r repl :
  exec i r [] = None ->
  forall s n, replace_from i r repl n s = replace i r repl (skipn n s).
Proof.
  intros He. unfold replace. induction s as [|c s IH]; intros [|n]; try reflexivity.
  - cbn. now rewrite He.
  - cbn [replace_from skipn]. apply IH.
Qed.

Lemma test_false i r s :
  test i r s = false <-> forall n, exec i r (skipn n s) = None.
Proof.
  induction s as [|c s IH]; cbn [test].
  - destruct (exec i r []) eqn:E; split; try discriminate; trivial.
    + intro H. specialize (H O). cbn in H. congruence.
    + intros _ [|n]; exact E.
  - destruct (exec i r (c :: s)) eqn:E; split; try discriminate.
    + intro H. specialize (H O). cbn in H. congruence.
    + intros H [|n]; [exact E|]. cbn [skipn]. now apply IH.
    + intro H. apply IH. intro n. exact (H (S n)).
Qed.

End RegexFacts.

Module ScanFacts.
Import Regex RegexFacts.
Local Open Scope list_scope.

(** ** Replacing the matches of a pattern that cannot match the empty
    string

    [hit s] tells whether the pattern matches at the head of [s];
    [clean s] that a second pattern, whose matches at the head are told by
    [hitQ], matches nowhere in [s]. *)

Section Scan.

Variables (i : bool) (r : Regex.t) (repl : JsString).
Hypothesis exec_nil : exec i r [] = None.
Hypothesis exec_pos : forall s, exec i r s <> Some O.

Lemma replace_cons c s :
  replace i r repl (c :: s)
  = match exec i r (c :: s) with
    | Some n => repl ++ replace i r repl (skipn n (c :: s))
    | None => c :: replace i r repl s
    end.
Proof.
  unfold replace at 1. cbn [replace_from].
  destruct (exec i r (c :: s)) as [[|n]|] eqn:E.
  - now apply exec_pos in E.
  - now rewrite replace_from_skip.
  - reflexivity.
Qed.

Lemma replace_nil : replace i r repl [] = [].
Proof. unfold replace. cbn. now rewrite exec_nil. Qed.

Lemma exec_le s n : exec i r s = Some n -> (n <= List.length s)%nat.
Proof.
  unfold exec. destruct (run i r s _); [|discriminate]. intro H. inversion H. lia.
Qed.

(** Up to the first replacement the text is unchanged. *)
Lemma first_replacement s :
  replace i r repl s = s
  \/ exists y z rest,
       s = y ++ z /\ hit i r z = true /\ replace i r repl s = y ++ repl ++ rest.
Proof.
  induction s as [|c s IH].
  - left. apply replace_nil.
  - rewrite replace_cons. destruct (exec i r (c :: s)) as [n|] eqn:E.
    + right. exists [], (c :: s), (replace i r repl (skipn n (c :: s))).
      repeat split. unfold hit. now rewrite E.
    + destruct IH as [IH|(y & z & rest & Hs & Hz & IH)].
      * left. now rewrite IH.
      * right. exists (c :: y), z, rest. rewrite IH, Hs. now repeat split.
Qed.

Variable hitQ : JsString -> bool.

(** No match of the second pattern starts inside a replacement. *)
Hypothesis repl_barrier :
  forall j t, (j < List.length repl)%nat -> hitQ (skipn j repl ++ t) = false.
(** A match of the second pattern at the head of the replaced text was
    already there. *)
Hypothesis head_kept :
  forall s, hit i r s = false -> hitQ (replace i r repl s) = true -> hitQ s = true.
Hypothesis hitQ_nil : hitQ [] = false.

Lemma clean_skipn s n : 
  (forall m, hitQ (skipn m s) = true -> hit i r (skipn m s) = true) ->
  forall m, hitQ (skipn m (skipn n s)) = true -> hit i r (skipn m (skipn n s)) = true.
Proof. intros H m. rewrite skipn_skipn. apply H. Qed.

(** Every match of the second pattern in the text being one of the first,
    none is left after the replacement. *)
Lemma replace_clean_gen : forall len s,
  (List.length s <= len)%nat ->
  (forall m, hitQ (skipn m s) = true -> hit i r (skipn m s) = true) ->
  clean hitQ (replace i r repl s).
Proof.
  induction len as [|len IH]; intros s Hlen Hs n.
  - destruct s; [|cbn in Hlen; lia]. rewrite replace_nil. now destruct n.
  - destruct s as [|c s]; [rewrite replace_nil; now destruct n|].
    rewrite replace_cons. destruct (exec i r (c :: s)) as [k|] eqn:E.
    + destruct (Nat.lt_ge_cases n (List.length repl)) as [Hn|Hn].
      * rewrite skipn_app. replace (n - List.length repl)%nat with O by lia.
        cbn [skipn]. now apply repl_barrier.
      * rewrite skipn_app, skipn_all2 by exact Hn. cbn [app].
        apply IH.
        -- pose proof (exec_le _ _ E) as Hk. 
           assert (k <> O) by (intros ->; now apply exec_pos in E).
           rewrite length_skipn. cbn [List.length] in *. lia.
        -- now apply clean_skipn.
    + destruct n as [|n].
      * cbn [skipn]. destruct (hitQ (c :: replace i r repl s)) eqn:Hq; [|reflexivity].
        assert (Hh : hit i r (c :: s) = false) by (unfold hit; now rewrite E).
        pose proof (head_kept (c :: s) Hh) as Hk.
        rewrite replace_cons, E in Hk. specialize (Hk Hq).
        specialize (Hs O Hk). cbn [skipn] in Hs. congruence.
      * cbn [skipn]. apply IH; [cbn in Hlen; lia|].
        intros m. exact (Hs (S m)).
Qed.

End Scan.

End ScanFacts.

(* ================================================================== *)
(** ** The AWS-key pattern *)

Module AwsFacts.
Import Regex Sanitizer RegexFacts ScanFacts.
Local Open Scope list_scope.

Lemma run_aws s :
  run false aws_key s (fun rest => Some rest)
  = if aws_at s then Some (skipn 20 s) else None.
Proof.
  unfold aws_key, exactly. cbn [seq word str list_ascii_of_string run atom_ok].
  destruct s as [|a [|b [|c [|d t]]]]; cbn [aws_at]; try reflexivity;
    try (destruct (Ascii.eqb a "A"); cbn [andb]; reflexivity);
    try (destruct (Ascii.eqb a "A"), (Ascii.eqb b "K"); cbn [andb]; reflexivity);
    try (destruct (Ascii.eqb a "A"), (Ascii.eqb b "K"), (Ascii.eqb c "I");
         cbn [andb]; reflexivity).
  destruct (Ascii.eqb a "A"), (Ascii.eqb b "K"), (Ascii.eqb c "I"), (Ascii.eqb d "A");
    cbn [andb]; try reflexivity.
  rewrite rep_exact. reflexivity.
Qed.

Lemma aws_at_length s : aws_at s = true -> (20 <= List.length s)%nat.
Proof.
  destruct s as [|a [|b [|c [|d t]]]]; cbn [aws_at]; try discriminate.
  intro H. apply andb_prop in H as (_ & H). apply andb_prop in H as (_ & H).
  apply Nat.leb_le in H. cbn [List.length]. lia.
Qed.

Lemma exec_aws s : exec false aws_key s = if aws_at s then Some 20%nat else None.
Proof.
  unfold exec. rewrite run_aws. destruct (aws_at s) eqn:E; [|reflexivity].
  apply aws_at_length in E. rewrite length_skipn. f_equal. lia.
Qed.

Lemma hit_aws s : hit false aws_key s = aws_at s.
Proof. unfold hit. rewrite exec_aws. now destruct (aws_at s). Qed.

(** A match is decided by the first twenty characters, all of them
    capitals or digits. *)
Lemma aws_at_firstn s : aws_at s = aws_at (firstn 20 s).
Proof.
  destruct s as [|a [|b [|c [|d t]]]]; try reflexivity.
  change (firstn 20 (a :: b :: c :: d :: t)) with (a :: b :: c :: d :: firstn 16 t).
  cbn [aws_at]. rewrite firstn_firstn, length_firstn, Nat.min_id.
  do 2 f_equal.
  destruct (Nat.leb_spec 16 (List.length t)), (Nat.leb_spec 16 (Nat.min 16 (List.length t)));
    try reflexivity; lia.
Qed.

Lemma aws_at_alphabet s : aws_at s = true -> forallb upper_or_digit (firstn 20 s) = true.
Proof.
  destruct s as [|a [|b [|c [|d t]]]]; cbn [aws_at]; try discriminate.
  intro H. apply andb_prop in H as (H & Ht). apply andb_prop in Ht as (Ht & _).
  apply andb_prop in H as (H & Hd). apply andb_prop in H as (H & Hc).
  apply andb_prop in H as (Ha & Hb).
  apply Ascii.eqb_eq in Ha, Hb, Hc, Hd. subst.
  change (firstn 20 ("A" :: "K" :: "I" :: "A" :: t))%char
    with ("A" :: "K" :: "I" :: "A" :: firstn 16 t)%char.
  cbn [forallb]. rewrite Ht. reflexivity.
Qed.

(** A character that is neither capital nor digit cannot lie within a
    match: a match that begins before it ends before it. *)
Lemma aws_barrier y c t z :
  upper_or_digit c = false -> aws_at (y ++ c :: t) = true -> aws_at (y ++ z) = true.
Proof.
  intros Hc H. pose proof (aws_at_alphabet _ H) as Ha.
  destruct (Nat.lt_ge_cases (List.length y) 20) as [Hy|Hy].
  - exfalso. rewrite firstn_app, forallb_app in Ha.
    apply andb_prop in Ha as (_ & Ha).
    destruct (20 - List.length y)%nat as [|k] eqn:Ek; [lia|].
    cbn [firstn forallb] in Ha. rewrite Hc in Ha. discriminate.
  - rewrite aws_at_firstn in H |- *. rewrite firstn_app in H |- *.
    replace (20 - List.length y)%nat with O in * by lia. exact H.
Qed.

Lemma aws_barrier_own y t z :
  aws_at (y ++ str "AKIA***" ++ t) = true -> aws_at z = true -> aws_at (y ++ z) = true.
Proof.
  intros H Hz.
  destruct z as [|a [|b [|c [|d z']]]]; try discriminate.
  cbn [aws_at] in Hz. apply andb_prop in Hz as (Hz & _).
  apply andb_prop in Hz as (Hz & Hd). apply andb_prop in Hz as (Hz & Hc).
  apply andb_prop in Hz as (Ha & Hb).
  apply Ascii.eqb_eq in Ha, Hb, Hc, Hd. subst.
  change (str "AKIA***" ++ t)
    with (["A"; "K"; "I"; "A"]%char ++ "*"%char :: str "**" ++ t) in H.
  rewrite app_assoc in H.
  change (y ++ "A"%char :: "K"%char :: "I"%char :: "A"%char :: z')
    with (y ++ ["A"; "K"; "I"; "A"]%char ++ z').
  rewrite app_assoc. eapply aws_barrier; [|exact H]. reflexivity.
Qed.

End AwsFacts.

(* ================================================================== *)
(** ** The JWT pattern *)

Module JwtFacts.
Import Regex Sanitizer RegexFacts ScanFacts.
Local Open Scope list_scope.

Lemma tok_not_dot c : tok c = true -> Ascii.eqb c dot = false.
Proof.
  intro H. destruct (Ascii.eqb_spec c dot) as [->|]; [|reflexivity].
  vm_compute in H. discriminate.
Qed.

Lemma run_jwt s :
  run false jwt s (fun rest => Some rest) = if jwt_at s then Some (jwt_rest s) else None.
Proof.
  unfold jwt, atLeast. cbn [seq word str list_ascii_of_string run atom_ok].
  destruct s as [|a [|b [|c t]]]; cbn [jwt_at jwt_rest]; try reflexivity;
    try (destruct (Ascii.eqb a "e"); cbn [andb]; reflexivity);
    try (destruct (Ascii.eqb a "e"), (Ascii.eqb b "y"); cbn [andb]; reflexivity).
  destruct (Ascii.eqb a "e"), (Ascii.eqb b "y"), (Ascii.eqb c "J");
    cbn [andb]; try reflexivity.
  change (atom_ok false token_char) with tok.
  rewrite rep_unbounded.
  - destruct (10 <=? span tok t)%nat; cbn [andb]; [|reflexivity].
    destruct (skipn (span tok t) t) as [|d u]; [reflexivity|].
    change "."%char with dot. destruct (Ascii.eqb d dot); cbn [andb]; [|reflexivity].
    apply rep_unbounded_last.
  - intros x s' Hx. change "."%char with dot. now rewrite (tok_not_dot x Hx).
Qed.

Lemma jwt_rest_shorter s : jwt_at s = true -> (List.length (jwt_rest s) < List.length s)%nat.
Proof.
  destruct s as [|a [|b [|c t]]]; cbn [jwt_at jwt_rest]; try discriminate.
  intros _. pose proof (length_skipn (span tok t) t) as H1.
  destruct (skipn (span tok t) t) as [|d u]; cbn [List.length] in *; [lia|].
  rewrite length_skipn. lia.
Qed.

Lemma hit_jwt s : hit false jwt s = jwt_at s.
Proof. unfold hit, exec. rewrite run_jwt. now destruct (jwt_at s). Qed.

Lemma exec_jwt_pos s : exec false jwt s <> Some O.
Proof.
  unfold exec. rewrite run_jwt. destruct (jwt_at s) eqn:E; [|discriminate].
  apply jwt_rest_shorter in E. intro H. inversion H. lia.
Qed.

Lemma forallb_firstn {A} (f : A -> bool) n l :
  forallb f l = true -> forallb f (firstn n l) = true.
Proof.
  revert l. induction n as [|n IH]; intros [|x l]; cbn; trivial.
  intro H. apply andb_prop in H as (Hx & Hl). now rewrite Hx, IH.
Qed.

Lemma span_ge ok a b :
  forallb ok a = true -> (List.length a <= span ok (a ++ b))%nat.
Proof. intro H. rewrite span_app by exact H. lia. Qed.

(** A match, spelled out: [eyJ], a run of at least ten token characters,
    a dot, and at least ten token characters. *)
Lemma jwt_intro r1 x rest :
  forallb tok r1 = true -> (10 <= List.length r1)%nat ->
  forallb tok x = true -> (10 <= List.length x)%nat ->
  jwt_at ("e"%char :: "y"%char :: "J"%char :: r1 ++ dot :: x ++ rest) = true.
Proof.
  intros Hr1 Hl1 Hx Hlx. cbn [jwt_at Ascii.eqb Bool.eqb andb].
  assert (Es : span tok (r1 ++ dot :: x ++ rest) = List.length r1).
  { rewrite span_app by exact Hr1. change (span tok (dot :: x ++ rest)) with O. lia. }
  rewrite Es, skipn_app, skipn_all, Nat.sub_diag. cbn [skipn app].
  rewrite Ascii.eqb_refl. cbn [andb].
  pose proof (span_ge tok x rest Hx).
  destruct (Nat.leb_spec 10 (List.length r1)); [|lia].
  destruct (Nat.leb_spec 10 (span tok (x ++ rest))); [reflexivity|lia].
Qed.

Lemma jwt_elim s :
  jwt_at s = true ->
  exists r1 x rest,
    s = "e"%char :: "y"%char :: "J"%char :: r1 ++ dot :: x ++ rest
    /\ forallb tok r1 = true /\ (10 <= List.length r1)%nat
    /\ forallb tok x = true /\ List.length x = 10%nat.
Proof.
  destruct s as [|a [|b [|c t]]]; cbn [jwt_at]; try discriminate.
  intro H. apply andb_prop in H as (H & Ht). apply andb_prop in H as (H & Hc).
  apply andb_prop in H as (Ha & Hb). apply Ascii.eqb_eq in Ha, Hb, Hc. subst.
  apply andb_prop in Ht as (H1 & Ht). apply Nat.leb_le in H1.
  destruct (skipn (span tok t) t) as [|d u] eqn:Et; [discriminate|].
  apply andb_prop in Ht as (Hd & H2). apply Ascii.eqb_eq in Hd. apply Nat.leb_le in H2.
  subst d.
  exists (firstn (span tok t) t), (firstn 10 u), (skipn 10 u).
  rewrite firstn_skipn, <- Et, firstn_skipn. split; [reflexivity|].
  split; [apply span_firstn|]. split.
  - rewrite length_firstn. pose proof (span_le tok t). lia.
  - split.
    + replace (firstn 10 u) with (firstn 10 (firstn (span tok u) u)).
      * apply forallb_firstn, span_firstn.
      * rewrite firstn_firstn. f_equal. lia.
    + rewrite length_firstn. pose proof (span_le tok u). lia.
Qed.

End JwtFacts.

Module JwtBarrier.
Import Regex Sanitizer RegexFacts ScanFacts JwtFacts.
Local Open Scope list_scope.

Lemma head_tok r1 c :
  forallb tok r1 = true -> In c ("e"%char :: "y"%char :: "J"%char :: r1) -> tok c = true.
Proof.
  intros Hr1 [<-|[<-|[<-|Hin]]]; try reflexivity.
  rewrite forallb_forall in Hr1. now apply Hr1.
Qed.

Lemma jwt_intro' r1 x rest :
  forallb tok r1 = true -> (10 <= List.length r1)%nat ->
  forallb tok x = true -> (10 <= List.length x)%nat ->
  jwt_at (jwt_head r1 ++ x ++ rest) = true.
Proof.
  intros. unfold jwt_head. cbn [app]. rewrite <- app_assoc. cbn [app].
  now apply jwt_intro.
Qed.

Lemma jwt_elim' s :
  jwt_at s = true ->
  exists r1 x rest,
    s = jwt_head r1 ++ x ++ rest
    /\ forallb tok r1 = true /\ (10 <= List.length r1)%nat
    /\ forallb tok x = true /\ List.length x = 10%nat.
Proof.
  intro H. apply jwt_elim in H as (r1 & x & rest & E & H).
  exists r1, x, rest. split; [|exact H].
  rewrite E. unfold jwt_head. cbn [app]. rewrite <- app_assoc. reflexivity.
Qed.

Lemma forallb_last {A} (f : A -> bool) l a : forallb f (l ++ [a]) = true -> f a = true.
Proof.
  rewrite forallb_app. intro H. apply andb_prop in H as (_ & H). cbn in H.
  now rewrite andb_true_r in H.
Qed.

(** A match in [y ++ b] ends within [y], or its last characters [l] are
    the first of [b]. *)
Lemma jwt_overlap y b :
  jwt_at (y ++ b) = true ->
  exists r1 x,
    forallb tok r1 = true /\ (10 <= List.length r1)%nat
    /\ forallb tok x = true /\ List.length x = 10%nat
    /\ ((exists l, y = jwt_head r1 ++ x ++ l)
        \/ (exists l rest, l <> [] /\ b = l ++ rest /\ jwt_head r1 ++ x = y ++ l)).
Proof.
  intro H. apply jwt_elim' in H as (r1 & x & rest & E & Hr1 & Hl1 & Hx & Hlx).
  exists r1, x. repeat (split; [assumption|]).
  rewrite app_assoc in E.
  apply app_eq_app in E as (l & [(Ey & Er)|(Ew & Eb)]).
  - left. exists l. rewrite Ey. now rewrite <- app_assoc.
  - destruct l as [|c l].
    + left. exists []. rewrite app_nil_r in Ew. now rewrite app_nil_r.
    + right. exists (c :: l), rest. repeat split; [discriminate|exact Eb|exact Ew].
Qed.

(** The match ends with [x], ten token characters: a short tail of the
    match is a tail of [x]. *)
Lemma jwt_tail r1 x y l :
  List.length x = 10%nat ->
  jwt_head r1 ++ x = y ++ l ->
  (List.length l <= 10)%nat ->
  exists x1, x = x1 ++ l /\ y = jwt_head r1 ++ x1.
Proof.
  intros Hlx E Hll.
  apply app_eq_app in E as (m & [(Ey & El)|(Ey & Ex)]).
  - assert (m = []) as ->.
    { destruct m; [reflexivity|]. rewrite El, length_app in Hll. cbn in Hll. lia. }
    exists []. cbn [app] in *. rewrite app_nil_r in Ey. subst l.
    split; [reflexivity|]. now rewrite app_nil_r.
  - exists m. split; [exact Ex|exact Ey].
Qed.

Lemma In_head r1 c :
  forallb tok r1 = true -> In c (jwt_head r1) -> tok c = true \/ c = dot.
Proof.
  intros Hr1 Hin. unfold jwt_head in Hin.
  change ("e"%char :: "y"%char :: "J"%char :: r1 ++ [dot])
    with (("e"%char :: "y"%char :: "J"%char :: r1) ++ [dot]) in Hin.
  apply in_app_or in Hin as [Hin|[<-|[]]]; [left|now right].
  now apply (head_tok r1).
Qed.

Lemma no_dots w : forallb tok w = true -> count_occ ascii_dec w dot = O.
Proof.
  induction w as [|c w IH]; cbn [forallb count_occ]; [reflexivity|].
  intro H. apply andb_prop in H as (Hc & Hw).
  destruct (ascii_dec c dot) as [->|_]; [vm_compute in Hc; discriminate|]. now apply IH.
Qed.

Lemma one_dot r1 x :
  forallb tok r1 = true -> forallb tok x = true ->
  count_occ ascii_dec (jwt_head r1 ++ x) dot = 1%nat.
Proof.
  intros Hr1 Hx. unfold jwt_head.
  change ("e"%char :: "y"%char :: "J"%char :: r1 ++ [dot])
    with (("e"%char :: "y"%char :: "J"%char :: r1) ++ [dot]).
  rewrite !count_occ_app, (no_dots x Hx).
  change ("e"%char :: "y"%char :: "J"%char :: r1)
    with (["e"%char; "y"%char; "J"%char] ++ r1).
  rewrite count_occ_app, (no_dots r1 Hr1). reflexivity.
Qed.

(** Two dots in a row cannot lie within a match: a match that begins
    before them ends before them. *)
Lemma jwt_barrier_dots y t z :
  jwt_at (y ++ dot :: dot :: t) = true -> jwt_at (y ++ z) = true.
Proof.
  intro H. apply jwt_overlap in H
    as (r1 & x & Hr1 & Hl1 & Hx & Hlx & [(l & ->)|(l & rest & Hl & Eb & Ew)]).
  - rewrite <- !app_assoc. apply jwt_intro'; trivial; lia.
  - exfalso. pose proof (one_dot r1 x Hr1 Hx) as Hone. rewrite Ew in Hone.
    destruct l as [|c0 [|c1 l]]; [congruence| |].
    + inversion Eb; subst c0.
      destruct (jwt_tail r1 x y [dot] Hlx Ew) as (x1 & -> & _); [cbn; lia|].
      apply forallb_last in Hx. vm_compute in Hx. discriminate.
    + inversion Eb; subst c0 c1.
      rewrite count_occ_app in Hone. cbn [count_occ] in Hone.
      destruct (ascii_dec dot dot) as [_|Hn]; [lia|now apply Hn].
Qed.

(** A match that begins before a replacement [jwt.***] and runs into it
    was already there when a match stood in the place of the
    replacement. *)
Lemma jwt_barrier_own y t z :
  jwt_at (y ++ str "jwt.***" ++ t) = true -> jwt_at z = true -> jwt_at (y ++ z) = true.
Proof.
  intros H Hz. apply jwt_overlap in H
    as (r1 & x & Hr1 & Hl1 & Hx & Hlx & [(l & ->)|(l & rest & Hl & Eb & Ew)]).
  - rewrite <- !app_assoc. apply jwt_intro'; trivial; lia.
  - change (str "jwt.***" ++ t)
      with ("j"%char :: "w"%char :: "t"%char :: dot :: "*"%char :: str "**" ++ t) in Eb.
    assert (Hshort : (List.length l <= 3)%nat ->
                     jwt_at (y ++ z) = true).
    { intro Hll. destruct (jwt_tail r1 x y l Hlx Ew) as (x1 & Ex & ->); [lia|].
      apply jwt_elim' in Hz as (q1 & xz & restz & -> & Hq1 & Hlq & _).
      subst x. rewrite forallb_app in Hx. apply andb_prop in Hx as (Hx1 & _).
      replace ((jwt_head r1 ++ x1) ++ jwt_head q1 ++ xz ++ restz)
        with (jwt_head r1 ++ (x1 ++ "e"%char :: "y"%char :: "J"%char :: q1)
                ++ (dot :: xz ++ restz)).
      - apply jwt_intro'; trivial.
        + rewrite forallb_app, Hx1. cbn [forallb andb]. exact Hq1.
        + rewrite length_app. cbn [List.length]. lia.
      - unfold jwt_head. cbn [app]. repeat (rewrite <- app_assoc; cbn [app]). reflexivity. }
    destruct l as [|c0 [|c1 [|c2 [|c3 [|c4 l]]]]];
      [congruence|apply Hshort; cbn; lia|apply Hshort; cbn; lia
      |apply Hshort; cbn; lia| |]; exfalso.
    + inversion Eb; subst.
      destruct (jwt_tail r1 x y _ Hlx Ew) as (x1 & -> & _); [cbn; lia|].
      change (x1 ++ ["j"%char; "w"%char; "t"%char; dot])
        with (x1 ++ ["j"%char; "w"%char; "t"%char] ++ [dot]) in Hx.
      rewrite app_assoc in Hx. apply forallb_last in Hx. vm_compute in Hx. discriminate.
    + inversion Eb; subst.
      assert (Hin : In "*"%char (jwt_head r1 ++ x)).
      { rewrite Ew. apply in_or_app. right. cbn. tauto. }
      apply in_app_or in Hin as [Hin|Hin].
      * apply (In_head r1) in Hin as [Hin|Hin]; trivial; [vm_compute in Hin|]; discriminate.
      * rewrite forallb_forall in Hx. specialize (Hx _ Hin). vm_compute in Hx. discriminate.
Qed.

End JwtBarrier.

(* ================================================================== *)
(** ** Error sanitisation *)

Module SanitizerFacts.
Import Regex Sanitizer RegexFacts ScanFacts AwsFacts JwtFacts JwtBarrier.
Local Open Scope list_scope.

Lemma exec_aws_pos s : exec false aws_key s <> Some O.
Proof. rewrite exec_aws. now destruct (aws_at s). Qed.

Lemma aws_in_own_placeholder j t :
  (j < List.length (str "AKIA***"))%nat -> aws_at (skipn j (str "AKIA***") ++ t) = false.
Proof.
  intro H.
  do 7 (destruct j as [|j]; [destruct t as [|? [|? [|? ?]]]; reflexivity|]).
  cbn in H. lia.
Qed.

Lemma aws_in_jwt_placeholder j t :
  (j < List.length (str "jwt.***"))%nat -> aws_at (skipn j (str "jwt.***") ++ t) = false.
Proof.
  intro H.
  do 7 (destruct j as [|j]; [destruct t as [|? [|? [|? ?]]]; reflexivity|]).
  cbn in H. lia.
Qed.

Lemma jwt_in_own_placeholder j t :
  (j < List.length (str "jwt.***"))%nat -> jwt_at (skipn j (str "jwt.***") ++ t) = false.
Proof.
  intro H.
  do 7 (destruct j as [|j]; [destruct t as [|? [|? [|? ?]]]; reflexivity|]).
  cbn in H. lia.
Qed.

(** After the fourth replacement no AWS key is left. *)
Lemma redact_aws_key_clean s : clean aws_at (redact_aws_key s).
Proof.
  unfold redact_aws_key.
  apply (replace_clean_gen false aws_key (str "AKIA***") eq_refl exec_aws_pos aws_at
           aws_in_own_placeholder) with (len := List.length s); trivial.
  - intros s0 Hh Hq.
    destruct (first_replacement false aws_key (str "AKIA***") eq_refl exec_aws_pos s0)
      as [E|(y & z & rest & -> & Hz & E)]; rewrite E in Hq; [exact Hq|].
    rewrite hit_aws in Hz. eapply aws_barrier_own; eauto.
  - intros m Hm. now rewrite hit_aws.
Qed.

(** The fifth replacement brings no AWS key back. *)
Lemma redact_jwt_keeps_aws_clean s : clean aws_at s -> clean aws_at (redact_jwt s).
Proof.
  intro Hs. unfold redact_jwt.
  apply (replace_clean_gen false jwt (str "jwt.***") eq_refl exec_jwt_pos aws_at
           aws_in_jwt_placeholder) with (len := List.length s); trivial.
  - intros s0 Hh Hq.
    destruct (first_replacement false jwt (str "jwt.***") eq_refl exec_jwt_pos s0)
      as [E|(y & z & rest & -> & Hz & E)]; rewrite E in Hq; [exact Hq|].
    eapply (aws_barrier y "j"%char); [reflexivity|exact Hq].
  - intros m Hm. rewrite (Hs m) in Hm. discriminate.
Qed.

(** After the fifth replacement no JWT is left. *)
Lemma redact_jwt_clean s : clean jwt_at (redact_jwt s).
Proof.
  unfold redact_jwt.
  apply (replace_clean_gen false jwt (str "jwt.***") eq_refl exec_jwt_pos jwt_at
           jwt_in_own_placeholder) with (len := List.length s); trivial.
  - intros s0 Hh Hq.
    destruct (first_replacement false jwt (str "jwt.***") eq_refl exec_jwt_pos s0)
      as [E|(y & z & rest & -> & Hz & E)]; rewrite E in Hq; [exact Hq|].
    rewrite hit_jwt in Hz. eapply jwt_barrier_own; eauto.
  - intros m Hm. now rewrite hit_jwt.
Qed.

(** Cutting a text and appending the marker brings no match in, for a
    pattern none of whose matches contains two dots in a row. *)
Lemma truncate_clean (hitQ : JsString -> bool) s :
  (forall y t z, hitQ (y ++ dot :: dot :: t) = true -> hitQ (y ++ z) = true) ->
  (forall j, hitQ (skipn j (str "... (truncated)")) = false) ->
  clean hitQ s -> clean hitQ (truncate s).
Proof.
  intros Hbar Hsuf Hs. unfold truncate.
  destruct (MAX_ERROR_LENGTH <? List.length s)%nat; [|exact Hs].
  intro n. set (m := MAX_ERROR_LENGTH).
  rewrite skipn_app.
  destruct (Nat.le_gt_cases n (List.length (firstn m s))) as [Hn|Hn].
  - replace (n - List.length (firstn m s))%nat with O by lia. cbn [skipn].
    destruct (hitQ (skipn n (firstn m s) ++ str "... (truncated)")) eqn:Hq; [|reflexivity].
    apply (Hbar _ _ (skipn m s)) in Hq.
    assert (E : skipn n s = skipn n (firstn m s) ++ skipn m s).
    { rewrite <- (firstn_skipn m s) at 1. rewrite skipn_app.
      now replace (n - List.length (firstn m s))%nat with O by lia. }
    rewrite <- E, (Hs n) in Hq. discriminate.
  - rewrite skipn_all2 by lia. cbn [app]. apply Hsuf.
Qed.

Lemma aws_in_marker j : aws_at (skipn j (str "... (truncated)")) = false.
Proof. do 16 (destruct j as [|j]; [reflexivity|]). reflexivity. Qed.

Lemma jwt_in_marker j : jwt_at (skipn j (str "... (truncated)")) = false.
Proof. do 16 (destruct j as [|j]; [reflexivity|]). reflexivity. Qed.

Lemma clean_test_aws s : clean aws_at s -> test false aws_key s = false.
Proof.
  intro H. apply test_false. intro n. rewrite exec_aws. now rewrite (H n).
Qed.

Lemma clean_test_jwt s : clean jwt_at s -> test false jwt s = false.
Proof.
  intro H. apply test_false. intro n. specialize (H n). rewrite <- hit_jwt in H.
  unfold hit in H. now destruct (exec false jwt (skipn n s)).
Qed.

Lemma truncate_length s : (List.length (truncate s) <= MAX_ERROR_LENGTH + 15)%nat.
Proof.
  unfold truncate.
  destruct (Nat.ltb_spec MAX_ERROR_LENGTH (List.length s)).
  - rewrite length_app, length_firstn. cbn [str list_ascii_of_string List.length]. lia.
  - lia.
Qed.



End SanitizerFacts.

(* ================================================================== *)
(** * Further properties of the components *)

Module SchedulerLaws.
Import Scheduler SchedulerFacts.

Local Open Scope Q_scope.

Section Rounded.

Variable fmul : Q -> Q -> Q.

(** The fields the constructor fixes are never written again. *)
Lemma recordResult_fixed found rate s :
  baseIntervalMs (recordResult fmul found rate s) = baseIntervalMs s
  /\ adaptiveScheduling (recordResult fmul found rate s) = adaptiveScheduling s
  /\ minIntervalMs (recordResult fmul found rate s) = minIntervalMs s
  /\ maxIntervalMs (recordResult fmul found rate s) = maxIntervalMs s.
Proof.
  unfold recordResult.
  destruct (negb (adaptiveScheduling s)); [repeat split|].
  destruct (negb (Qle_bool (8 # 10) rate)); [repeat split|].
  destruct (found =? 0)%Z; cbn; [|repeat split].
  destruct (3 <=? consecutiveEmptyRuns s + 1)%Z; repeat split.
Qed.

Lemma recordResults_fixed inputs s :
  baseIntervalMs (recordResults fmul inputs s) = baseIntervalMs s
  /\ adaptiveScheduling (recordResults fmul inputs s) = adaptiveScheduling s
  /\ minIntervalMs (recordResults fmul inputs s) = minIntervalMs s
  /\ maxIntervalMs (recordResults fmul inputs s) = maxIntervalMs s.
Proof.
  unfold recordResults. revert s.
  induction inputs as [|[found rate] inputs IH]; intro s; cbn [fold_left fst snd].
  - repeat split.
  - destruct (IH (recordResult fmul found rate s)) as (B & A & Mn & Mx).
    destruct (recordResult_fixed found rate s) as (B' & A' & Mn' & Mx').
    rewrite B, A, Mn, Mx. now repeat split.
Qed.

(** X1.  With [adaptiveScheduling] off, no sequence of results changes
    the scheduler: the interval stays the base interval. *)
Theorem fixed_schedule_when_not_adaptive base inputs :
  let config := {| cfg_baseIntervalMs := base; cfg_adaptiveScheduling := false |} in
  recordResults fmul inputs (constructor config) = constructor config
  /\ getCurrentInterval (recordResults fmul inputs (constructor config))
     = Qfloor (base + (1 # 2)).
Proof.
  cbv zeta.
  assert (E : forall s, adaptiveScheduling s = false -> recordResults fmul inputs s = s).
  { unfold recordResults. induction inputs as [|[found rate] inputs IH]; intros s Hs; cbn.
    - reflexivity.
    - unfold recordResult at 2. rewrite Hs. cbn. now apply IH. }
  rewrite E by reflexivity. split; reflexivity.
Qed.

Lemma recordResults_app inputs1 inputs2 s :
  recordResults fmul (inputs1 ++ inputs2) s
  = recordResults fmul inputs2 (recordResults fmul inputs1 s).
Proof. unfold recordResults. apply fold_left_app. Qed.

(** X2.  Cycles that find no stuck job lengthen the interval from the
    third in a row on: after [n] such cycles, counted from a scheduler
    whose counter is at zero, the counter is [n] and the interval has been
    lengthened [n - 2] times, each time to [min(current * 1.5, max)]. *)
Theorem empty_cycles_lengthen_from_the_third rates s :
  adaptiveScheduling s = true ->
  consecutiveEmptyRuns s = 0%Z ->
  (forall r, In r rates -> 8 # 10 <= r) ->
  let s' := recordResults fmul (map (fun r => (0%Z, r)) rates) s in
  consecutiveEmptyRuns s' = Z.of_nat (List.length rates)
  /\ currentIntervalMs s'
     = Nat.iter (List.length rates - 2)
         (fun c => Math_min (fmul c (3 # 2)) (maxIntervalMs s)) (currentIntervalMs s).
Proof.
  intros Ha H0. cbv zeta. induction rates as [|r rates IH] using rev_ind; intro Hr.
  - cbn. now split.
  - destruct IH as (Hn & Hc).
    { intros r' Hin. apply Hr. apply in_or_app. now left. }
    rewrite map_app, recordResults_app. cbn [map].
    set (s' := recordResults fmul (map (fun r0 => (0%Z, r0)) rates) s) in *.
    destruct (recordResults_fixed (map (fun r0 => (0%Z, r0)) rates) s) as (_ & A & _ & Mx).
    fold s' in A, Mx.
    unfold recordResults; cbn [fold_left fst snd]. unfold recordResult.
    rewrite A, Ha. cbn [negb].
    assert (Hle : Qle_bool (8 # 10) r = true).
    { apply Qle_bool_iff. apply Hr. apply in_or_app. right. now left. }
    rewrite Hle. cbn [negb Z.eqb]. cbv zeta.
    rewrite length_app. cbn [List.length].
    destruct (Z.leb_spec 3 (consecutiveEmptyRuns (set_empty s' (consecutiveEmptyRuns s' + 1)))) as [H3|H3];
      cbn in H3 |- *; rewrite Hn in *.
    + split; [lia|]. rewrite Mx, Hc.
      replace (List.length rates + 1 - 2)%nat with (S (List.length rates - 2)) by lia.
      reflexivity.
    + split; [lia|]. rewrite Hc.
      replace (List.length rates + 1 - 2)%nat with O by lia.
      replace (List.length rates - 2)%nat with O by lia. reflexivity.
Qed.

Hypothesis fmul_grows : forall c, 0 <= c -> c <= fmul c (3 # 2).
Hypothesis fmul_shrinks : forall c, 0 <= c -> fmul c (8 # 10) <= c.

(** The delay handed to the timer is never below five seconds nor
    above four times the base, rounded, when the base is at least 5000 ms. *)
Lemma timer_delay_bounds config inputs :
  5000 <= cfg_baseIntervalMs config ->
  let s := recordResults fmul inputs (constructor config) in
  (5000 <= getCurrentInterval s)%Z
  /\ (getCurrentInterval s <= Qfloor (cfg_baseIntervalMs config * 4 + (1 # 2)))%Z.
Proof.
  intros Hbase s.
  destruct (recordResults_ordered fmul fmul_grows fmul_shrinks (cfg_baseIntervalMs config)
              inputs (constructor config)) as ((_ & Hlo & Hhi) & Hmin & Hmax).
  { split; [now apply constructor_ordered|]. now split. }
  fold s in Hlo, Hhi, Hmin, Hmax. unfold getCurrentInterval. split.
  - change 5000%Z with (Qfloor 5000). apply Qfloor_resp_le.
    apply Qle_trans with (currentIntervalMs s).
    + apply Qle_trans with (minIntervalMs s); [|exact Hlo].
      rewrite Hmin. apply Math_max_l.
    + rewrite <- (Qplus_0_r (currentIntervalMs s)) at 1.
      apply Qplus_le_r. discriminate.
  - apply Qfloor_resp_le. apply Qplus_le_l. now rewrite <- Hmax.
Qed.

End Rounded.

Lemma empty_cycles_lengthen_from_the_third_witness :
  let s := constructor {| cfg_baseIntervalMs := 30000; cfg_adaptiveScheduling := true |} in
  let s' := recordResults Qmult (map (fun r => (0%Z, r)) [1; 1; 9 # 10; 1]) s in
  consecutiveEmptyRuns s' = 4%Z
  /\ currentIntervalMs s'
     = Nat.iter 2 (fun c => Math_min (Qmult c (3 # 2)) (maxIntervalMs s)) (currentIntervalMs s).
Proof.
  apply (empty_cycles_lengthen_from_the_third Qmult [1; 1; 9 # 10; 1]
           (constructor {| cfg_baseIntervalMs := 30000; cfg_adaptiveScheduling := true |})).
  - reflexivity.
  - reflexivity.
  - intros r [<-|[<-|[<-|[<-|[]]]]]; vm_compute; discriminate.
Defined.

Lemma timer_delay_bounds_witness :
  let s := recordResults Qmult [(3%Z, 1); (1%Z, 1); (4%Z, 1); (0%Z, 1 # 10)]
             (constructor {| cfg_baseIntervalMs := 30000; cfg_adaptiveScheduling := true |}) in
  (5000 <= getCurrentInterval s)%Z
  /\ (getCurrentInterval s <= Qfloor (30000 * 4 + (1 # 2)))%Z.
Proof.
  apply (timer_delay_bounds Qmult Qmult_grows Qmult_shrinks
           {| cfg_baseIntervalMs := 30000; cfg_adaptiveScheduling := true |}).
  vm_compute. discriminate.
Defined.

End SchedulerLaws.

Module CircuitBreakerLaws.
Import CircuitBreaker CircuitBreakerFacts.

(** A call that returns leaves the breaker closed with no failure
    counted. *)
Lemma execute_returned_closed {W A} clk (fn : W -> W * Outcome A) cb w cb' w' v :
  execute clk fn cb w = (cb', w', Returned v) ->
  state cb' = CLOSED /\ failureCount cb' = 0 /\ threshold cb' = threshold cb.
Proof.
  destruct (execute_cases clk fn cb w) as [(_ & _ & E)|E]; rewrite E.
  - discriminate.
  - destruct (fn w) as [w1 [v1|e1]]; [|discriminate].
    intro H. inversion H; subst; clear H. unfold onSuccess, entered.
    destruct (state cb) eqn:Hst; cbn; rewrite ?Hst; repeat split.
Qed.

(** The threshold is fixed at construction. *)
Lemma execute_threshold {W A} clk (fn : W -> W * Outcome A) cb w :
  threshold (fst (fst (execute clk fn cb w))) = threshold cb.
Proof.
  destruct (execute_cases clk fn cb w) as [(_ & _ & E)|E]; rewrite E.
  - reflexivity.
  - destruct (fn w) as [w1 [v1|e1]]; cbn; apply threshold_entered.
Qed.

Lemma executeAll_threshold {W A} (calls : list (Clock * (W -> W * Outcome A))) cb w :
  threshold (fst (executeAll calls cb w)) = threshold cb.
Proof.
  revert cb w. induction calls as [|[clk fn] calls IH]; intros cb w; cbn; [reflexivity|].
  pose proof (execute_threshold clk fn cb w) as H.
  destruct (execute clk fn cb w) as [[cb' w'] out]. cbn in H. now rewrite IH.
Qed.

(** X3.  Failures only open the breaker in a row: fewer than the
    threshold, then a call that returns, then again fewer than the
    threshold, leave the breaker closed. *)
Theorem success_resets_the_failure_count {W A : Type}
    (before after : list (Clock * (W -> W * Outcome A))) clk
    (fn : W -> W * Outcome A) cb w :
  state cb = CLOSED ->
  failureCount cb = 0 ->
  Z.of_nat (List.length before) < threshold cb ->
  Z.of_nat (List.length after) < threshold cb ->
  (forall c f, In (c, f) (before ++ after) -> forall w', isThrown (snd (f w')) = true) ->
  (forall w', isThrown (snd (fn w')) = false) ->
  state (fst (executeAll (before ++ (clk, fn) :: after) cb w)) = CLOSED.
Proof.
  intros Hst Hc Hb Ha Hfail Hok.
  rewrite executeAll_app. cbn [executeAll].
  set (cb1 := fst (executeAll before cb w)). set (w1 := snd (executeAll before cb w)).
  assert (H1 : state cb1 = CLOSED).
  { apply closed_run; trivial; try lia.
    intros c f Hin. apply (Hfail c f). apply in_or_app. now left. }
  assert (T1 : threshold cb1 = threshold cb) by apply executeAll_threshold.
  destruct (execute clk fn cb1 w1) as [[cb2 w2] [v|e]] eqn:E.
  - apply execute_returned_closed in E as (S2 & C2 & T2).
    apply closed_run; trivial; try lia.
    intros c f Hin. apply (Hfail c f). apply in_or_app. now right.
  - exfalso. rewrite execute_runs in E by congruence.
    specialize (Hok w1). destruct (fn w1) as [w' [v'|e']]; [discriminate|discriminate].
Qed.

(** The shape of every breaker that calls can leave behind. *)
Lemma settled_step {W A} clk (fn : W -> W * Outcome A) cb w :
  state cb <> HALF_OPEN ->
  (state cb = OPEN -> threshold cb <= failureCount cb) ->
  0 <= failureCount cb -> 0 <= successCount cb ->
  let cb' := fst (fst (execute clk fn cb w)) in
  state cb' <> HALF_OPEN
  /\ (state cb' = OPEN -> threshold cb' <= failureCount cb')
  /\ 0 <= failureCount cb' /\ 0 <= successCount cb'.
Proof.
  intros Hh Ho Hf Hs. cbv zeta.
  destruct (execute_cases clk fn cb w) as [(Hst & _ & E)|E]; rewrite E.
  - cbn. repeat split; trivial.
  - destruct (fn w) as [w1 [v1|e1]]; cbn [fst].
    + unfold onSuccess, entered. destruct (state cb) eqn:Hst; cbn; rewrite ?Hst;
        repeat split; try congruence; try lia.
    + unfold onFailure. cbn [state failureCount threshold successCount].
      rewrite threshold_entered, failureCount_entered.
      destruct (Z.leb_spec (threshold cb) (failureCount cb + 1)).
      * repeat split; try congruence; try lia.
        unfold entered. destruct (state cb); cbn; lia.
      * assert (Hc : state cb = CLOSED).
        { destruct (state cb) eqn:Hst; [reflexivity| |congruence].
          specialize (Ho eq_refl). lia. }
        unfold entered. rewrite Hc. cbn. rewrite Hc.
        repeat split; try congruence; try lia.
Qed.

(** X4.  Between calls the breaker is never half-open: whatever the calls
    made on a breaker since its construction, it is closed or open, and
    when it is open the count of consecutive failures has reached the
    threshold. *)
Theorem breaker_rests_closed_or_open {W A : Type} config
    (calls : list (Clock * (W -> W * Outcome A))) w :
  let cb := fst (executeAll calls (constructor config) w) in
  state cb <> HALF_OPEN
  /\ (state cb = OPEN -> cfg_threshold config <= failureCount cb)
  /\ 0 <= failureCount cb
  /\ 0 <= successCount cb
  /\ threshold cb = cfg_threshold config.
Proof.
  cbv zeta.
  assert (G : forall cb w,
             state cb <> HALF_OPEN ->
             (state cb = OPEN -> threshold cb <= failureCount cb) ->
             0 <= failureCount cb -> 0 <= successCount cb ->
             let cb' := fst (executeAll calls cb w) in
             state cb' <> HALF_OPEN
             /\ (state cb' = OPEN -> threshold cb' <= failureCount cb')
             /\ 0 <= failureCount cb' /\ 0 <= successCount cb').
  { induction calls as [|[clk fn] calls IH]; intros cb w0 Hh Ho Hf Hs; cbn [executeAll].
    - cbv zeta. now repeat split.
    - pose proof (settled_step clk fn cb w0 Hh Ho Hf Hs) as H. cbv zeta in H.
      destruct (execute clk fn cb w0) as [[cb' w'] out]. cbn [fst] in H.
      destruct H as (H1 & H2 & H3 & H4). now apply IH. }
  specialize (G (constructor config) w). cbv zeta in G.
  rewrite executeAll_threshold in G. cbn [constructor threshold] in G.
  destruct G as (G1 & G2 & G3 & G4); cbn; try lia; try congruence.
  repeat split; trivial. apply executeAll_threshold.
Qed.

(** X5.  A probe that fails opens the breaker again and restarts the
    recovery time from the moment of that failure. *)
Theorem failed_probe_reopens {W A : Type} clk (fn : W -> W * Outcome A) cb w w' e :
  state cb = OPEN ->
  threshold cb <= failureCount cb ->
  timeout cb < t_check clk - lastFailureTime cb ->
  fn w = (w', Thrown e) ->
  exists cb',
    execute clk fn cb w = (cb', w', Thrown e)
    /\ state cb' = OPEN
    /\ lastFailureTime cb' = t_done clk
    /\ failureCount cb' = failureCount cb + 1.
Proof.
  intros Hst Hc Hw Hfn. rewrite execute_runs by (intros _; exact Hw). rewrite Hfn.
  eexists. split; [reflexivity|]. unfold onFailure.
  cbn [state lastFailureTime failureCount]. rewrite threshold_entered, failureCount_entered.
  destruct (Z.leb_spec (threshold cb) (failureCount cb + 1)); [|lia]. now repeat split.
Qed.

Lemma pruneOldCalls_absorbs now1 now2 cb :
  now1 <= now2 -> pruneOldCalls now2 (pruneOldCalls now1 cb) = pruneOldCalls now2 cb.
Proof.
  intro H. unfold pruneOldCalls. cbn. f_equal.
  induction (callHistory cb) as [|c l IH]; cbn; [reflexivity|].
  unfold windowMs in *.
  destruct (now1 - 60000 <? call_timestamp c) eqn:E1;
    destruct (now2 - 60000 <? call_timestamp c) eqn:E2; cbn; rewrite ?E2;
    try (now rewrite IH).
  apply Z.ltb_ge in E1. apply Z.ltb_lt in E2. lia.
Qed.

(** Reading the metrics does not change what a later reading
    reports: with a clock that does not run backwards, the metrics read
    at [now2] are the same whether or not they were read at [now1]
    before. *)
Lemma metrics_are_not_disturbed_by_reading (fdiv fmul : Q -> Q -> Q) now1 now2 cb :
  now1 <= now2 ->
  getMetrics fdiv fmul now2 (fst (getMetrics fdiv fmul now1 cb))
  = getMetrics fdiv fmul now2 cb.
Proof.
  intro H. unfold getMetrics. cbn [fst]. now rewrite pruneOldCalls_absorbs.
Qed.

Lemma success_resets_the_failure_count_witness :
  let cb0 := constructor {| cfg_threshold := 3; cfg_timeout := 1000; cfg_name := "db" |} in
  let boom := failing (fun n : nat => S n) (PlainError "failure") in
  state (fst (executeAll ([(Sample.tick 10, boom); (Sample.tick 20, boom)]
                          ++ (Sample.tick 30, fun n : nat => (S n, Returned tt))
                             :: [(Sample.tick 40, boom); (Sample.tick 50, boom)]) cb0 O))
  = CLOSED.
Proof.
  cbv zeta.
  apply (success_resets_the_failure_count
           [(Sample.tick 10, failing (fun n : nat => S n) (PlainError "failure"));
            (Sample.tick 20, failing (fun n : nat => S n) (PlainError "failure"))]
           [(Sample.tick 40, failing (fun n : nat => S n) (PlainError "failure"));
            (Sample.tick 50, failing (fun n : nat => S n) (PlainError "failure"))]).
  - reflexivity.
  - reflexivity.
  - cbn; lia.
  - cbn; lia.
  - intros c f [E|[E|[E|[E|[]]]]] w'; inversion E; reflexivity.
  - intro w'. reflexivity.
Defined.

Lemma failed_probe_reopens_witness :
  let cb0 := constructor {| cfg_threshold := 2; cfg_timeout := 1000; cfg_name := "db" |} in
  let boom := failing (fun n : nat => S n) (PlainError "failure") in
  let cb2 := fst (executeAll [(Sample.tick 10, boom); (Sample.tick 20, boom)] cb0 O) in
  exists cb',
    execute (Sample.tick 5000) boom cb2 2%nat = (cb', 3%nat, Thrown (PlainError "failure"))
    /\ state cb' = OPEN
    /\ lastFailureTime cb' = 5000
    /\ failureCount cb' = failureCount cb2 + 1.
Proof.
  cbv zeta.
  apply (failed_probe_reopens (Sample.tick 5000)
           (failing (fun n : nat => S n) (PlainError "failure"))).
  - reflexivity.
  - cbn; lia.
  - cbn; lia.
  - reflexivity.
Defined.

End CircuitBreakerLaws.

Module ConnectionManagerLaws.
Import ConnectionManager.

Lemma monitorAll_snoc readings p m :
  monitorAll (readings ++ [p]) m = monitor p (monitorAll readings m).
Proof. unfold monitorAll. now rewrite fold_left_app. Qed.

Lemma exhaustedRun_snoc readings p :
  exhaustedRun (readings ++ [p])
  = if isExhausted p then exhaustedRun readings + 1 else 0.
Proof. unfold exhaustedRun. now rewrite fold_left_app. Qed.

Lemma exhaustedRun_nonneg readings : 0 <= exhaustedRun readings.
Proof.
  induction readings as [|p readings IH] using rev_ind; [reflexivity|].
  rewrite exhaustedRun_snoc. destruct (isExhausted p); lia.
Qed.

(** The counter of the manager is the length of the run of exhausted
    readings it has just seen, and the flag tells whether that run has
    reached three. *)
Lemma monitorAll_counts readings :
  consecutiveExhaustionChecks (monitorAll readings constructor) = exhaustedRun readings
  /\ poolExhausted (monitorAll readings constructor) = (3 <=? exhaustedRun readings).
Proof.
  induction readings as [|p readings IH] using rev_ind; [now split|].
  destruct IH as (Hc & Hf). rewrite monitorAll_snoc, exhaustedRun_snoc.
  pose proof (exhaustedRun_nonneg readings) as Hn.
  unfold monitor, monitorTick. fold (isExhausted p).
  destruct (isExhausted p); cbn [consecutiveExhaustionChecks poolExhausted].
  - rewrite Hc, Hf. split; [reflexivity|]. unfold MAX_EXHAUSTION_CHECKS.
    destruct (Z.leb_spec 3 (exhaustedRun readings + 1)); [reflexivity|].
    destruct (Z.leb_spec 3 (exhaustedRun readings)); [lia|reflexivity].
  - rewrite Hc, Hf.
    destruct ((0 <? exhaustedRun readings) || (3 <=? exhaustedRun readings)) eqn:E;
      cbn [consecutiveExhaustionChecks poolExhausted].
    + now split.
    + apply orb_false_elim in E as (E1 & E2). rewrite Hc, Hf.
      apply Z.ltb_ge in E1. split; [lia|]. exact E2.
Qed.

Lemma exhaustedRun_three readings :
  3 <= exhaustedRun readings <->
  exists before p1 p2 p3,
    readings = before ++ [p1; p2; p3]
    /\ isExhausted p1 = true /\ isExhausted p2 = true /\ isExhausted p3 = true.
Proof.
  split.
  - intro H.
    destruct readings as [|p3 r] using rev_ind; [cbn in H; lia|]. clear IHr.
    rewrite exhaustedRun_snoc in H. destruct (isExhausted p3) eqn:E3; [|lia].
    destruct r as [|p2 r] using rev_ind; [cbn in H; lia|]. clear IHr.
    rewrite exhaustedRun_snoc in H. destruct (isExhausted p2) eqn:E2; [|lia].
    destruct r as [|p1 r] using rev_ind; [cbn in H; lia|]. clear IHr.
    rewrite exhaustedRun_snoc in H. destruct (isExhausted p1) eqn:E1; [|lia].
    exists r, p1, p2, p3. rewrite <- !app_assoc. cbn. now repeat split.
  - intros (before & p1 & p2 & p3 & -> & E1 & E2 & E3).
    change [p1; p2; p3] with ([p1] ++ [p2] ++ [p3]). rewrite !app_assoc.
    rewrite !exhaustedRun_snoc, E1, E2, E3.
    pose proof (exhaustedRun_nonneg before). lia.
Qed.

(** X6.  The health check rejects exactly when the last three readings
    of the monitor all showed an exhausted pool: two such readings are
    not enough, and one reading of a pool with an idle client or below
    its size clears the flag. *)
Theorem pool_is_rejected_after_three_exhausted_readings readings :
  isThrown (checkPoolHealth (monitorAll readings constructor)) = true <->
  exists before p1 p2 p3,
    readings = before ++ [p1; p2; p3]
    /\ isExhausted p1 = true /\ isExhausted p2 = true /\ isExhausted p3 = true.
Proof.
  rewrite <- exhaustedRun_three. unfold checkPoolHealth.
  destruct (monitorAll_counts readings) as (_ & ->).
  destruct (Z.leb_spec 3 (exhaustedRun readings)); cbn; split; trivial; try lia; discriminate.
Qed.

End ConnectionManagerLaws.

Module TableLaws.
Import Job Sql Repository SqlFacts RepositoryFacts HarvestFacts.

Lemma unique_active_filter (keep : JobRecord -> bool) tbl :
  unique_active tbl = true -> unique_active (filter keep tbl) = true.
Proof.
  induction tbl as [|r tbl IH]; cbn; [trivial|].
  intro H. apply andb_prop in H as (Hr & Ht).
  destruct (keep r); cbn; [|now apply IH].
  rewrite (IH Ht), andb_true_r.
  destruct (active r); cbn in *; [|reflexivity].
  apply negb_true_iff in Hr. apply negb_true_iff.
  apply not_true_iff_false. intro E. apply not_true_iff_false in Hr. apply Hr.
  apply existsb_exists in E as (x & Hx & Ex). apply filter_In in Hx as (Hx & _).
  apply existsb_exists. now exists x.
Qed.

Lemma NoDup_ids_filter (keep : JobRecord -> bool) tbl :
  NoDup (map id tbl) -> NoDup (map id (filter keep tbl)).
Proof.
  induction tbl as [|r tbl IH]; cbn; [trivial|].
  intro H. inversion H; subst. destruct (keep r); cbn; [|now apply IH].
  constructor; [|now apply IH]. intro Hin. apply H2.
  apply in_map_iff in Hin as (x & E & Hx). apply filter_In in Hx as (Hx & _).
  apply in_map_iff. now exists x.
Qed.

Lemma same_key_sym r x :
  same_key (queue_name r) (queue_type r) (job_id r) x
  = same_key (queue_name x) (queue_type x) (job_id x) r.
Proof.
  unfold same_key. rewrite (String.eqb_sym (queue_name x)), (String.eqb_sym (job_id x)).
  destruct (queue_type x), (queue_type r); reflexivity.
Qed.

Lemma unique_active_snoc tbl row :
  unique_active tbl = true ->
  active row = false
  \/ existsb (fun r => active r && same_key (queue_name row) (queue_type row) (job_id row) r)
       tbl = false ->
  unique_active (tbl ++ [row]) = true.
Proof.
  induction tbl as [|r tbl IH]; cbn.
  - intros _ _. now rewrite orb_true_r.
  - intros H E. apply andb_prop in H as (Hr & Ht).
    rewrite IH, andb_true_r.
    + destruct (active r) eqn:Ha; cbn in *; [|reflexivity].
      apply negb_true_iff in Hr. apply negb_true_iff.
      rewrite existsb_app, Hr. cbn. rewrite orb_false_r.
      destruct E as [E|E]; [now rewrite E|].
      apply orb_false_elim in E as (Er & _). rewrite same_key_sym, Er.
      apply andb_false_r.
    + exact Ht.
    + destruct E as [E|E]; [now left|right]. now apply orb_false_elim in E.
Qed.

Lemma UPDATE_well_formed now sel f tbl rows tbl' :
  (forall r, id (f r) = id r) ->
  NoDup (map id tbl) ->
  UPDATE now sel f tbl = Returned (rows, tbl') ->
  well_formed tbl'.
Proof.
  intros Hid Hnd. unfold UPDATE.
  destruct (unique_active (update_rows now sel f tbl)) eqn:U; [|discriminate].
  intro E. inversion E; subst. split; [|exact U]. now rewrite ids_update_rows.
Qed.

Lemma UPDATE_JOB_STATUS_sound now s q t j : sound (UPDATE_JOB_STATUS now s q t j).
Proof. intros tbl rows tbl' [Hnd _]. now apply UPDATE_well_formed. Qed.

Lemma UPDATE_JOB_ERROR_sound now err q t j : sound (UPDATE_JOB_ERROR now err q t j).
Proof.
  intros tbl rows tbl' [Hnd _]. unfold UPDATE_JOB_ERROR.
  destruct (forallb _ _); [|discriminate]. now apply UPDATE_well_formed.
Qed.

Lemma UPDATE_HEARTBEAT_sound now q t j : sound (UPDATE_HEARTBEAT now q t j).
Proof. intros tbl rows tbl' [Hnd _]. now apply UPDATE_well_formed. Qed.

Lemma MARK_AS_STUCK_sound now ids : sound (MARK_AS_STUCK now ids).
Proof. intros tbl rows tbl' [Hnd _]. now apply UPDATE_well_formed. Qed.

Lemma BULK_UPDATE_STATUS_sound now s ids : sound (BULK_UPDATE_STATUS now s ids).
Proof. intros tbl rows tbl' [Hnd _]. now apply UPDATE_well_formed. Qed.

Lemma BULK_MARK_DEAD_sound now ids : sound (BULK_MARK_DEAD now ids).
Proof. intros tbl rows tbl' [Hnd _]. now apply UPDATE_well_formed. Qed.

Lemma GET_STUCK_JOBS_sound now locked q thr batch : sound (GET_STUCK_JOBS now locked q thr batch).
Proof.
  intros tbl rows tbl' H E. apply GET_STUCK_JOBS_spec in E as (-> & _). exact H.
Qed.

Lemma GET_JOB_sound q t j : sound (GET_JOB q t j).
Proof. intros tbl rows tbl' H E. inversion E; now subst. Qed.

Lemma DELETE_OLD_JOBS_sound tz now days : sound (DELETE_OLD_JOBS tz now days).
Proof.
  intros tbl rows tbl' [Hnd Hu] E. inversion E; subst. split.
  - now apply NoDup_ids_filter.
  - now apply unique_active_filter.
Qed.

Lemma INSERT_JOB_sound jin now newid q t j jname json s att maxAtt :
  sound (INSERT_JOB jin now newid q t j jname json s att maxAtt).
Proof.
  intros tbl rows tbl' [Hnd Hu]. unfold INSERT_JOB.
  destruct (jsonb_opt jin json) as [document|e]; [|discriminate].
  destruct (varchar 100 q) as [q'|]; [|discriminate].
  destruct (varchar 100 j) as [j'|]; [|discriminate].
  destruct (varchar_opt 100 jname) as [jname'|]; [|discriminate].
  destruct (negb _); [discriminate|].
  destruct document as [text|]; [|discriminate].
  destruct (existsb _ tbl) eqn:C.
  - now apply UPDATE_well_formed.
  - destruct (existsb (fun r => id r =? newid) tbl) eqn:N; [discriminate|].
    intro E. inversion E; subst. split.
    + rewrite map_app. cbn. apply NoDup_app; [exact Hnd|constructor; [intros []|constructor]|].
      intros i Hi [<-|[]]. apply in_map_iff in Hi as (x & Ex & Hx).
      apply not_true_iff_false in N. apply N. apply existsb_exists. exists x.
      split; [exact Hx|]. now apply Z.eqb_eq.
    + apply unique_active_snoc; [exact Hu|]. unfold active at 1. cbn.
      destruct (isTerminal s) eqn:Hs; [now left|right].
      apply not_true_iff_false. intro Ex. apply not_true_iff_false in C. apply C.
      apply existsb_exists in Ex as (x & Hx & Ex). apply existsb_exists. exists x.
      split; [exact Hx|]. apply andb_prop in Ex as (Ea & Ek). now rewrite Ea, Ek.
Qed.

Lemma guarded_keeps {A} env (fn : Db -> Db * Outcome A) r :
  (forall db, well_formed (fst db) -> well_formed (fst (fst (fn db)))) ->
  well_formed (table r) -> well_formed (table (fst (guarded env fn r))).
Proof.
  intros Hfn H. destruct (guarded_table env fn r) as [E|E]; rewrite E; [exact H|].
  now apply (Hfn (table r, logger r)).
Qed.

Lemma query_keeps env stmt tbl :
  sound stmt -> well_formed tbl -> well_formed (fst (query env stmt tbl)).
Proof.
  intros Hs H. destruct (query_table env stmt tbl) as [E|(rows & E)].
  - now rewrite E.
  - now apply (Hs tbl rows).
Qed.

Lemma first_row_or_null_keeps env stmt missing found :
  sound stmt -> keeps_well_formed (fun r => fst (first_row_or_null env stmt missing found r)).
Proof.
  intros Hs r H. unfold first_row_or_null. apply guarded_keeps; [|exact H].
  intros db Hdb. pose proof (query_keeps env stmt (fst db) Hs Hdb) as Q.
  destruct (query env stmt (fst db)) as [tbl' [[|row rows]|e]]; exact Q.
Qed.

Lemma all_rows_keeps env stmt :
  sound stmt -> keeps_well_formed (fun r => fst (all_rows env stmt r)).
Proof.
  intros Hs r H. unfold all_rows. apply guarded_keeps; [|exact H].
  intros db Hdb. pose proof (query_keeps env stmt (fst db) Hs Hdb) as Q.
  destruct (query env stmt (fst db)) as [tbl' out]; exact Q.
Qed.

Lemma harvest_keeps env q thr batch tbl :
  well_formed tbl -> well_formed (fst (harvest env q thr batch tbl)).
Proof.
  intro H. unfold harvest.
  destruct (GET_STUCK_JOBS _ _ q thr batch tbl) as [[sel tbl1]|e] eqn:G; [|exact H].
  pose proof (GET_STUCK_JOBS_sound _ _ _ _ _ _ _ _ H G) as H1.
  destruct sel as [|x sel]; [exact H1|].
  destruct (MARK_AS_STUCK _ _ tbl1) as [[rows2 tbl2]|e] eqn:M; [|exact H1].
  pose proof (MARK_AS_STUCK_sound _ _ _ _ _ H1 M) as H2.
  destruct (deadJobIds _); [exact H2|].
  destruct (BULK_MARK_DEAD _ _ tbl2) as [[rows3 tbl3]|e] eqn:K; [|exact H2].
  exact (BULK_MARK_DEAD_sound _ _ _ _ _ H2 K).
Qed.

(** X7.  The primary key and the partial unique index hold after every
    repository call if they held before: identifiers stay distinct and
    no two rows that are not terminal share queue, type and job id. *)
Theorem constraints_hold_after_every_call env :
  (forall q t j jname d maxAtt,
     keeps_well_formed (fun r => fst (createJob env q t j jname d maxAtt r)))
  /\ (forall q t j s, keeps_well_formed (fun r => fst (updateJobStatus env q t j s r)))
  /\ (forall q t j err, keeps_well_formed (fun r => fst (updateJobError env q t j err r)))
  /\ (forall q t j, keeps_well_formed (fun r => fst (updateHeartbeat env q t j r)))
  /\ (forall q thr batch,
        keeps_well_formed (fun r => fst (getAndMarkStuckJobs env q thr batch r)))
  /\ (forall days, keeps_well_formed (fun r => fst (deleteOldJobs env days r)))
  /\ (forall ids s, keeps_well_formed (fun r => fst (bulkUpdateStatus env ids s r)))
  /\ (forall ids, keeps_well_formed (fun r => fst (bulkMarkDead env ids r)))
  /\ (forall ids, keeps_well_formed (fun r => fst (markJobsAsStuck env ids r))).
Proof.
  split; [|split; [|split; [|split; [|split; [|split; [|split; [|split]]]]]]].
  - intros q t j jname d maxAtt r H. unfold createJob. apply guarded_keeps; [|exact H].
    intros db Hdb. destruct (stringify d) as [json|e]; [|exact Hdb].
    match goal with |- context [query env ?stmt (fst db)] =>
      pose proof (query_keeps env stmt (fst db) (INSERT_JOB_sound _ _ _ _ _ _ _ _ _ _ _) Hdb) as Q;
      destruct (query env stmt (fst db)) as [tbl' [[|row rows]|e]]; exact Q
    end.
  - intros q t j s. apply first_row_or_null_keeps, UPDATE_JOB_STATUS_sound.
  - intros q t j err. apply first_row_or_null_keeps, UPDATE_JOB_ERROR_sound.
  - intros q t j. apply first_row_or_null_keeps, UPDATE_HEARTBEAT_sound.
  - intros q thr batch r H. unfold getAndMarkStuckJobs.
    destruct (checkHealth r); [|exact H]. unfold withTransaction.
    apply guarded_keeps; [|exact H]. intros db Hdb.
    destruct (fault env); [exact Hdb|].
    pose proof (harvest_keeps env q thr batch (fst db) Hdb) as Q.
    destruct (harvest env q thr batch (fst db)) as [tbl' [v|e]]; [|exact Hdb].
    destruct (reply_lost env); exact Q.
  - intros days r H. unfold deleteOldJobs.
    pose proof (all_rows_keeps env _ (DELETE_OLD_JOBS_sound (time_zone env) (sql_now env) days) r H) as Q.
    cbn beta in Q.
    destruct (all_rows env _ r) as [r' [rows|e]]; exact Q.
  - intros ids s r H. unfold bulkUpdateStatus. destruct ids; [exact H|].
    now apply (all_rows_keeps env _ (BULK_UPDATE_STATUS_sound _ _ _)).
  - intros ids r H. unfold bulkMarkDead. destruct ids; [exact H|].
    now apply (all_rows_keeps env _ (BULK_MARK_DEAD_sound _ _)).
  - intros ids. apply all_rows_keeps, MARK_AS_STUCK_sound.
Qed.


Lemma sample_well_formed : well_formed Sample.table.
Proof.
  split; [|reflexivity]. cbn. repeat constructor; cbn; intuition discriminate.
Qed.

Local Open Scope string_scope.

Lemma constraints_hold_after_every_call_witness :
  well_formed (table (fst (createJob Sample.env "mail" bull "j9" (Some "send")
                             (Serializable "{}") 3 Sample.repository)))
  /\ well_formed (table (fst (getAndMarkStuckJobs Sample.env "mail" 300000 100
                                Sample.repository))).
Proof.
  destruct (constraints_hold_after_every_call Sample.env)
    as (Hc & _ & _ & _ & Hg & _).
  split.
  - exact (Hc "mail" bull "j9" (Some "send") (Serializable "{}") 3 Sample.repository
             sample_well_formed).
  - exact (Hg "mail" 300000 100 Sample.repository sample_well_formed).
Defined.

End TableLaws.

Module RollbackLaws.
Import Job Sql Repository SqlFacts RepositoryFacts HarvestFacts.

Lemma guarded_thrown {A} env (fn : Db -> Db * Outcome A) :
  (forall db, isThrown (snd (fn db)) = true -> fst (fst (fn db)) = fst db) ->
  rolls_back (guarded env fn).
Proof.
  intros Hfn r0 H. unfold guarded in *.
  destruct (CircuitBreakerFacts.execute_cases (clock env) fn (circuitBreaker r0)
              (table r0, logger r0)) as [(_ & _ & E)|E]; rewrite E in *.
  - reflexivity.
  - specialize (Hfn (table r0, logger r0)).
    destruct (fn (table r0, logger r0)) as [[tbl lg] [v|e]]; cbn in *.
    + discriminate.
    + now apply Hfn.
Qed.

(** While no answer is lost, a statement that throws has not run. *)
Lemma query_thrown env stmt tbl :
  reply_lost env = None ->
  isThrown (snd (query env stmt tbl)) = true -> fst (query env stmt tbl) = tbl.
Proof.
  intro Hl. unfold query. rewrite Hl. destruct (fault env); [reflexivity|].
  destruct (stmt tbl) as [[rows tbl']|e]; [discriminate|reflexivity].
Qed.

Lemma first_row_or_null_rolls_back env stmt missing found :
  reply_lost env = None ->
  rolls_back (first_row_or_null env stmt missing found).
Proof.
  intro Hl. unfold first_row_or_null. apply guarded_thrown.
  intros db. pose proof (query_thrown env stmt (fst db) Hl) as Q.
  destruct (query env stmt (fst db)) as [tbl' [[|row rows]|e]]; cbn in *; try discriminate.
  intros _. now apply Q.
Qed.

Lemma all_rows_rolls_back env stmt :
  reply_lost env = None -> rolls_back (all_rows env stmt).
Proof.
  intro Hl. unfold all_rows. apply guarded_thrown.
  intros db. pose proof (query_thrown env stmt (fst db) Hl) as Q.
  destruct (query env stmt (fst db)) as [tbl' [rows|e]]; cbn in *; [discriminate|].
  intros _. now apply Q.
Qed.

(** An insertion that succeeds returns a row. *)
Lemma INSERT_JOB_rows jin now newid q t j jname json s att maxAtt tbl tbl' :
  INSERT_JOB jin now newid q t j jname json s att maxAtt tbl <> Returned ([], tbl').
Proof.
  unfold INSERT_JOB.
  destruct (jsonb_opt jin json) as [document|e]; [|discriminate].
  destruct (varchar 100 q) as [q'|]; [|discriminate].
  destruct (varchar 100 j) as [j'|]; [|discriminate].
  destruct (varchar_opt 100 jname) as [jname'|]; [|discriminate].
  destruct (negb _); [discriminate|].
  destruct document as [text|]; [|discriminate].
  destruct (existsb _ tbl) eqn:C.
  - unfold UPDATE. destruct (unique_active _); [|discriminate].
    unfold returning. apply existsb_exists in C as (x & Hx & Ex).
    intro E. inversion E as [[E1 E2]].
    assert (Hin : In x (filter (fun r => negb (isTerminal s) && active r && same_key q' t j' r) tbl)).
    { apply filter_In. now split. }
    destruct (filter _ tbl); [destruct Hin|discriminate].
  - destruct (existsb (fun r => id r =? newid) tbl); intro E; inversion E.
Qed.

Lemma createJob_rolls_back env q t j jname d maxAtt :
  reply_lost env = None ->
  rolls_back (createJob env q t j jname d maxAtt).
Proof.
  intro Hl. unfold createJob. apply guarded_thrown. intros db.
  destruct (stringify d) as [json|e]; [|reflexivity].
  match goal with |- context [query env ?stmt (fst db)] =>
    pose proof (query_thrown env stmt (fst db) Hl) as Q;
    destruct (query env stmt (fst db)) as [tbl' [[|row rows]|e]] eqn:E end; cbn in *.
  - exfalso. apply query_returned in E. now apply INSERT_JOB_rows in E.
  - discriminate.
  - intros _. now apply Q.
Qed.

(** A call that the breaker lets through and whose statement runs, but
    whose answer is lost. *)
Lemma first_row_or_null_lost env stmt missing found r rows tbl' e :
  CircuitBreaker.state (circuitBreaker r) <> CircuitBreaker.OPEN ->
  fault env = None ->
  reply_lost env = Some e ->
  stmt (table r) = Returned (rows, tbl') ->
  snd (first_row_or_null env stmt missing found r) = Thrown e
  /\ table (fst (first_row_or_null env stmt missing found r)) = tbl'.
Proof.
  intros Hst Hf Hl Hs. unfold first_row_or_null, guarded.
  rewrite CircuitBreakerFacts.execute_runs by (intro; contradiction).
  cbn [fst snd]. unfold query. rewrite Hf, Hs, Hl. cbn. now split.
Qed.

(** X8.  While no answer of the server is lost, a repository call that
    throws has changed no row: the breaker or the health check refused
    the call before anything ran, the connection failed before the
    statement or the COMMIT had run, the statement failed as a whole, or
    the transaction was rolled back.  When the connection fails after the
    server has run the statement, or the COMMIT of the harvest, the call
    throws although the rows are changed. *)
Theorem a_call_that_throws_changes_no_row env :
  (reply_lost env = None ->
   (forall q t j jname d maxAtt, rolls_back (createJob env q t j jname d maxAtt))
   /\ (forall q t j s, rolls_back (updateJobStatus env q t j s))
   /\ (forall q t j err, rolls_back (updateJobError env q t j err))
   /\ (forall q t j, rolls_back (updateHeartbeat env q t j))
   /\ (forall q thr batch, rolls_back (getAndMarkStuckJobs env q thr batch))
   /\ (forall days, rolls_back (deleteOldJobs env days))
   /\ (forall ids s, rolls_back (bulkUpdateStatus env ids s))
   /\ (forall ids, rolls_back (bulkMarkDead env ids))
   /\ (forall ids, rolls_back (markJobsAsStuck env ids)))
  /\ (forall e q t j s r rows tbl',
        CircuitBreaker.state (circuitBreaker r) <> CircuitBreaker.OPEN ->
        fault env = None ->
        reply_lost env = Some e ->
        UPDATE_JOB_STATUS (sql_now env) s q t j (table r) = Returned (rows, tbl') ->
        snd (updateJobStatus env q t j s r) = Thrown e
        /\ table (fst (updateJobStatus env q t j s r)) = tbl')
  /\ (forall e q thr batch r found tbl',
        checkHealth r = Returned tt ->
        CircuitBreaker.state (circuitBreaker r) <> CircuitBreaker.OPEN ->
        fault env = None ->
        reply_lost env = Some e ->
        harvest env q thr batch (table r) = (tbl', Returned found) ->
        snd (getAndMarkStuckJobs env q thr batch r) = Thrown e
        /\ table (fst (getAndMarkStuckJobs env q thr batch r)) = tbl').
Proof.
  split; [|split].
  - intro Hl.
    split; [|split; [|split; [|split; [|split; [|split; [|split; [|split]]]]]]].
    + intros. now apply createJob_rolls_back.
    + intros. now apply first_row_or_null_rolls_back.
    + intros. now apply first_row_or_null_rolls_back.
    + intros. now apply first_row_or_null_rolls_back.
    + intros q thr batch r. unfold getAndMarkStuckJobs.
      destruct (checkHealth r); [|reflexivity]. unfold withTransaction.
      apply guarded_thrown. intros db. rewrite Hl. destruct (fault env); [reflexivity|].
      destruct (harvest env q thr batch (fst db)) as [tbl' [v|e]]; [discriminate|reflexivity].
    + intros days r. unfold deleteOldJobs.
      pose proof (all_rows_rolls_back env
                    (DELETE_OLD_JOBS (time_zone env) (sql_now env) days) Hl r) as Q.
      destruct (all_rows env _ r) as [r' [rows|e]]; [discriminate|exact Q].
    + intros ids s r. unfold bulkUpdateStatus. destruct ids; [reflexivity|].
      now apply all_rows_rolls_back.
    + intros ids r. unfold bulkMarkDead. destruct ids; [reflexivity|].
      now apply all_rows_rolls_back.
    + intros. now apply all_rows_rolls_back.
  - intros e q t j s r rows tbl' Hst Hf Hl Hs. unfold updateJobStatus.
    now apply (first_row_or_null_lost env _ _ _ r rows tbl' e).
  - intros e q thr batch r found tbl' Hh Hst Hf Hl Hv.
    unfold getAndMarkStuckJobs. rewrite Hh. unfold withTransaction, guarded.
    rewrite CircuitBreakerFacts.execute_runs by (intro; contradiction).
    cbn [fst snd]. rewrite Hf, Hv, Hl. cbn. now split.
Qed.

Local Open Scope string_scope.

Lemma a_call_that_throws_changes_no_row_witness :
  table (fst (updateJobStatus Sample.offline "mail" bull "j1" COMPLETED Sample.repository))
  = Sample.table
  /\ snd (updateJobStatus Sample.cut "mail" bull "j1" COMPLETED Sample.repository)
     = Thrown (PostgresConnectionError "Connection terminated unexpectedly")
  /\ option_map status
       (nth_error (table (fst (updateJobStatus Sample.cut "mail" bull "j1" COMPLETED
                                 Sample.repository))) 0)
     = Some COMPLETED.
Proof.
  split.
  - destruct (a_call_that_throws_changes_no_row Sample.offline) as (H & _).
    destruct (H eq_refl) as (_ & H' & _).
    exact (H' "mail" bull "j1" COMPLETED Sample.repository eq_refl).
  - destruct (a_call_that_throws_changes_no_row Sample.cut) as (_ & H & _).
    destruct (H (PostgresConnectionError "Connection terminated unexpectedly")
                "mail" bull "j1" COMPLETED Sample.repository
                (returning Sample.now (same_key "mail" bull "j1")
                   (set_status_fields Sample.now COMPLETED) Sample.table)
                (update_rows Sample.now (same_key "mail" bull "j1")
                   (set_status_fields Sample.now COMPLETED) Sample.table))
      as (Hout & Htbl); try reflexivity; [discriminate|].
    split; [exact Hout|]. rewrite Htbl. reflexivity.
Defined.

End RollbackLaws.

Module StoreLaws.
Import Job Sql Repository SqlFacts RepositoryFacts HarvestFacts.

Lemma all_rows_returned env stmt r r' rows :
  all_rows env stmt r = (r', Returned rows) -> stmt (table r) = Returned (rows, table r').
Proof.
  unfold all_rows. intro H. apply guarded_returned in H. cbn [fst snd] in H.
  destruct (query env stmt (table r)) as [tbl' [rows'|e]] eqn:Q; inversion H; subst.
  now apply query_returned in Q.
Qed.

Lemma DELETE_OLD_JOBS_spec tz now days tbl rows tbl' :
  DELETE_OLD_JOBS tz now days tbl = Returned (rows, tbl') ->
  rows = filter (expired tz now days) tbl
  /\ tbl' = filter (fun r => negb (expired tz now days r)) tbl.
Proof.
  change (DELETE_OLD_JOBS tz now days tbl)
    with (Returned (filter (expired tz now days) tbl,
                    filter (fun r => negb (expired tz now days r)) tbl)).
  intro E. injection E as E1 E2. now split.
Qed.

(** Where the offset of the zone is fixed, the days of the calendar are
    days of 24 hours. *)
Lemma days_before_fixed tz now n :
  fixed_offset tz -> days_before tz now n = now - day_ms * n.
Proof.
  intros (off & Hl & Hi). unfold days_before. rewrite Hi, Hl. lia.
Qed.

(** X9.  The cleanup deletes only rows that are terminal and whose
    [completed_at] lies before the cutoff, which is the server's clock
    less the retention in days of the calendar, taken in the time zone
    of the session; a row completed at the cutoff or after it stays.  No
    other row is removed, none is changed or added, and the number
    returned is the number of rows removed.  Where the offset of the zone
    is fixed, as in UTC, the cutoff is the retention in days of 24 hours
    before the clock. *)
Theorem cleanup_removes_only_old_terminal_rows env days r r' n :
  deleteOldJobs env days r = (r', Returned n) ->
  let cutoff := days_before (time_zone env) (sql_now env) days in
  (forall row, In row (table r') -> In row (table r))
  /\ (forall row, In row (table r) -> ~ In row (table r') ->
        isTerminal (status row) = true
        /\ exists c, completed_at row = Some c /\ c < cutoff)
  /\ (forall row, In row (table r) -> isTerminal (status row) = false ->
        In row (table r'))
  /\ (forall row, In row (table r) -> completed_at row = None -> In row (table r'))
  /\ (forall row c, In row (table r) -> completed_at row = Some c -> cutoff <= c ->
        In row (table r'))
  /\ n = Z.of_nat (List.length (table r)) - Z.of_nat (List.length (table r'))
  /\ (fixed_offset (time_zone env) -> cutoff = sql_now env - day_ms * days).
Proof.
  unfold deleteOldJobs.
  destruct (all_rows env _ r) as [r1 [rows|e]] eqn:E; [|discriminate].
  intro H. inversion H; subst; clear H. apply all_rows_returned in E.
  apply DELETE_OLD_JOBS_spec in E as (-> & E2). rewrite E2. cbv zeta.
  split; [|split; [|split; [|split; [|split; [|split]]]]].
  - intros row Hin. now apply filter_In in Hin.
  - intros row Hin Hout. destruct (expired (time_zone env) (sql_now env) days row) eqn:Ho.
    + unfold expired in Ho. apply andb_prop in Ho as (Ht & Hc). split; [exact Ht|].
      destruct (completed_at row) as [c|]; [|discriminate].
      exists c. split; [reflexivity|]. now apply Z.ltb_lt.
    + exfalso. apply Hout. apply filter_In. split; [exact Hin|]. now rewrite Ho.
  - intros row Hin Ht. apply filter_In. split; [exact Hin|]. unfold expired. now rewrite Ht.
  - intros row Hin Hc. apply filter_In. split; [exact Hin|]. unfold expired. rewrite Hc.
    now rewrite andb_false_r.
  - intros row c Hin Hc Hle. apply filter_In. split; [exact Hin|]. unfold expired.
    rewrite Hc. apply negb_true_iff, andb_false_iff. right. now apply Z.ltb_ge.
  - pose proof (filter_length (expired (time_zone env) (sql_now env) days) (table r)) as L.
    lia.
  - apply days_before_fixed.
Qed.

Lemma count_status_cons q s row tbl :
  count_status q s (row :: tbl)
  = (if String.eqb (queue_name row) q && status_eqb (status row) s then 1 else 0)
    + count_status q s tbl.
Proof.
  unfold count_status. cbn [filter].
  destruct (String.eqb (queue_name row) q && status_eqb (status row) s); cbn [List.length]; lia.
Qed.

Lemma counts_add_up q tbl :
  count_status q PENDING tbl + count_status q PROCESSING tbl + count_status q COMPLETED tbl
  + count_status q FAILED tbl + count_status q STUCK tbl + count_status q DEAD tbl
  = Z.of_nat (List.length (filter (fun row => String.eqb (queue_name row) q) tbl)).
Proof.
  induction tbl as [|row tbl IH]; [reflexivity|].
  rewrite !count_status_cons. cbn [filter].
  destruct (String.eqb (queue_name row) q); cbn [andb].
  - cbn [List.length]. rewrite Nat2Z.inj_succ. destruct (status row); cbn [status_eqb]; lia.
  - lia.
Qed.

(** X10.  The statistics of a queue count its rows, each once: the six
    counts are those of the rows of the queue in each status, the total
    is the number of rows of the queue, and reading them changes no row. *)
Theorem statistics_count_each_row_once env q r r' stats :
  getStatistics env q r = (r', Returned stats) ->
  table r' = table r
  /\ stats_queueName stats = q
  /\ stats_pending stats = count_status q PENDING (table r)
  /\ stats_processing stats = count_status q PROCESSING (table r)
  /\ stats_completed stats = count_status q COMPLETED (table r)
  /\ stats_failed stats = count_status q FAILED (table r)
  /\ stats_stuck stats = count_status q STUCK (table r)
  /\ stats_dead stats = count_status q DEAD (table r)
  /\ stats_total stats
     = Z.of_nat (List.length (filter (fun row => String.eqb (queue_name row) q) (table r))).
Proof.
  unfold getStatistics. intro H. apply guarded_returned in H. cbn [fst snd] in H.
  destruct (fault env); [discriminate|]. destruct (reply_lost env); [discriminate|].
  inversion H; subst; clear H. cbn.
  repeat split; trivial. apply counts_add_up.
Qed.

Local Open Scope string_scope.

Lemma cleanup_removes_only_old_terminal_rows_witness :
  In Sample.stale
     (table (fst (deleteOldJobs Sample.env 0 Sample.repository)))
  /\ 2 = Z.of_nat (List.length (table Sample.repository))
         - Z.of_nat (List.length (table (fst (deleteOldJobs Sample.env 0 Sample.repository)))).
Proof.
  destruct (cleanup_removes_only_old_terminal_rows Sample.env 0 Sample.repository
              (fst (deleteOldJobs Sample.env 0 Sample.repository)) 2)
    as (_ & _ & H & _ & _ & Hn & _).
  - vm_compute. reflexivity.
  - split; [|exact Hn]. apply H; [now left|reflexivity].
Defined.

Lemma statistics_count_each_row_once_witness :
  stats_total {| stats_queueName := "mail"; stats_pending := 0; stats_processing := 3;
                 stats_completed := 1; stats_failed := 0; stats_stuck := 0;
                 stats_dead := 1; stats_total := 5 |}
  = Z.of_nat (List.length (filter (fun row => String.eqb (queue_name row) "mail")
                             (table Sample.repository))).
Proof.
  destruct (statistics_count_each_row_once Sample.env "mail" Sample.repository
              (fst (getStatistics Sample.env "mail" Sample.repository))
              {| stats_queueName := "mail"; stats_pending := 0; stats_processing := 3;
                 stats_completed := 1; stats_failed := 0; stats_stuck := 0;
                 stats_dead := 1; stats_total := 5 |}) as (_ & _ & _ & _ & _ & _ & _ & _ & H).
  - vm_compute. reflexivity.
  - exact H.
Defined.

End StoreLaws.

Module LookupLaws.
Import Job Sql Repository SqlFacts RepositoryFacts HarvestFacts.

(** A guarded call that returns leaves the breaker closed. *)
Lemma guarded_returned_closed {A} env (fn : Db -> Db * Outcome A) r r' v :
  guarded env fn r = (r', Returned v) ->
  CircuitBreaker.state (circuitBreaker r') = CircuitBreaker.CLOSED.
Proof.
  unfold guarded.
  destruct (CircuitBreaker.execute _ fn _ _) as [[cb [tbl lg]] out] eqn:E.
  intro H. inversion H; subst; clear H. cbn.
  now apply CircuitBreakerLaws.execute_returned_closed in E.
Qed.

(** What a guarded call does when the breaker is not open. *)
Lemma guarded_runs {A} env (fn : Db -> Db * Outcome A) r :
  CircuitBreaker.state (circuitBreaker r) <> CircuitBreaker.OPEN ->
  snd (guarded env fn r) = snd (fn (table r, logger r))
  /\ table (fst (guarded env fn r)) = fst (fst (fn (table r, logger r)))
  /\ logger (fst (guarded env fn r)) = snd (fst (fn (table r, logger r))).
Proof.
  intro H. unfold guarded. rewrite CircuitBreakerFacts.execute_runs by (intro; contradiction).
  destruct (fn (table r, logger r)) as [[tbl lg] [v|e]]; now cbn.
Qed.

Lemma varchar_fits n s : (String.length s <= n)%nat -> varchar n s = Some s.
Proof. intro H. unfold varchar. apply Nat.leb_le in H. now rewrite H. Qed.

Lemma same_key_refl q t j row :
  queue_name row = q -> queue_type row = t -> job_id row = j -> same_key q t j row = true.
Proof.
  intros <- <- <-. unfold same_key. rewrite !String.eqb_refl. now destruct (queue_type row).
Qed.

Lemma filter_none {A} (f : A -> bool) l :
  (forall x, In x l -> f x = false) -> filter f l = [].
Proof.
  induction l as [|x l IH]; cbn; [trivial|]. intro H.
  rewrite (H x (or_introl eq_refl)). apply IH. intros y Hy. apply H. now right.
Qed.

(** X11.  A job created under a key that no row carries is found again
    under that key: [getJob] returns the very row [createJob] returned,
    which was appended to the table with status 'pending', no attempt
    made, the maximum given, and the identifier the server generated.
    Its payload is the document the server read from the text that was
    sent, not that text. *)
Theorem created_job_is_found env env' q t j jname json maxAtt r r' row :
  (String.length q <= 100)%nat ->
  (String.length j <= 100)%nat ->
  (forall x, In x (table r) -> same_key q t j x = false) ->
  fault env' = None ->
  reply_lost env' = None ->
  createJob env q t j jname (Serializable json) maxAtt r = (r', Returned row) ->
  snd (getJob env' q t j r') = Returned (Some row)
  /\ table r' = table r ++ [row]
  /\ id row = fresh_uuid env
  /\ queue_name row = q /\ queue_type row = t /\ job_id row = j
  /\ jsonb_in env json = Returned (data row)
  /\ status row = PENDING /\ attempts row = 0 /\ max_attempts row = maxAtt
  /\ created_at row = sql_now env
  /\ started_at row = None /\ completed_at row = None /\ last_heartbeat row = None.
Proof.
  intros Hq Hj Hfresh Hf Hl H.
  pose proof (guarded_returned_closed _ _ _ _ _ H) as Hcb.
  unfold createJob in H. apply guarded_returned in H. cbn [stringify fst snd] in H.
  match type of H with context [query env ?stmt (table r)] =>
    destruct (query env stmt (table r)) as [tbl' [[|row' rows]|e]] eqn:Q end;
    inversion H; subst; clear H.
  apply query_returned in Q. unfold INSERT_JOB, jsonb_opt in Q.
  destruct (jsonb_in env json) as [document|e] eqn:J; [|discriminate].
  rewrite (varchar_fits 100 q Hq), (varchar_fits 100 j Hj) in Q.
  destruct (varchar_opt 100 jname) as [jname'|]; [|discriminate].
  destruct (negb _); [discriminate|].
  match type of Q with context [existsb ?c (table r)] =>
    assert (C : existsb c (table r) = false) end.
  { apply not_true_iff_false. intro C. apply existsb_exists in C as (x & Hx & Ex).
    apply andb_prop in Ex as (_ & Ex). rewrite (Hfresh x Hx) in Ex. discriminate. }
  rewrite C in Q.
  destruct (existsb (fun r0 => id r0 =? fresh_uuid env) (table r)); [discriminate|].
  inversion Q; subst; clear Q. cbn [id queue_name queue_type job_id data status attempts
    max_attempts created_at started_at completed_at last_heartbeat].
  split; [|now repeat split].
  unfold getJob.
  match goal with |- snd (guarded env' ?fn r') = _ =>
    destruct (guarded_runs env' fn r') as (-> & _) end.
  { rewrite Hcb. discriminate. }
  cbn [fst snd]. unfold query. rewrite Hf, Hl. unfold GET_JOB.
  match goal with E : _ ++ _ = table r' |- _ => rewrite <- E end.
  rewrite filter_app, (filter_none _ _ Hfresh). cbn [filter app].
  rewrite same_key_refl by reflexivity. reflexivity.
Qed.

Local Open Scope string_scope.

Lemma created_job_is_found_witness :
  let r' := fst (createJob Sample.env "mail" bull "j9" (Some "send") (Serializable "{}") 3
                   Sample.repository) in
  snd (getJob Sample.env "mail" bull "j9" r') = Returned (Some Sample.created)
  /\ table r' = (Sample.table ++ [Sample.created])%list.
Proof.
  cbv zeta.
  destruct (created_job_is_found Sample.env Sample.env "mail" bull "j9"
              (Some "send") "{}" 3 Sample.repository
              (fst (createJob Sample.env "mail" bull "j9" (Some "send") (Serializable "{}") 3
                      Sample.repository))
              Sample.created) as (H1 & H2 & _).
  - cbn; lia.
  - cbn; lia.
  - intros x [<-|[<-|[<-|[<-|[<-|[]]]]]]; reflexivity.
  - reflexivity.
  - reflexivity.
  - vm_compute. reflexivity.
  - split; [exact H1|exact H2].
Defined.

End LookupLaws.

Module UpsertLaws.
Import Job Sql Repository SqlFacts RepositoryFacts HarvestFacts LookupLaws TableLaws.

(** Under the partial unique index, two rows that are not terminal and
    share their key are one row. *)
Lemma unique_active_index tbl : forall i k x y,
  unique_active tbl = true ->
  nth_error tbl i = Some x -> nth_error tbl k = Some y ->
  active x = true -> active y = true ->
  same_key (queue_name x) (queue_type x) (job_id x) y = true ->
  i = k.
Proof.
  induction tbl as [|r tbl IH]; intros i k x y Hu Hi Hk Hx Hy Hs.
  - destruct i; discriminate.
  - cbn in Hu. apply andb_prop in Hu as (Hr & Ht).
    destruct i as [|i], k as [|k]; cbn in Hi, Hk.
    + reflexivity.
    + exfalso. inversion Hi; subst. rewrite Hx in Hr. cbn in Hr.
      apply negb_true_iff, not_true_iff_false in Hr. apply Hr.
      apply existsb_exists. exists y. split; [now apply nth_error_In in Hk|].
      now rewrite Hy, Hs.
    + exfalso. inversion Hk; subst. rewrite Hy in Hr. cbn in Hr.
      apply negb_true_iff, not_true_iff_false in Hr. apply Hr.
      apply existsb_exists. exists x. split; [now apply nth_error_In in Hi|].
      now rewrite Hx, same_key_sym, Hs.
    + f_equal. now apply (IH i k x y).
Qed.

Lemma same_key_eq q t j x :
  same_key q t j x = true -> queue_name x = q /\ queue_type x = t /\ job_id x = j.
Proof.
  unfold same_key. intro H. apply andb_prop in H as (H & Hj). apply andb_prop in H as (Hq & Ht).
  apply String.eqb_eq in Hq, Hj. repeat split; trivial.
  now destruct (queue_type x), t.
Qed.

Lemma UPDATE_rows now sel f tbl rows tbl' :
  UPDATE now sel f tbl = Returned (rows, tbl') -> rows = returning now sel f tbl.
Proof.
  unfold UPDATE. destruct (unique_active _); [|discriminate]. intro E. now inversion E.
Qed.

(** X12.  Submitting again a job whose row is not terminal rewrites that
    row in place: its payload is replaced by the document the server
    reads from the text sent, its status is 'pending' and its attempts are
    zero again, while its identifier, name, maximum of attempts, error
    message and timestamps of creation, start and heartbeat stay; no row
    is added and no other row changes. *)
Theorem resubmission_rewrites_the_active_row env q t j jname json maxAtt r r' row i x :
  (String.length q <= 100)%nat ->
  (String.length j <= 100)%nat ->
  unique_active (table r) = true ->
  nth_error (table r) i = Some x ->
  same_key q t j x = true ->
  isTerminal (status x) = false ->
  createJob env q t j jname (Serializable json) maxAtt r = (r', Returned row) ->
  (exists document,
     jsonb_in env json = Returned document
     /\ row = {| id := id x; queue_name := queue_name x; queue_type := queue_type x;
                 job_id := job_id x; job_name := job_name x; data := document;
                 status := PENDING; attempts := 0; max_attempts := max_attempts x;
                 error_message := error_message x; created_at := created_at x;
                 updated_at := sql_now env; started_at := started_at x;
                 completed_at := completed_at x; last_heartbeat := last_heartbeat x |})
  /\ nth_error (table r') i = Some row
  /\ (forall k, k <> i -> nth_error (table r') k = nth_error (table r) k)
  /\ List.length (table r') = List.length (table r).
Proof.
  intros Hq Hj Hu Hi Hk Hx H.
  unfold createJob in H. apply guarded_returned in H. cbn [stringify fst snd] in H.
  match type of H with context [query env ?stmt (table r)] =>
    destruct (query env stmt (table r)) as [tbl' [[|row' rows]|e]] eqn:Q end;
    inversion H; subst; clear H.
  apply query_returned in Q. unfold INSERT_JOB, jsonb_opt in Q.
  destruct (jsonb_in env json) as [document|e] eqn:J; [|discriminate].
  rewrite (varchar_fits 100 q Hq), (varchar_fits 100 j Hj) in Q.
  destruct (varchar_opt 100 jname) as [jname'|]; [|discriminate].
  destruct (negb _); [discriminate|].
  set (conflicting := fun r0 : JobRecord =>
         negb (isTerminal PENDING) && active r0 && same_key q t j r0) in Q.
  assert (Cx : conflicting x = true).
  { unfold conflicting, active. now rewrite Hx, Hk. }
  assert (C : existsb conflicting (table r) = true).
  { apply existsb_exists. exists x. split; [now apply nth_error_In in Hi|exact Cx]. }
  rewrite C in Q.
  assert (Honly : forall k y, nth_error (table r) k = Some y -> conflicting y = true -> k = i).
  { intros k y Hy Cy. unfold conflicting in Cy. apply andb_prop in Cy as (Cy & Ky).
    cbn in Cy. symmetry. apply (unique_active_index (table r) i k x y); trivial.
    - unfold active. now rewrite Hx.
    - apply same_key_eq in Hk as (-> & -> & ->). exact Ky. }
  match type of Q with UPDATE _ _ ?g _ = _ => set (f := g) in Q end.
  pose proof (UPDATE_returned _ _ _ _ _ _ Q) as Qt.
  pose proof (UPDATE_rows _ _ _ _ _ _ Q) as Qr.
  assert (Erow : row = touch (sql_now env) (f x)).
  { assert (Hin : In row (returning (sql_now env) conflicting f (table r))).
    { rewrite <- Qr. now left. }
    unfold returning in Hin. apply in_map_iff in Hin as (y & Ey & Hy).
    apply filter_In in Hy as (Hy & Cy). apply In_nth_error in Hy as (k & Hy).
    pose proof (Honly k y Hy Cy) as ->. rewrite Hi in Hy. inversion Hy; subst y.
    now rewrite <- Ey. }
  split; [exists document; split; [reflexivity|exact Erow]|]. split; [|split].
  - rewrite Qt, nth_update_rows, Hi. cbn [option_map]. now rewrite Cx, Erow.
  - intros k Hki. rewrite Qt, nth_update_rows.
    destruct (nth_error (table r) k) as [y|] eqn:Hy; [|reflexivity]. cbn [option_map].
    destruct (conflicting y) eqn:Cy; [|reflexivity].
    exfalso. apply Hki. now apply (Honly k y).
  - rewrite Qt. unfold update_rows. apply length_map.
Qed.

Local Open Scope string_scope.

Lemma resubmission_rewrites_the_active_row_witness :
  let r' := fst (createJob Sample.env "mail" bull "j1" None (Serializable "[1]") 5
                   Sample.repository) in
  nth_error (table r') 0 = Some Sample.resubmitted
  /\ List.length (table r') = List.length Sample.table.
Proof.
  cbv zeta.
  destruct (resubmission_rewrites_the_active_row Sample.env "mail" bull "j1" None
              "[1]" 5 Sample.repository
              (fst (createJob Sample.env "mail" bull "j1" None (Serializable "[1]") 5
                      Sample.repository))
              Sample.resubmitted 0%nat Sample.stale) as (_ & H1 & _ & H2).
  - cbn; lia.
  - cbn; lia.
  - reflexivity.
  - reflexivity.
  - reflexivity.
  - reflexivity.
  - vm_compute. reflexivity.
  - split; [exact H1|exact H2].
Defined.

End UpsertLaws.

Module LivenessLaws.
Import Job Sql Repository SqlFacts RepositoryFacts HarvestFacts LookupLaws TableLaws UpsertLaws.

Lemma first_row_or_null_rows env stmt missing found r r' out :
  first_row_or_null env stmt missing found r = (r', Returned out) ->
  exists rows, stmt (table r) = Returned (rows, table r') /\ out = hd_error rows.
Proof.
  unfold first_row_or_null. intro H. apply guarded_returned in H. cbn [fst snd] in H.
  destruct (query env stmt (table r)) as [tbl' [rows|e]] eqn:Q.
  - apply query_returned in Q. exists rows.
    destruct rows; inversion H; subst; now split.
  - discriminate.
Qed.

(** A heartbeat reaches only a row in status 'processing': when
    the job has no such row the call returns null and changes no row,
    and when it returns a row, that row is in status 'processing' under
    the key given and carries the server's clock as its heartbeat. *)
Lemma heartbeat_needs_a_row_in_process env q t j r r' out :
  updateHeartbeat env q t j r = (r', Returned out) ->
  ((forall x, In x (table r) -> same_key q t j x = true -> status x <> PROCESSING) ->
     out = None /\ table r' = table r)
  /\ (forall row, out = Some row ->
        In row (table r') /\ same_key q t j row = true /\ status row = PROCESSING
        /\ last_heartbeat row = Some (sql_now env)).
Proof.
  unfold updateHeartbeat. intro H. apply first_row_or_null_rows in H as (rows & U & ->).
  unfold UPDATE_HEARTBEAT in U.
  pose proof (UPDATE_returned _ _ _ _ _ _ U) as Et.
  pose proof (UPDATE_rows _ _ _ _ _ _ U) as Er. split.
  - intro Hno.
    assert (Hsel : forall x, In x (table r) ->
              same_key q t j x && status_eqb (status x) PROCESSING = false).
    { intros x Hx. destruct (same_key q t j x) eqn:K; [|reflexivity].
      specialize (Hno x Hx K). now destruct (status x). }
    split.
    + rewrite Er. unfold returning. now rewrite (filter_none _ _ Hsel).
    + rewrite Et. now apply update_rows_none.
  - intros row Hrow. assert (Hin : In row rows) by (destruct rows; inversion Hrow; now left).
    rewrite Er in Hin. unfold returning in Hin.
    apply in_map_iff in Hin as (x & <- & Hx). apply filter_In in Hx as (Hx & Sx).
    apply andb_prop in Sx as (Kx & Px). repeat split.
    + rewrite Et. unfold update_rows. apply in_map_iff. exists x. split; [|exact Hx].
      cbn beta. now rewrite Kx, Px.
    + exact Kx.
    + cbn. now destruct (status x).
Qed.

(** X13.  A job that has just started or has just sent a heartbeat is
    not harvested before the threshold has passed: no selection of stuck
    jobs made while the server's clock is within the threshold of that
    moment contains a row of the job. *)
Theorem fresh_jobs_are_not_harvested env q t j r :
  (forall r' out now' locked' q' thr batch sel tbl,
     updateHeartbeat env q t j r = (r', Returned out) ->
     now' - thr <= sql_now env ->
     GET_STUCK_JOBS now' locked' q' thr batch (table r') = Returned (sel, tbl) ->
     forall x, In x sel -> same_key q t j x = false)
  /\ (forall r' out now' locked' q' thr batch sel tbl,
        updateJobStatus env q t j PROCESSING r = (r', Returned out) ->
        now' - thr <= sql_now env ->
        GET_STUCK_JOBS now' locked' q' thr batch (table r') = Returned (sel, tbl) ->
        forall x, In x sel -> same_key q t j x = false).
Proof.
  split.
  - intros r' out now' locked' q' thr batch sel tbl H Hnow G x Hx.
    unfold updateHeartbeat in H. apply first_row_or_null_rows in H as (rows & U & _).
    apply UPDATE_returned in U.
    apply GET_STUCK_JOBS_spec in G as (_ & _ & _ & G).
    destruct (G x Hx) as (Hin & _ & Hst & Hl & _).
    rewrite U in Hin. apply In_update_rows in Hin as (x0 & H0 & E).
    destruct (same_key q t j x) eqn:K; [exfalso|reflexivity].
    destruct (same_key q t j x0 && status_eqb (status x0) PROCESSING) eqn:S0.
    + subst x. unfold liveness in Hl. cbn in Hl. lia.
    + subst x. rewrite K, Hst in S0. discriminate.
  - intros r' out now' locked' q' thr batch sel tbl H Hnow G x Hx.
    unfold updateJobStatus in H. apply first_row_or_null_rows in H as (rows & U & _).
    apply UPDATE_returned in U.
    apply GET_STUCK_JOBS_spec in G as (_ & _ & _ & G).
    destruct (G x Hx) as (Hin & _ & Hst & Hl & _).
    rewrite U in Hin. apply In_update_rows in Hin as (x0 & H0 & E).
    destruct (same_key q t j x) eqn:K; [exfalso|reflexivity].
    destruct (same_key q t j x0) eqn:S0.
    + subst x. unfold liveness in Hl. cbn in Hl. lia.
    + subst x. rewrite K in S0. discriminate.
Qed.

Local Open Scope string_scope.

Lemma fresh_jobs_are_not_harvested_witness :
  same_key "mail" bull "j1" Sample.exhausted = false.
Proof.
  destruct (fresh_jobs_are_not_harvested Sample.env "mail" bull "j1"
              Sample.repository) as (H & _).
  apply (H (fst (updateHeartbeat Sample.env "mail" bull "j1" Sample.repository))
           (match snd (updateHeartbeat Sample.env "mail" bull "j1" Sample.repository) with
            | Returned out => out
            | Thrown _ => None
            end)
           (Sample.now + 100000) [] "mail" 300000 100 [Sample.exhausted]
           (table (fst (updateHeartbeat Sample.env "mail" bull "j1" Sample.repository)))).
  - vm_compute. reflexivity.
  - vm_compute. discriminate.
  - vm_compute. reflexivity.
  - now left.
Defined.

End LivenessLaws.

Module HarvestLaws.
Import Job Sql Repository SqlFacts RepositoryFacts HarvestFacts StoreLaws LookupLaws TableLaws UpsertLaws.

Lemma insert_by_liveness_sorted r l :
  StronglySorted (fun a b => liveness a <= liveness b) l ->
  StronglySorted (fun a b => liveness a <= liveness b) (insert_by_liveness r l).
Proof.
  induction 1 as [|x l Hl IH Hx]; cbn.
  - repeat constructor.
  - destruct (Z.ltb_spec (liveness r) (liveness x)).
    + constructor; [now constructor|]. constructor; [lia|].
      rewrite Forall_forall in *. intros y Hy. specialize (Hx y Hy). lia.
    + constructor; [exact IH|]. rewrite Forall_forall in *. intros y Hy.
      apply In_insert_by_liveness in Hy as [->|Hy]; [lia|now apply Hx].
Qed.

Lemma order_by_liveness_sorted l :
  StronglySorted (fun a b => liveness a <= liveness b) (order_by_liveness l).
Proof.
  unfold order_by_liveness. induction l as [|x l IH]; cbn; [constructor|].
  now apply insert_by_liveness_sorted.
Qed.

Lemma sorted_firstn {A} (R : A -> A -> Prop) n l :
  StronglySorted R l -> StronglySorted R (firstn n l).
Proof.
  intro H. revert n. induction H as [|x l Hl IH Hx]; intros [|n]; cbn; try constructor.
  - apply IH.
  - rewrite Forall_forall in *. intros y Hy. apply Hx. now apply firstn_In in Hy.
Qed.

Lemma sorted_split {A} (R : A -> A -> Prop) n l :
  StronglySorted R l ->
  forall a b, In a (firstn n l) -> In b (skipn n l) -> R a b.
Proof.
  intro H. revert n. induction H as [|x l Hl IH Hx]; intros [|n] a b Ha Hb; cbn in *;
    try contradiction.
  destruct Ha as [<-|Ha].
  - rewrite Forall_forall in Hx. apply Hx.
    rewrite <- (firstn_skipn n l). apply in_or_app. now right.
  - now apply (IH n).
Qed.

(** X14.  The stuck jobs are taken oldest first: the rows [getStuckJobs]
    returns are in ascending order of their liveness signal, the
    heartbeat or else the last update, and every stuck row of the queue
    that is not locked and was left out by the limit is no older than
    any row returned. *)
Theorem stuck_jobs_are_taken_oldest_first env q thr batch r r' sel :
  getStuckJobs env q thr batch r = (r', Returned sel) ->
  StronglySorted (fun a b => liveness a <= liveness b) sel
  /\ (forall x y,
        In x (table r) -> is_stuck (sql_now env) q thr x = true ->
        ~ In (id x) (locked env) -> ~ In x sel ->
        In y sel -> liveness y <= liveness x)
  /\ table r' = table r.
Proof.
  unfold getStuckJobs. intro H. apply all_rows_returned in H.
  unfold GET_STUCK_JOBS in H. destruct (batch <? 0); [discriminate|].
  inversion H as [[Es Et]]; clear H.
  set (hits := filter (fun r0 => is_stuck (sql_now env) q thr r0
                         && negb (existsb (Z.eqb (id r0)) (locked env))) (table r)) in *.
  pose proof (order_by_liveness_sorted hits) as Hs.
  split; [now apply sorted_firstn|]. split; [|reflexivity].
  intros x y Hx Sx Lx Nx Hy.
  apply (sorted_split _ (Z.to_nat batch) _ Hs y x Hy).
  assert (Hin : In x (order_by_liveness hits)).
  { apply In_order_by_liveness. apply filter_In. split; [exact Hx|].
    rewrite Sx. cbn. apply negb_true_iff, not_true_iff_false. intro E.
    apply Lx. apply existsb_exists in E as (i & Hi & Ei). apply Z.eqb_eq in Ei. now subst. }
  rewrite <- (firstn_skipn (Z.to_nat batch)) in Hin. apply in_app_or in Hin as [Hin|Hin].
  - contradiction.
  - exact Hin.
Qed.

Lemma harvested_row now sel tbl i row :
  nth_error tbl i = Some row ->
  ~ In (id row) (map id sel) ->
  nth_error (harvested now sel tbl) i = Some row.
Proof.
  intros Hi Hn. unfold harvested. rewrite !nth_update_rows, Hi. cbn [option_map].
  assert (E : id_in (map id sel) row = false).
  { apply not_true_iff_false. intro E. now apply id_in_spec in E. }
  rewrite E. cbn [option_map].
  assert (D : id_in (deadJobIds (partition_stuck sel)) row = false).
  { apply not_true_iff_false. intro D. apply id_in_spec in D.
    rewrite partition_stuck_spec in D. cbn in D. apply Hn.
    apply in_map_iff in D as (x & Ex & Hx). apply filter_In in Hx as (Hx & _).
    apply in_map_iff. now exists x. }
  now rewrite D.
Qed.

(** X15.  The harvest passes over the rows that other transactions hold
    locked, and over every row it did not select: each such row is found
    again unchanged. *)
Theorem harvest_leaves_locked_rows env q thr batch r r' found i row :
  NoDup (map id (table r)) ->
  getAndMarkStuckJobs env q thr batch r = (r', Returned found) ->
  nth_error (table r) i = Some row ->
  In (id row) (locked env)
  \/ status row <> PROCESSING
  \/ queue_name row <> q
  \/ sql_now env - thr <= liveness row ->
  nth_error (table r') i = Some row.
Proof.
  intros Hnd H Hi Hc. apply getAndMarkStuckJobs_returned in H as (sel & G & _ & ->).
  apply GET_STUCK_JOBS_spec in G as (_ & _ & _ & G).
  apply harvested_row; [exact Hi|]. intro Hin.
  apply in_map_iff in Hin as (x & Ex & Hx). destruct (G x Hx) as (Hxt & Hq & Hs & Hl & Hk).
  assert (x = row) as ->.
  { apply (NoDup_map_eq id (table r)); trivial. now apply nth_error_In in Hi. }
  destruct Hc as [Hc|[Hc|[Hc|Hc]]]; [contradiction|contradiction|contradiction|lia].
Qed.

(** X16.  No job is harvested twice: the rows a harvest has marked are
    no longer in status 'processing', so no later selection of stuck
    jobs, whatever its time, threshold and limit, contains one of them. *)
Theorem harvested_rows_are_not_selected_again env q thr batch r r' found :
  NoDup (map id (table r)) ->
  getAndMarkStuckJobs env q thr batch r = (r', Returned found) ->
  forall now' locked' q' thr' batch' sel' tbl',
    GET_STUCK_JOBS now' locked' q' thr' batch' (table r') = Returned (sel', tbl') ->
    forall x, In x sel' ->
      ~ In (id x) (map id (toReEnqueue found)) /\ ~ In (id x) (deadJobIds found).
Proof.
  intros Hnd H now' locked' q' thr' batch' sel' tbl' G' x Hx.
  apply getAndMarkStuckJobs_returned in H as (sel & G & -> & Et). rewrite Et in G'.
  apply GET_STUCK_JOBS_spec in G as (_ & _ & _ & G).
  apply GET_STUCK_JOBS_spec in G' as (_ & _ & _ & G').
  destruct (G' x Hx) as (Hin & _ & Hst & _).
  destruct (harvested_partitioned (sql_now env) sel (table r) Hnd) as (_ & _ & _ & _ & _ & Hs & Hd).
  { intros job Hj. now apply G. }
  split; intro Hc.
  - specialize (Hs x Hin Hc). congruence.
  - destruct (Hd x Hin Hc) as (Hd' & _). congruence.
Qed.

(** X17.  Once the monitor has read an exhausted pool three times in a
    row, the harvest is refused before anything runs: the call throws the
    connection error and leaves the repository as it was, the circuit
    breaker included, which counts no failure.  The health check guards
    the harvest only: creating a job goes through the breaker as it would
    without a connection manager. *)
Theorem exhausted_pool_refuses_the_harvest env r before p1 p2 p3 :
  connectionManager r
  = Some (ConnectionManager.monitorAll (before ++ [p1; p2; p3])
            ConnectionManager.constructor) ->
  ConnectionManager.isExhausted p1 = true ->
  ConnectionManager.isExhausted p2 = true ->
  ConnectionManager.isExhausted p3 = true ->
  (forall q thr batch,
     exists msg,
       getAndMarkStuckJobs env q thr batch r = (r, Thrown (PostgresConnectionError msg)))
  /\ (forall q t j jname d maxAtt,
        let r0 := {| table := table r; circuitBreaker := circuitBreaker r;
                     connectionManager := None; logger := logger r |} in
        snd (createJob env q t j jname d maxAtt r) = snd (createJob env q t j jname d maxAtt r0)
        /\ table (fst (createJob env q t j jname d maxAtt r))
           = table (fst (createJob env q t j jname d maxAtt r0))).
Proof.
  intros Hm E1 E2 E3. split.
  - intros q thr batch. unfold getAndMarkStuckJobs, checkHealth. rewrite Hm.
    unfold ConnectionManager.checkPoolHealth.
    destruct (ConnectionManagerLaws.monitorAll_counts (before ++ [p1; p2; p3])) as (_ & ->).
    assert (H3 : 3 <= ConnectionManager.exhaustedRun (before ++ [p1; p2; p3])).
    { apply ConnectionManagerLaws.exhaustedRun_three. now exists before, p1, p2, p3. }
    apply Z.leb_le in H3. rewrite H3. eexists. reflexivity.
  - intros q t j jname d maxAtt r0. unfold createJob, guarded. cbn [table circuitBreaker logger r0].
    destruct (CircuitBreaker.execute _ _ _ _) as [[cb [tbl lg]] out]. now split.
Qed.

Local Open Scope string_scope.

Lemma stuck_jobs_are_taken_oldest_first_witness :
  StronglySorted (fun a b => liveness a <= liveness b) [Sample.exhausted]
  /\ liveness Sample.exhausted <= liveness Sample.stale.
Proof.
  destruct (stuck_jobs_are_taken_oldest_first Sample.env "mail" 300000 1
              Sample.repository
              (fst (getStuckJobs Sample.env "mail" 300000 1 Sample.repository))
              [Sample.exhausted]) as (H1 & H2 & _).
  - vm_compute. reflexivity.
  - split; [exact H1|].
    apply (H2 Sample.stale Sample.exhausted).
    + now left.
    + reflexivity.
    + intros [].
    + intros [E|[]]. discriminate.
    + now left.
Defined.

Lemma harvest_leaves_locked_rows_witness :
  nth_error (table (fst (getAndMarkStuckJobs Sample.busy "mail" 300000 100 Sample.repository))) 0
  = Some Sample.stale.
Proof.
  apply (harvest_leaves_locked_rows Sample.busy "mail" 300000 100 Sample.repository
           (fst (getAndMarkStuckJobs Sample.busy "mail" 300000 100 Sample.repository))
           {| toReEnqueue := []; deadJobIds := [2] |} 0%nat Sample.stale).
  - cbn. repeat constructor; cbn; intuition discriminate.
  - vm_compute. reflexivity.
  - reflexivity.
  - left. now left.
Defined.

Lemma harvested_rows_are_not_selected_again_witness :
  ~ In (id Sample.live) (map id [Sample.stale]) /\ ~ In (id Sample.live) [2].
Proof.
  apply (harvested_rows_are_not_selected_again Sample.env "mail" 300000 100
           Sample.repository
           (fst (getAndMarkStuckJobs Sample.env "mail" 300000 100 Sample.repository))
           {| toReEnqueue := [Sample.stale]; deadJobIds := [2] |}
           ltac:(cbn; repeat constructor; cbn; intuition discriminate)
           ltac:(vm_compute; reflexivity)
           (Sample.now + 400000) [] "mail" 300000 100 [Sample.live]
           (table (fst (getAndMarkStuckJobs Sample.env "mail" 300000 100 Sample.repository)))).
  - vm_compute. reflexivity.
  - now left.
Defined.

Lemma exhausted_pool_refuses_the_harvest_witness :
  exists msg,
    getAndMarkStuckJobs Sample.env "mail" 300000 100 Sample.crowded
    = (Sample.crowded, Thrown (PostgresConnectionError msg)).
Proof.
  destruct (exhausted_pool_refuses_the_harvest Sample.env Sample.crowded []
              Sample.reading Sample.reading Sample.reading eq_refl eq_refl eq_refl eq_refl) as (H & _).
  apply H.
Defined.

End HarvestLaws.

Module ReuseLaws.
Import Job Sql Repository SqlFacts RepositoryFacts HarvestFacts StoreLaws LookupLaws TableLaws UpsertLaws.

(** X18.  A job id that is used again blocks the status updates that are
    not terminal: when two rows carry the key, as after a job id has been
    submitted again once its first row was terminal, [updateJobStatus] to
    'pending', 'processing' or 'stuck' would make both rows active, which
    the unique index forbids: the call throws and no row changes. *)
Theorem reused_job_id_blocks_status_updates env q t j s r i k x y :
  i <> k ->
  nth_error (table r) i = Some x ->
  nth_error (table r) k = Some y ->
  same_key q t j x = true ->
  same_key q t j y = true ->
  isTerminal s = false ->
  isThrown (snd (updateJobStatus env q t j s r)) = true
  /\ table (fst (updateJobStatus env q t j s r)) = table r
  /\ (CircuitBreaker.state (circuitBreaker r) <> CircuitBreaker.OPEN ->
      fault env = None ->
      snd (updateJobStatus env q t j s r) = Thrown unique_violation).
Proof.
  intros Hik Hi Hk Kx Ky Hs.
  assert (U : UPDATE_JOB_STATUS (sql_now env) s q t j (table r) = Thrown unique_violation).
  { unfold UPDATE_JOB_STATUS, UPDATE.
    destruct (unique_active (update_rows _ _ _ (table r))) eqn:E; [exfalso|reflexivity].
    apply Hik.
    apply (unique_active_index _ i k _ _ E
             (eq_trans (nth_update_rows _ _ _ _ i) (f_equal _ Hi))
             (eq_trans (nth_update_rows _ _ _ _ k) (f_equal _ Hk)));
      rewrite ?Kx, ?Ky; unfold active; cbn; rewrite ?Hs; trivial.
    apply same_key_eq in Kx as (-> & -> & ->). exact Ky. }
  assert (Q : query env (UPDATE_JOB_STATUS (sql_now env) s q t j) (table r)
              = (table r, Thrown match fault env with Some e => e | None => unique_violation end)).
  { unfold query. rewrite U. now destruct (fault env). }
  unfold updateJobStatus, first_row_or_null, guarded.
  match goal with |- context [CircuitBreaker.execute ?c ?fn ?cb ?w] =>
    destruct (CircuitBreakerFacts.execute_cases c fn cb w) as [(Hst & _ & E)|E]; rewrite E end.
  - cbn. repeat split. intros Hn. contradiction.
  - cbn [fst snd]. rewrite Q. cbn. repeat split. intros _ ->. reflexivity.
Qed.

Local Open Scope string_scope.

Lemma reused_job_id_blocks_status_updates_witness :
  snd (updateJobStatus Sample.env "mail" bull "j4" PROCESSING Sample.reused) = Thrown unique_violation
  /\ table (fst (updateJobStatus Sample.env "mail" bull "j4" PROCESSING Sample.reused))
     = (Sample.table ++ [Sample.again])%list.
Proof.
  destruct (reused_job_id_blocks_status_updates Sample.env "mail" bull "j4"
              PROCESSING Sample.reused 3%nat 5%nat Sample.done Sample.again) as (_ & H1 & H2);
    try reflexivity.
  - discriminate.
  - split; [apply H2; [discriminate|reflexivity]|exact H1].
Defined.

End ReuseLaws.

Module AdapterLaws.
Import Job Broker Adapter AdapterFacts.

Local Open Scope string_scope.

Lemma byteLength_bounds s :
  Z.of_nat (String.length s) <= byteLength s <= 2 * Z.of_nat (String.length s).
Proof.
  induction s as [|c s IH]; [cbn; lia|].
  cbn [byteLength String.length]. rewrite Nat2Z.inj_succ.
  destruct (N_of_ascii c <? 128)%N; lia.
Qed.

Lemma valid_is_accepted jobName d :
  ~ invalid jobName d -> validateJobData jobName d = Returned tt.
Proof.
  intro Hv. unfold validateJobData.
  assert (Hn : match jobName with
               | Some n => negb (n =? "") && (MAX_NAME_LENGTH <? String.length n)%nat
               | None => false
               end = false).
  { destruct jobName as [n|]; [|reflexivity].
    destruct (Nat.ltb_spec MAX_NAME_LENGTH (String.length n)); [|apply andb_false_r].
    exfalso. apply Hv. left. exists n. split; [reflexivity|].
    unfold MAX_NAME_LENGTH in *. lia. }
  rewrite Hn. destruct d as [json|msg|].
  + destruct (Z.ltb_spec MAX_DATA_SIZE (byteLength json)); [|reflexivity].
    exfalso. apply Hv. right. left. exists json. split; [reflexivity|].
    unfold MAX_DATA_SIZE in *. lia.
  + exfalso. apply Hv. right. right. left. now exists msg.
  + exfalso. apply Hv. right. right. now right.
Qed.

(** X19.  The validation accepts a submission exactly when its name, if
    it has one, has at most 255 characters and its payload serialises to
    at most 1048576 bytes of UTF-8; every other submission makes it throw.
    A text of [n] code units has between [n] and [2n] bytes. *)
Theorem validation_accepts_exactly_the_valid :
  (forall jobName d, validateJobData jobName d = Returned tt <-> ~ invalid jobName d)
  /\ (forall json,
        Z.of_nat (String.length json) <= byteLength json <= 2 * Z.of_nat (String.length json)).
Proof.
  split; [intros jobName d; split|].
  - intros H Hinv. apply validateJobData_invalid in Hinv as (e & He). congruence.
  - apply valid_is_accepted.
  - apply byteLength_bounds.
Qed.

Section WithBroker.
Variable B : Type.
Variable api : Api B.

Lemma handleJobCreated_broker env a jobId jobName d maxAttempts (w : World B) :
  broker (handleJobCreated B env a jobId jobName d maxAttempts w) = broker w.
Proof.
  unfold handleJobCreated. destruct (validateJobData jobName d); [|reflexivity].
  destruct (Repository.createJob _ _ _ _ _ _ _ _) as [r [v|e]]; reflexivity.
Qed.


Lemma log_table l msg (w : World B) :
  Repository.table (repository (log B l msg w)) = Repository.table (repository w).
Proof. reflexivity. Qed.

Lemma createJob_table_or env q t j jname d maxAtt r :
  Repository.table (fst (Repository.createJob env q t j jname d maxAtt r)) = Repository.table r
  \/ exists json rows,
       Repository.stringify d = Returned json
       /\ Sql.INSERT_JOB (Repository.jsonb_in env) (Repository.sql_now env)
            (Repository.fresh_uuid env) q t j jname json
            PENDING 0 maxAtt (Repository.table r)
          = Returned (rows, Repository.table (fst (Repository.createJob env q t j jname d maxAtt r))).
Proof.
  unfold Repository.createJob.
  match goal with |- context [Repository.guarded env ?fn r] =>
    destruct (RepositoryFacts.guarded_table env fn r) as [H|H] end; [now left|].
  rewrite H. cbn [fst snd]. destruct (Repository.stringify d) as [json|e]; [|now left].
  match goal with |- context [Repository.query env ?stmt ?tbl] =>
    destruct (RepositoryFacts.query_table env stmt tbl) as [Q|(rows & Q)];
    destruct (Repository.query env stmt tbl) as [tbl' [[|row rows']|e]] end;
    cbn [fst snd] in *; try (now left); right; now exists json, rows.
Qed.

(** X21.  The validation lets names of up to 255 characters pass, but the
    column that stores them holds 100: a job whose name is longer than
    that, apart from spaces at its end, is never stored.  The insertion
    fails, the failure is logged and swallowed, and the table is as
    before. *)
Theorem long_names_pass_validation_but_are_not_stored env a jobId name d maxAttempts (w : World B) :
  ((String.length name <= 255)%nat ->
   forall json, byteLength json <= 1048576 ->
     validateJobData (Some name) (Serializable json) = Returned tt)
  /\ ((100 < String.length name)%nat ->
      Sql.all_spaces (substring 100 (String.length name - 100) name) = false ->
      Repository.table (repository (handleJobCreated B env a jobId (Some name) d maxAttempts w))
      = Repository.table (repository w)).
Proof.
  split.
  - intros Hn json Hj. apply valid_is_accepted.
    intros [(n & E & Hlen)|[(j0 & E & Hlen)|[(msg & E)|E]]]; try discriminate.
    + inversion E; subst. lia.
    + inversion E; subst. lia.
  - intros Hlen Hsp. unfold handleJobCreated.
    destruct (validateJobData (Some name) d); [|reflexivity].
    match goal with |- context [Repository.createJob ?e ?q ?t ?j ?n ?dd ?m ?r] =>
      pose proof (createJob_table_or e q t j n dd m r) as H;
      destruct (Repository.createJob e q t j n dd m r) as [r' [v|err]] end;
      cbn [fst] in H; cbn [repository with_repository log Repository.table];
      (destruct H as [H|(json & rows & _ & H)]; [exact H|]);
      exfalso; unfold Sql.INSERT_JOB in H;
      destruct (Sql.jsonb_opt _ json); try discriminate;
      destruct (Sql.varchar 100 (queueName a)); try discriminate;
      destruct (Sql.varchar 100 jobId); try discriminate;
      assert (V : Sql.varchar_opt 100 (Some name) = None)
        by (unfold Sql.varchar_opt, Sql.varchar;
            destruct (Nat.leb_spec (String.length name) 100); [lia|now rewrite Hsp]);
      rewrite V in H; discriminate.
Qed.

Lemma getJob_table env q t j r :
  Repository.table (fst (Repository.getJob env q t j r)) = Repository.table r.
Proof.
  destruct (getJob_logger env q t j r (Repository.logger r)) as (_ & H).
  now destruct r.
Qed.

Lemma atomicRemoveJob_repository a jobId (w : World B) :
  Repository.table (repository (fst (atomicRemoveJob B api a jobId w)))
  = Repository.table (repository w).
Proof.
  unfold atomicRemoveJob.
  destruct (eval api _ _ _ (broker w)) as [b [n|e]]; [reflexivity|].
  cbn [broker log with_broker]. destruct (getJob api jobId b) as [b1 [[job|]|e1]]; try reflexivity.
  destruct (getState api job b1) as [b2 [st|e2]]; [|reflexivity].
  destruct (negb _ && negb _); [|reflexivity].
  destruct (remove api job b2) as [b3 [u|e3]]; reflexivity.
Qed.

(** What the removal does on the broker when the script runs. *)
Lemma atomicRemoveJob_script a jobId (w : World B) b n :
  eval api ("bull:" ++ queueName a ++ ":" ++ jobId) (queueName a) jobId (broker w)
  = (b, Returned n) ->
  atomicRemoveJob B api a jobId w = (with_broker B w b, (n =? 1)%Z).
Proof. intro H. unfold atomicRemoveJob. now rewrite H. Qed.

(** X22.  Unless the removal script answers 1, nothing is submitted
    again: when it answers anything else (the job has finished, or is
    gone, or the script met an error), [reEnqueueJob] of the Bull and
    BullMQ adapters returns without calling the queue's [add] and without
    a status update, so the broker is as the script left it and the row
    stays 'stuck'. *)
Theorem no_resubmission_unless_removed env1 env2 env3 a jobRecord (w : World B) cur b n :
  queueType a <> bee ->
  snd (Repository.getJob env1 (queueName a) (queueType a) (job_id jobRecord)
         (repository w)) = Returned (Some cur) ->
  status cur = STUCK ->
  eval api ("bull:" ++ queueName a ++ ":" ++ job_id jobRecord) (queueName a)
       (job_id jobRecord) (broker w) = (b, Returned n) ->
  n <> 1 ->
  snd (reEnqueueJob B api env1 env2 env3 a jobRecord w) = Returned tt
  /\ broker (fst (reEnqueueJob B api env1 env2 env3 a jobRecord w)) = b
  /\ Repository.table (repository (fst (reEnqueueJob B api env1 env2 env3 a jobRecord w)))
     = Repository.table (repository w).
Proof.
  intros Hty Hget Hst Hev Hn.
  pose proof (getJob_logger env1 (queueName a) (queueType a) (job_id jobRecord)
                (repository w)
                (Logger.log Logger.info ("Re-enqueueing stuck job: " ++ job_id jobRecord)
                   (Repository.logger (repository w)))) as (Hout & Htbl).
  cbv zeta in Hout, Htbl. rewrite Hget in Hout.
  assert (Hn1 : (n =? 1)%Z = false) by now apply Z.eqb_neq.
  unfold reEnqueueJob, bull_reEnqueueJob, bullmq_reEnqueueJob, reEnqueue_with_id.
  destruct (queueType a) eqn:Ety; [| |congruence];
    cbn [Adapter.log repository broker] in *;
    match goal with |- context [Repository.getJob ?e ?q ?t ?j ?r] =>
      destruct (Repository.getJob e q t j r) as [r1 out] eqn:G end;
    cbn [fst snd] in *; subst out; rewrite Hst; cbn [status_eqb negb];
    (rewrite (atomicRemoveJob_script a (job_id jobRecord) _ b n) by exact Hev);
    rewrite Hn1; cbn; auto.
Qed.

Lemma updateJobStatus_attempts env q t j s r :
  map (fun row => (id row, attempts row, max_attempts row))
      (Repository.table (fst (Repository.updateJobStatus env q t j s r)))
  = map (fun row => (id row, attempts row, max_attempts row)) (Repository.table r).
Proof.
  unfold Repository.updateJobStatus.
  match goal with |- context [Repository.first_row_or_null env ?stmt ?m ?f r] =>
    destruct (RepositoryFacts.first_row_or_null_table env stmt m f r) as [H|(rows & H)] end.
  - now rewrite H.
  - apply SqlFacts.UPDATE_returned in H. rewrite H. unfold Sql.update_rows.
    rewrite map_map. apply map_ext. intro row.
    now destruct (Sql.same_key q t j row).
Qed.

(** X23.  Re-enqueueing through the Bull and BullMQ adapters never
    touches the attempt counters: whatever the call does and however it
    ends, every row keeps its identifier, its [attempts] and its
    [max_attempts]; the attempts grow in the options handed to the broker
    only. *)
Theorem reEnqueue_keeps_the_attempts env1 env2 env3 a jobRecord (w : World B) :
  queueType a <> bee ->
  map (fun row => (id row, attempts row, max_attempts row))
      (Repository.table (repository (fst (reEnqueueJob B api env1 env2 env3 a jobRecord w))))
  = map (fun row => (id row, attempts row, max_attempts row))
        (Repository.table (repository w)).
Proof.
  intro Hty.
  assert (G : forall resubmit,
    map (fun row => (id row, attempts row, max_attempts row))
      (Repository.table (repository (fst (reEnqueue_with_id B api resubmit env1 env3 a jobRecord w))))
    = map (fun row => (id row, attempts row, max_attempts row))
        (Repository.table (repository w))).
  { intro resubmit. unfold reEnqueue_with_id.
    set (w0 := log B Logger.info _ w).
    pose proof (getJob_table env1 (queueName a) (queueType a) (job_id jobRecord)
                  (repository w0)) as Hg.
    destruct (Repository.getJob _ _ _ _ (repository w0)) as [r1 [cur|e]]; cbn [fst] in Hg;
      [|cbn; now rewrite Hg].
    destruct (negb _); [cbn; now rewrite Hg|].
    pose proof (atomicRemoveJob_repository a (job_id jobRecord) (with_repository B w0 r1)) as Hr.
    destruct (atomicRemoveJob B api a (job_id jobRecord) (with_repository B w0 r1))
      as [w2 [|]]; cbn [fst repository with_repository] in Hr; [|cbn; now rewrite Hr, Hg].
    destruct (negb (originalAdd a)); [cbn; now rewrite Hr, Hg|].
    destruct (add api _ (broker w2)) as [b [job|e]]; [|cbn; now rewrite Hr, Hg].
    pose proof (updateJobStatus_attempts env3 (queueName a) (queueType a) (job_id jobRecord)
                  PENDING (repository (with_broker B w2 b))) as Hu.
    destruct (Repository.updateJobStatus _ _ _ _ _ (repository (with_broker B w2 b)))
      as [r' [v|e]]; cbn [fst] in Hu; cbn; rewrite Hu; cbn; now rewrite Hr, Hg. }
  unfold reEnqueueJob, bull_reEnqueueJob, bullmq_reEnqueueJob.
  destruct (queueType a); [apply G|apply G|congruence].
Qed.

(** X24.  A reported failure writes the sanitised text and nothing
    else: after [handleJobFailed], every row is a row of the table before,
    or carries as its error message the message as [sanitizeErrorMessage]
    returns it, with one attempt more than the row it replaces; the
    message as reported is stored only if it is already its own sanitised
    form. *)
Theorem only_the_sanitised_message_is_stored env a jobId message (w : World B) :
  let stored :=
    string_of_list_ascii (Sanitizer.sanitizeErrorMessage (list_ascii_of_string message)) in
  let w' := handleJobFailed B env a jobId message w in
  broker w' = broker w
  /\ List.length (Repository.table (repository w')) = List.length (Repository.table (repository w))
  /\ forall i row',
       nth_error (Repository.table (repository w')) i = Some row' ->
       nth_error (Repository.table (repository w)) i = Some row'
       \/ exists row,
            nth_error (Repository.table (repository w)) i = Some row
            /\ Sql.same_key (queueName a) (queueType a) jobId row = true
            /\ error_message row' = Some stored
            /\ attempts row' = attempts row + 1
            /\ id row' = id row.
Proof.
  cbv zeta. unfold handleJobFailed.
  set (stored := string_of_list_ascii _).
  unfold Repository.updateJobError.
  match goal with |- context [Repository.first_row_or_null env ?stmt ?m ?f (repository w)] =>
    destruct (RepositoryFacts.first_row_or_null_table env stmt m f (repository w))
      as [H|(rows & H)];
    destruct (Repository.first_row_or_null env stmt m f (repository w)) as [r [v|e]] end;
    cbn [fst] in H; cbn [broker repository with_repository log Repository.table];
    (split; [reflexivity|]).
  1,2: rewrite H; split; [reflexivity|]; intros i row' Hi; now left.
  1,2: unfold Sql.UPDATE_JOB_ERROR in H; destruct (forallb _ _); [|discriminate];
       apply SqlFacts.UPDATE_returned in H; rewrite H; split;
       [unfold Sql.update_rows; apply length_map|];
       intros i row' Hi; rewrite SqlFacts.nth_update_rows in Hi;
       destruct (nth_error (Repository.table (repository w)) i) as [row|]; [|discriminate];
       cbn [option_map] in Hi;
       destruct (Sql.same_key (queueName a) (queueType a) jobId row) eqn:K;
       [right; exists row; inversion Hi; subst; now repeat split|now left].
Qed.

End WithBroker.

Local Open Scope string_scope.


Lemma long_names_pass_validation_but_are_not_stored_witness :
  validateJobData (Some Sample.mediumName) (Serializable "{}") = Returned tt
  /\ Repository.table
       (repository (handleJobCreated MemoryBroker.B Sample.env Sample.bullAdapter "7"
                      (Some Sample.mediumName) (Serializable "{}") None Sample.world))
     = Sample.table.
Proof.
  destruct (long_names_pass_validation_but_are_not_stored MemoryBroker.B Sample.env
              Sample.bullAdapter "7" Sample.mediumName (Serializable "{}") None Sample.world)
    as (H1 & H2).
  split.
  - apply H1; [vm_compute; lia|vm_compute; discriminate].
  - apply H2; [vm_compute; lia|vm_compute; reflexivity].
Defined.

Lemma no_resubmission_unless_removed_witness :
  snd (reEnqueueJob MemoryBroker.B MemoryBroker.api Sample.env Sample.env Sample.env
         Sample.bullAdapter Sample.stuckRow Sample.harvestedWorld) = Returned tt
  /\ broker (fst (reEnqueueJob MemoryBroker.B MemoryBroker.api Sample.env Sample.env
                    Sample.env Sample.bullAdapter Sample.stuckRow Sample.harvestedWorld)) = []
  /\ Repository.table
       (repository (fst (reEnqueueJob MemoryBroker.B MemoryBroker.api Sample.env Sample.env
                           Sample.env Sample.bullAdapter Sample.stuckRow Sample.harvestedWorld)))
     = Repository.table (repository Sample.harvestedWorld).
Proof.
  apply (no_resubmission_unless_removed MemoryBroker.B MemoryBroker.api
           Sample.env Sample.env Sample.env Sample.bullAdapter Sample.stuckRow Sample.harvestedWorld
           Sample.stuckRow [] 0).
  - discriminate.
  - vm_compute. reflexivity.
  - reflexivity.
  - reflexivity.
  - discriminate.
Defined.

Lemma reEnqueue_keeps_the_attempts_witness :
  map (fun row => (id row, attempts row, max_attempts row))
      (Repository.table
         (repository (fst (reEnqueueJob MemoryBroker.B MemoryBroker.api Sample.env Sample.env
                             Sample.env Sample.bullAdapter Sample.stuckRow Sample.harvestedWorld))))
  = map (fun row => (id row, attempts row, max_attempts row))
        (Repository.table (repository Sample.harvestedWorld)).
Proof.
  apply (reEnqueue_keeps_the_attempts MemoryBroker.B MemoryBroker.api).
  discriminate.
Defined.

End AdapterLaws.

Module ReconcilerLaws.
Import Job Reconciler.

Section WithBroker.
Variable B : Type.
Variable api : Broker.Api B.
Variable fmul : Q -> Q -> Q.

Lemma scheduleNext_failures rc :
  consecutiveFailures (scheduleNext rc) = consecutiveFailures rc.
Proof. unfold scheduleNext. now destruct (isStopped rc). Qed.

(** One firing of the timer on a paused reconciler. *)
Lemma run_paused env envs a rc (w : Adapter.World B) :
  MAX_CONSECUTIVE_FAILURES <= consecutiveFailures rc ->
  let res := run B api fmul env envs a rc w in
  snd res = Returned tt
  /\ consecutiveFailures (fst (fst res)) = consecutiveFailures rc
  /\ Repository.table (Adapter.repository (snd (fst res)))
     = Repository.table (Adapter.repository w)
  /\ Repository.circuitBreaker (Adapter.repository (snd (fst res)))
     = Repository.circuitBreaker (Adapter.repository w)
  /\ Adapter.broker (snd (fst res)) = Adapter.broker w.
Proof.
  intro H. cbv zeta. unfold run.
  destruct (isRunning rc || isStopped rc); [now repeat split|].
  apply Z.leb_le in H. rewrite H. cbn. rewrite scheduleNext_failures. now repeat split.
Qed.

(** A cycle whose harvest fails counts one failure and throws. *)
Lemma run_failed env envs a rc (w : Adapter.World B) :
  isRunning rc = false -> isStopped rc = false ->
  consecutiveFailures rc < MAX_CONSECUTIVE_FAILURES ->
  isThrown (snd (Repository.getAndMarkStuckJobs env (Adapter.queueName a)
                   (c_stuckThresholdMs (config rc)) (c_batchSize (config rc))
                   (Adapter.repository w))) = true ->
  snd (run B api fmul env envs a rc w)
  = Thrown (ReconciliationError "Failed to complete reconciliation")
  /\ consecutiveFailures (fst (fst (run B api fmul env envs a rc w)))
     = consecutiveFailures rc + 1.
Proof.
  intros Hr Hs Hc Ht. unfold run. rewrite Hr, Hs. cbn [orb].
  apply Z.leb_gt in Hc. rewrite Hc.
  destruct (Repository.getAndMarkStuckJobs _ _ _ _ _) as [r [found|e]]; [discriminate|].
  cbn [fst snd]. rewrite scheduleNext_failures. now split.
Qed.

(** X25.  A cycle whose harvest fails throws the reconciliation error
    and counts one failure; once the count has reached three the
    reconciliation stays paused for good: every later firing of the timer
    returns without a call to the repository or to the broker and leaves
    the count where it is, so that no firing can end the pause. *)
Theorem paused_reconciliation_never_resumes a :
  (forall env envs rc (w : Adapter.World B),
     isRunning rc = false -> isStopped rc = false ->
     consecutiveFailures rc < MAX_CONSECUTIVE_FAILURES ->
     isThrown (snd (Repository.getAndMarkStuckJobs env (Adapter.queueName a)
                      (c_stuckThresholdMs (config rc)) (c_batchSize (config rc))
                      (Adapter.repository w))) = true ->
     snd (run B api fmul env envs a rc w)
     = Thrown (ReconciliationError "Failed to complete reconciliation")
     /\ consecutiveFailures (fst (fst (run B api fmul env envs a rc w)))
        = consecutiveFailures rc + 1)
  /\ (forall cycles rc (w : Adapter.World B),
        MAX_CONSECUTIVE_FAILURES <= consecutiveFailures rc ->
        consecutiveFailures (fst (runAll B api fmul cycles a rc w)) = consecutiveFailures rc
        /\ Repository.table (Adapter.repository (snd (runAll B api fmul cycles a rc w)))
           = Repository.table (Adapter.repository w)
        /\ Repository.circuitBreaker
             (Adapter.repository (snd (runAll B api fmul cycles a rc w)))
           = Repository.circuitBreaker (Adapter.repository w)
        /\ Adapter.broker (snd (runAll B api fmul cycles a rc w)) = Adapter.broker w).
Proof.
  split; [intros; now apply run_failed|]. intros cycles. 
  induction cycles as [|[env envs] cycles IH]; intros rc w H; cbn [runAll].
  - now repeat split.
  - pose proof (run_paused env envs a rc w H) as (_ & Hc & Ht & Hb & Hk). 
    destruct (run B api fmul env envs a rc w) as [[rc' w'] out]. cbn [fst snd] in *.
    destruct (IH rc' w') as (Hc' & Ht' & Hb' & Hk'); [lia|].
    rewrite Hc', Ht', Hb', Hk'. now repeat split.
Qed.

(** X26.  Jobs that have used up their attempts are never submitted
    again: when every row in status 'processing' has reached its maximum
    of attempts, a cycle leaves the broker untouched, whatever it finds. *)
Theorem exhausted_jobs_are_not_resubmitted env envs a rc (w : Adapter.World B) :
  (forall row, In row (Repository.table (Adapter.repository w)) ->
     status row = PROCESSING -> max_attempts row <= attempts row) ->
  Adapter.broker (snd (fst (run B api fmul env envs a rc w))) = Adapter.broker w.
Proof.
  intro H. unfold run.
  destruct (isRunning rc || isStopped rc); [reflexivity|].
  destruct (MAX_CONSECUTIVE_FAILURES <=? consecutiveFailures rc)%Z; [reflexivity|].
  destruct (Repository.getAndMarkStuckJobs _ _ _ _ _) as [r [found|e]] eqn:G; [|reflexivity].
  apply RepositoryFacts.getAndMarkStuckJobs_returned in G as (sel & G & -> & _).
  apply SqlFacts.GET_STUCK_JOBS_spec in G as (_ & _ & _ & G).
  rewrite RepositoryFacts.partition_stuck_spec. cbn [Repository.toReEnqueue Repository.deadJobIds].
  assert (E : filter (fun job => attempts job <? max_attempts job) sel = []).
  { apply LookupLaws.filter_none. intros x Hx. destruct (G x Hx) as (Hin & _ & Hst & _).
    apply Z.ltb_ge. now apply H. }
  rewrite E. cbn [List.length Nat.add].
  destruct (0 <? _)%Z; reflexivity.
Qed.

End WithBroker.

Import Broker Adapter.
Local Open Scope string_scope.

Lemma paused_reconciliation_never_resumes_witness :
  Reconciler.consecutiveFailures
    (fst (Reconciler.runAll MemoryBroker.B MemoryBroker.api Qmult
            [(Sample.env, []); (Sample.env, [])] Sample.bullAdapter (Sample.reconcilerWith 3)
            Sample.world)) = 3
  /\ Repository.table
       (repository (snd (Reconciler.runAll MemoryBroker.B MemoryBroker.api Qmult
                           [(Sample.env, []); (Sample.env, [])] Sample.bullAdapter
                           (Sample.reconcilerWith 3) Sample.world)))
     = Sample.table.
Proof.
  destruct (paused_reconciliation_never_resumes MemoryBroker.B
              MemoryBroker.api Qmult Sample.bullAdapter) as (_ & H).
  destruct (H [(Sample.env, []); (Sample.env, [])] (Sample.reconcilerWith 3) Sample.world)
    as (H1 & H2 & _).
  - vm_compute. discriminate.
  - split; [exact H1|exact H2].
Defined.

Lemma exhausted_jobs_are_not_resubmitted_witness :
  broker (snd (fst (Reconciler.run MemoryBroker.B MemoryBroker.api Qmult Sample.env []
                      Sample.bullAdapter (Sample.reconcilerWith 0) Sample.spentWorld))) = [].
Proof.
  apply (exhausted_jobs_are_not_resubmitted MemoryBroker.B MemoryBroker.api
           Qmult Sample.env [] Sample.bullAdapter (Sample.reconcilerWith 0) Sample.spentWorld).
  intros row [<-|[<-|[]]] H; [cbn; lia|discriminate].
Defined.

End ReconcilerLaws.

Module JobGuardLaws.
Import Job JobGuard.

(** X27.  The three type guards exclude one another, so the order in
    which the detector tries them does not matter: a queue object is
    taken for a Bee-Queue exactly when it has [createJob], for a Bull
    queue exactly when [isBullQueue] holds and for a BullMQ queue exactly
    when [isBullMQQueue] holds; when none holds, no adapter is made and
    the unsupported-queue error is thrown. *)
Theorem detector_guards_exclude_one_another q :
  (detectQueueType q = Some bee <-> isBeeQueue q = true)
  /\ (detectQueueType q = Some bull <-> isBullQueue q = true)
  /\ (detectQueueType q = Some bullmq <-> isBullMQQueue q = true)
  /\ (createAdapter q = Thrown (UnsupportedQueueError "unknown")
      <-> isBeeQueue q = false /\ isBullQueue q = false /\ isBullMQQueue q = false)
  /\ (forall a, createAdapter q = Returned a ->
        detectQueueType q = Some (Adapter.queueType a)
        /\ Adapter.wrapped a = false /\ Adapter.listening a = false
        /\ Adapter.isDisposed a = false).
Proof.
  unfold createAdapter, detectQueueType, isBeeQueue, isBullQueue, isBullMQQueue.
  destruct (has_add q), (has_process q), (has_name q), (has_on q), (has_createJob q);
    cbn; repeat split; intros; try discriminate; try tauto;
    try (match goal with H : Returned _ = Returned _ |- _ => inversion H; subst; reflexivity end);
    try (match goal with H : _ /\ _ |- _ => destruct H as (? & ? & ?); discriminate end).
Qed.

Section WithBroker.
Variable B : Type.
Variable api : Broker.Api B.
Variable fmul : Q -> Q -> Q.

(** An initialisation that has been tried leaves its outcome behind. *)
Lemma initialize_settles connected jg (w : World B) :
  initializationPromise jg = None ->
  initializationPromise (fst (fst (initialize B connected jg w)))
  = Some (snd (initialize B connected jg w)).
Proof.
  intro Hp. unfold initialize. rewrite Hp.
  destruct connected; [|reflexivity]. cbn [negb].
  destruct (Adapter.initialize B (adapter jg) _) as [a w1].
  destruct (Reconciler.not_false _).
  - destruct (Reconciler.constructor _) as [rc|e]; [|reflexivity].
    destruct (Reconciler.start B rc w1) as [rc' w2].
    destruct (Reconciler.not_false _); reflexivity.
  - destruct (Reconciler.not_false _); reflexivity.
Qed.

(** The initialisation is tried once: when it has been tried,
    every further call of [initialize] changes nothing and ends as the
    first one ended, whether or not the database can now be reached, and
    so does [waitReady].  A failed initialisation is never tried again. *)
Lemma initialization_is_tried_once connected jg (w : World B) :
  initializationPromise jg = None ->
  let jg1 := fst (fst (initialize B connected jg w)) in
  let out := snd (initialize B connected jg w) in
  (forall connected' w', initialize B connected' jg1 w' = (jg1, w', out))
  /\ waitReady jg1 = out.
Proof.
  intro Hp. cbv zeta. pose proof (initialize_settles connected jg w Hp) as H.
  split.
  - intros connected' w'. unfold initialize at 1. now rewrite H.
  - unfold waitReady. now rewrite H.
Qed.

(** X28.  The initialisation does not undo what it has done when it
    fails late: with a stuck threshold below the floor, the reconciler's
    constructor throws after the adapter has been initialised, so the
    call ends with the reconciliation error and the coordinator is not
    initialised, while the queue's submit stays wrapped and the listeners
    stay attached. *)
Theorem failed_initialization_leaves_the_queue_wrapped jg (w : World B) rcfg n :
  initializationPromise jg = None ->
  reconciliation (config jg) = Some rcfg ->
  Reconciler.enabled rcfg <> Some false ->
  Reconciler.stuckThresholdMs rcfg = Some n ->
  n <> 0 -> n < 60000 ->
  let jg' := fst (fst (initialize B true jg w)) in
  (exists msg, snd (initialize B true jg w) = Thrown (ReconciliationError msg))
  /\ initialized jg' = initialized jg
  /\ reconciler jg' = reconciler jg
  /\ Adapter.wrapped (adapter jg') = true
  /\ Adapter.listening (adapter jg') = true
  /\ Adapter.isDisposed (adapter jg') = Adapter.isDisposed (adapter jg).
Proof.
  intros Hp Hr He Hn Hn0 Hlt. cbv zeta. unfold initialize. rewrite Hp, Hr. cbn [negb].
  unfold Adapter.initialize.
  assert (Hnf : Reconciler.not_false (Reconciler.enabled rcfg) = true).
  { destruct (Reconciler.enabled rcfg) as [[|]|]; try reflexivity. congruence. }
  rewrite Hnf. unfold Reconciler.constructor. rewrite Hn. unfold Reconciler.or_default.
  apply Z.eqb_neq in Hn0. rewrite Hn0.
  unfold Reconciler.MIN_STUCK_THRESHOLD. apply Z.ltb_lt in Hlt. rewrite Hlt.
  cbn. split; [eexists; reflexivity|]. now repeat split.
Qed.

Lemma cleanupTicks_cons env envs jg (w : World B) :
  cleanupTicks B (env :: envs) jg w
  = cleanupTicks B envs (fst (cleanupTick B env jg w)) (snd (cleanupTick B env jg w)).
Proof. unfold cleanupTicks. cbn [fold_left fst snd]. now destruct (cleanupTick B env jg w). Qed.

(** X29.  A cleanup that fails counts one failure, and one that succeeds
    sets the count to zero; once the count has reached three the cleanup
    is off for good: every later firing of its timer returns without a
    call to the repository and leaves the count where it is. *)
Theorem disabled_cleanup_never_resumes :
  (forall env jg (w : World B),
     cleanupRunning jg = true ->
     cleanupFailures jg < MAX_CONSECUTIVE_FAILURES ->
     let days := match cleanupInterval jg with Some (_, d) => d | None => 7 end in
     cleanupFailures (fst (cleanupTick B env jg w))
     = if isThrown (snd (Repository.deleteOldJobs env days (Adapter.repository w)))
       then cleanupFailures jg + 1 else 0)
  /\ (forall envs jg (w : World B),
        MAX_CONSECUTIVE_FAILURES <= cleanupFailures jg ->
        cleanupFailures (fst (cleanupTicks B envs jg w)) = cleanupFailures jg
        /\ Repository.table (Adapter.repository (snd (cleanupTicks B envs jg w)))
           = Repository.table (Adapter.repository w)
        /\ Repository.circuitBreaker (Adapter.repository (snd (cleanupTicks B envs jg w)))
           = Repository.circuitBreaker (Adapter.repository w)).
Proof.
  split.
  - intros env jg w Hr Hc. cbv zeta. unfold cleanupTick. rewrite Hr. cbn [negb].
    apply Z.leb_gt in Hc. rewrite Hc.
    destruct (Repository.deleteOldJobs _ _ _) as [r [n|e]]; reflexivity.
  - intros envs. induction envs as [|env envs IH]; intros jg w H.
    + now repeat split.
    + rewrite cleanupTicks_cons.
      assert (E : cleanupFailures (fst (cleanupTick B env jg w)) = cleanupFailures jg
                  /\ Repository.table (Adapter.repository (snd (cleanupTick B env jg w)))
                     = Repository.table (Adapter.repository w)
                  /\ Repository.circuitBreaker (Adapter.repository (snd (cleanupTick B env jg w)))
                     = Repository.circuitBreaker (Adapter.repository w)).
      { unfold cleanupTick. destruct (negb (cleanupRunning jg)); [now repeat split|].
        pose proof H as H'. apply Z.leb_le in H'. rewrite H'. now repeat split. }
      destruct E as (Ec & Et & Eb).
      destruct (IH (fst (cleanupTick B env jg w)) (snd (cleanupTick B env jg w)))
        as (Hc & Ht & Hb); [lia|].
      rewrite Hc, Ht, Hb. now repeat split.
Qed.

End WithBroker.

Import Broker Adapter.
Local Open Scope string_scope.

Lemma failed_initialization_leaves_the_queue_wrapped_witness :
  let jg' := fst (fst (JobGuard.initialize MemoryBroker.B true (Sample.guardWith Sample.hastyConfig 0)
                         Sample.world)) in
  (exists msg,
     snd (JobGuard.initialize MemoryBroker.B true (Sample.guardWith Sample.hastyConfig 0) Sample.world)
     = Thrown (ReconciliationError msg))
  /\ JobGuard.initialized jg' = false
  /\ JobGuard.reconciler jg' = None
  /\ wrapped (JobGuard.adapter jg') = true
  /\ listening (JobGuard.adapter jg') = true
  /\ isDisposed (JobGuard.adapter jg') = false.
Proof.
  cbv zeta.
  apply (failed_initialization_leaves_the_queue_wrapped MemoryBroker.B
           (Sample.guardWith Sample.hastyConfig 0) Sample.world
           {| Reconciler.enabled := None; Reconciler.intervalMs := None;
              Reconciler.stuckThresholdMs := Some 1000; Reconciler.batchSize := None;
              Reconciler.adaptiveScheduling := None; Reconciler.rateLimitPerSecond := None;
              Reconciler.useHeartbeat := None |} 1000).
  - reflexivity.
  - reflexivity.
  - discriminate.
  - reflexivity.
  - discriminate.
  - reflexivity.
Defined.

Lemma disabled_cleanup_never_resumes_witness :
  JobGuard.cleanupFailures
    (fst (JobGuard.cleanupTicks MemoryBroker.B [Sample.env; Sample.env]
            (Sample.guardWith Sample.plainConfig 3) Sample.world)) = 3
  /\ Repository.table
       (repository (snd (JobGuard.cleanupTicks MemoryBroker.B [Sample.env; Sample.env]
                           (Sample.guardWith Sample.plainConfig 3) Sample.world)))
     = Sample.table.
Proof.
  destruct (disabled_cleanup_never_resumes MemoryBroker.B) as (_ & H).
  destruct (H [Sample.env; Sample.env] (Sample.guardWith Sample.plainConfig 3) Sample.world)
    as (H1 & H2 & _).
  - vm_compute. discriminate.
  - split; [exact H1|exact H2].
Defined.

End JobGuardLaws.

Module SanitizerLaws.
Import Regex Sanitizer RegexFacts.
Local Open Scope list_scope.

(** A pattern that matches nowhere replaces nothing. *)
Lemma replace_unmatched i r repl s : test i r s = false -> replace i r repl s = s.
Proof.
  unfold replace. induction s as [|c s IH]; cbn [test replace_from].
  - destruct (exec i r []); [discriminate|reflexivity].
  - destruct (exec i r (c :: s)); [discriminate|]. intro H. now rewrite IH.
Qed.

Lemma replace_nonempty i r repl s : repl <> [] -> s <> [] -> replace i r repl s <> [].
Proof.
  intros Hr Hs. destruct s as [|c s]; [contradiction|]. unfold replace. cbn [replace_from].
  destruct (exec i r (c :: s)) as [[|n]|]; try discriminate;
    destruct repl; try contradiction; discriminate.
Qed.

(** X30.  A message in which none of the five patterns matches and which
    has at most 5000 characters is stored as it is. *)
Theorem harmless_messages_are_kept_verbatim msg :
  msg <> [] ->
  (Z.of_nat (List.length msg) <= 5000)%Z ->
  test true postgres_url msg = false ->
  test true password_field msg = false ->
  test true api_key msg = false ->
  test false aws_key msg = false ->
  test false jwt msg = false ->
  sanitizeErrorMessage msg = msg.
Proof.
  intros Hne Hlen H1 H2 H3 H4 H5. unfold sanitizeErrorMessage.
  destruct msg as [|c msg]; [contradiction|].
  unfold redact, redact_jwt, redact_aws_key, redact_api_key, redact_password,
    redact_postgres_url.
  rewrite (replace_unmatched _ _ _ _ H1), (replace_unmatched _ _ _ _ H2),
    (replace_unmatched _ _ _ _ H3), (replace_unmatched _ _ _ _ H4),
    (replace_unmatched _ _ _ _ H5).
  unfold truncate.
  destruct (Nat.ltb_spec MAX_ERROR_LENGTH (List.length (c :: msg))); [|reflexivity].
  unfold MAX_ERROR_LENGTH in *. lia.
Qed.

Lemma harmless_messages_are_kept_verbatim_witness :
  sanitizeErrorMessage (str "connect ECONNREFUSED 127.0.0.1:5432")
  = str "connect ECONNREFUSED 127.0.0.1:5432".
Proof.
  apply harmless_messages_are_kept_verbatim.
  - discriminate.
  - vm_compute. discriminate.
  - vm_compute. reflexivity.
  - vm_compute. reflexivity.
  - vm_compute. reflexivity.
  - vm_compute. reflexivity.
  - vm_compute. reflexivity.
Defined.

End SanitizerLaws.
